(** * PhilGEPS awards data explorer: query compiler, drill navigation,
      tab loading and debounce, embedded from [src/poc/httpfs.ts] and
      [src/components/DataExplorer.tsx].

    Conventions of the embedding.
    - JavaScript strings are [string]; template literals are written out
      with [+:+]. Numbers that the code only uses as integers (offsets,
      page sizes, limits, counts) are [Z]; [pretty] prints them the way a
      template literal prints an integer.
    - A JavaScript object used as a record is a [Record]. The [tabs]
      object of a drill modal is a list of entity type and tab state in
      key order (the code reads [Object.keys]) next to its [contracts]
      entry; a normalised result row is a [gmap] from field name to
      value.
    - [async] functions are split at their [await]: what runs before the
      engine call builds a request, what runs after it is a handler
      applied to the state current at the time the response arrives
      (the source uses functional updates, [setModalData(prev => ...)]).
    - The DuckDB engine and the browser timers are environments; each has
      a small executable model in a module of its own. *)

From stdpp Require Import gmap strings list pretty sorting.
From Stdlib Require Import ZArith Lia QArith Ascii.

Local Open Scope string_scope.
Local Open Scope Z_scope.
Local Open Scope list_scope.

(** ** Strings: the helpers of the query compiler *)

Module Str.

(** The character a SQL string literal is delimited by. *)
Definition quote : ascii := "'"%char.

(** [esc]: a global regular-expression replace of the apostrophe by two
    apostrophes. *)
Fixpoint esc (v : string) : string :=
  match v with
  | EmptyString => EmptyString
  | String c s =>
      if Ascii.eqb c quote then String quote (String quote (esc s))
      else String c (esc s)
  end.

(** [Array.prototype.join]: the elements separated by [sep]. *)
Fixpoint join (sep : string) (l : list string) : string :=
  match l with
  | [] => EmptyString
  | [x] => x
  | x :: rest => x +:+ sep +:+ join sep rest
  end.

(** Number of apostrophes of a string. *)
Fixpoint quotes (v : string) : nat :=
  match v with
  | EmptyString => 0%nat
  | String c s => ((if Ascii.eqb c quote then 1 else 0) + quotes s)%nat
  end.

(** How the engine's lexer reads the body of a string literal: the text
    after the opening apostrophe up to the closing one, a doubled
    apostrophe standing for one. The result is the literal's value and
    the text left after the closing apostrophe; [None] when the literal
    is not terminated. *)
Fixpoint lex_literal (s : string) : option (string * string) :=
  match s with
  | EmptyString => None
  | String c rest =>
      if Ascii.eqb c quote then
        match rest with
        | String c' rest' =>
            if Ascii.eqb c' quote then
              match lex_literal rest' with
              | Some (v, k) => Some (String quote v, k)
              | None => None
              end
            else Some (EmptyString, rest)
        | EmptyString => Some (EmptyString, EmptyString)
        end
      else
        match lex_literal rest with
        | Some (v, k) => Some (String c v, k)
        | None => None
        end
  end.

(** A text does not start with an apostrophe. *)
Definition no_leading_quote (k : string) : Prop :=
  match k with
  | EmptyString => True
  | String c _ => c <> quote
  end.

End Str.

(** ** Dimensions *)

(** [type EntityType = 'contractor' | 'area' | 'organization' | 'category'] *)
Inductive EntityType := contractor | area | organization | category.

#[global] Instance EntityType_eq_dec : EqDecision EntityType.
Proof. solve_decision. Defined.

(** The string a value of the union type is at run time. *)
Definition dim_name (d : EntityType) : string :=
  match d with
  | contractor => "contractor"
  | area => "area"
  | organization => "organization"
  | category => "category"
  end.

(** [const allEntityTypes: EntityType[] = ['contractor', 'area',
    'organization', 'category']] *)
Definition allEntityTypes : list EntityType :=
  [contractor; area; organization; category].

(** The fixed table of the data model. *)
Definition column_table (d : EntityType) : string :=
  match d with
  | contractor => "contractor_name"
  | area => "area_of_delivery"
  | organization => "organization_name"
  | category => "business_category"
  end.

(** ** Query texts

    The clauses the three query functions build. The [where] and
    [orderBy] of [queryParquetPaged] are text its caller supplies, so
    that function is embedded as the texts it sends; the other two
    functions are embedded further down, run against the engine. *)

Module Sql.
Import Str.

(** [dimToCol] of [queryTopRelated]: a [switch] with a default. *)
Definition dimToCol_related (d : string) : string :=
  if String.eqb d "contractor" then "contractor_name"
  else if String.eqb d "area" then "area_of_delivery"
  else if String.eqb d "organization" then "organization_name"
  else if String.eqb d "category" then "business_category"
  else "contractor_name".

(** [dimToCol] of [queryContractsByEntity]: column names map to
    themselves, and so does any unknown string. *)
Definition dimToCol_contracts (d : string) : string :=
  if String.eqb d "contractor_name" then "contractor_name"
  else if String.eqb d "area_of_delivery" then "area_of_delivery"
  else if String.eqb d "organization_name" then "organization_name"
  else if String.eqb d "business_category" then "business_category"
  else if String.eqb d "contractor" then "contractor_name"
  else if String.eqb d "area" then "area_of_delivery"
  else if String.eqb d "organization" then "organization_name"
  else if String.eqb d "category" then "business_category"
  else d.

(** [{ dim: string; value: string }] *)
Record Filter := mkFilter { dim : string; value : string }.

(** [`${dimToCol(f.dim)} = '${esc(f.value)}'`] *)
Definition whereClause (f : Filter) : string :=
  dimToCol_contracts (dim f) +:+ " = '" +:+ esc (value f) +:+ "'".

(** [filters.map(f => ...)] *)
Definition whereClauses (filters : list Filter) : list string :=
  map whereClause filters.

(** [whereClauses.length ? `WHERE ${whereClauses.join(' AND ')}` : empty] *)
Definition whereCombined (filters : list Filter) : string :=
  match whereClauses filters with
  | [] => EmptyString
  | cs => "WHERE " +:+ join " AND " cs
  end.

(** [orderBy ? `ORDER BY ${orderBy}` : 'ORDER BY award_date DESC']; an
    absent and an empty [orderBy] are both falsy. *)
Definition orderClause (orderBy : option string) : string :=
  match orderBy with
  | Some o => if String.eqb o EmptyString then "ORDER BY award_date DESC"
              else "ORDER BY " +:+ o
  | None => "ORDER BY award_date DESC"
  end.

(** The options object of [queryParquetPaged]:
    [{ where?: string; orderBy?: string; columns?: string[] }]. *)
Record PagedOpts := mkOpts {
  o_where : option string;
  o_orderBy : option string;
  o_columns : option (list string)
}.

(** An optional string as a condition: absent and empty are falsy. *)
Definition truthy (s : option string) : option string :=
  match s with
  | Some EmptyString => None
  | o => o
  end.


(** [opts?.where ? `WHERE ${opts.where}` : empty] *)
Definition paged_where (opts : option PagedOpts) : string :=
  match opts with
  | Some o => match truthy (o_where o) with
              | Some w => "WHERE " +:+ w
              | None => EmptyString
              end
  | None => EmptyString
  end.


(** [const offset = pageIndex * pageSize] of [queryParquetPaged]. *)
Definition paged_offset (pageIndex pageSize : Z) : Z := pageIndex * pageSize.


(** The count query of [queryParquetPaged]:
    [`SELECT COUNT( * ) AS c FROM ${viewName} ${where}`]. *)
Definition paged_count_sql (opts : option PagedOpts) : string :=
  "SELECT COUNT(" +:+ "*) AS c FROM v " +:+ paged_where opts.

(** [const offset = pageIndex] of [queryContractsByEntity]: the caller
    already passes an item offset. *)
Definition contracts_offset (pageIndex : Z) : Z := pageIndex.

(** [`SELECT COUNT( * ) AS c FROM facts_v ${whereCombined}`] *)
Definition contracts_count_sql (filters : list Filter) : string :=
  "SELECT COUNT(" +:+ "*) AS c FROM facts_v " +:+ whereCombined filters.

End Sql.

(** ** The engine: a model of what the code asks of DuckDB

    The repository consumes the engine through
    [registerFileBuffer]/[dropFile], [connect], [query] and [close].
    The model below covers the statements the code sends: a view over a
    registered file, [PRAGMA table_info], and [SELECT] with optional
    aggregates, a conjunction of equalities and [IS NOT NULL] tests,
    [GROUP BY 1], [ORDER BY] on one column and [LIMIT]/[OFFSET].
    Amounts and dates are exact integers; an average is an exact
    rational (the engine rounds to a double, which is outside the
    model). *)

Module Engine.

(** A value of a column. *)
Inductive Value :=
  | VNull
  | VInt (n : Z)
  | VRat (q : Q)
  | VStr (s : string).

#[global] Instance Q_eq_dec : EqDecision Q.
Proof. solve_decision. Defined.

#[global] Instance Value_eq_dec : EqDecision Value.
Proof. solve_decision. Defined.

(** A file of line-level or aggregated records: a schema and rows. *)
Record Table := mkTable {
  t_cols : list string;
  t_rows : list (list Value)
}.

(** Why a call of the query functions rejects. *)
Inductive Error :=
  | FetchFailure (url : string)
  | BinderError (column : string)
  | OutOfRange (what : string)
  | CatalogError (name : string).

(** The outcome of an awaited operation. *)
Inductive Res (A : Type) :=
  | Ok (a : A)
  | Err (e : Error).
Arguments Ok {A} a.
Arguments Err {A} e.

(** Position of a column in a schema. *)
Fixpoint index_of (c : string) (cols : list string) : option nat :=
  match cols with
  | [] => None
  | c' :: rest => if String.eqb c c' then Some 0%nat
                  else S <$> index_of c rest
  end.

(** The schema has the column. *)
Definition has_col (cols : list string) (c : string) : bool :=
  bool_decide (c ∈ cols).

(** The value of column [c] in row [r] of a table with schema [cols]. *)
Definition cell (cols : list string) (r : list Value) (c : string) : Value :=
  match index_of c cols with
  | Some i => default VNull (r !! i)
  | None => VNull
  end.

(** The statements the code sends, parsed. *)
Inductive Agg := ASum | AAvg | AMin | AMax.

Inductive Expr :=
  | ECol (c : string)
  | ELit (v : Value)
  | ECountStar
  | EAgg (f : Agg) (c : string).

Record Item := mkItem { i_expr : Expr; i_alias : option string }.

Inductive Cond :=
  | CEq (c : string) (lit : string)
  | CNotNull (c : string).

Inductive Dir := ASC | DESC.

#[global] Instance Dir_eq_dec : EqDecision Dir.
Proof. solve_decision. Defined.

Record Select := mkSelect {
  s_items : list Item;
  s_from : string;
  s_where : list Cond;
  s_group_by_first : bool;
  s_order : option (string * Dir);
  s_limit : option Z;
  s_offset : option Z
}.

(** *** Statement text *)

Definition show_dir (d : Dir) : string :=
  match d with ASC => "ASC" | DESC => "DESC" end.

Definition show_value (v : Value) : string :=
  match v with
  | VNull => "NULL"
  | VInt n => pretty n
  | VRat q => pretty (Qnum q) +:+ "/" +:+ pretty (Zpos (Qden q))
  | VStr s => "'" +:+ Str.esc s +:+ "'"
  end.

Definition show_agg (f : Agg) : string :=
  match f with ASum => "SUM" | AAvg => "AVG" | AMin => "MIN" | AMax => "MAX" end.

Definition show_expr (e : Expr) : string :=
  match e with
  | ECol c => c
  | ELit v => show_value v
  | ECountStar => "COUNT(" +:+ "*)"
  | EAgg f c => show_agg f +:+ "(" +:+ c +:+ ")"
  end.

Definition show_item (i : Item) : string :=
  match i_alias i with
  | Some a => show_expr (i_expr i) +:+ " AS " +:+ a
  | None => show_expr (i_expr i)
  end.

Definition show_cond (c : Cond) : string :=
  match c with
  | CEq col lit => col +:+ " = '" +:+ Str.esc lit +:+ "'"
  | CNotNull col => col +:+ " IS NOT NULL"
  end.

Definition show_order (o : string * Dir) : string :=
  o.1 +:+ " " +:+ show_dir o.2.

(** The name a select item has in the result schema. *)
Definition out_name (i : Item) : string :=
  match i_alias i with
  | Some a => a
  | None => show_expr (i_expr i)
  end.

(** *** Binding *)

Definition is_aggregate (e : Expr) : bool :=
  match e with
  | ECountStar | EAgg _ _ => true
  | _ => false
  end.

(** Columns an expression reads from the source table. *)
Definition expr_cols (e : Expr) : list string :=
  match e with
  | ECol c | EAgg _ c => [c]
  | _ => []
  end.

Definition cond_col (c : Cond) : string :=
  match c with CEq col _ | CNotNull col => col end.

(** First column of a list that the schema does not have. *)
Definition first_missing (cols : list string) (refs : list string) : option string :=
  head (filter (fun c => has_col cols c = false) refs).

(** The select item a name stands for, when it names one. *)
Definition find_alias (items : list Item) (name : string) : option Item :=
  head (filter (fun i => out_name i = name) items).

(** A column reference of a [WHERE] clause resolves against the source
    table; with [alias_in_where] (DuckDB's extension) a select alias is
    tried next. The result is the expression the reference denotes. *)
Definition resolve_where (alias_in_where : bool) (cols : list string)
    (items : list Item) (c : string) : option Expr :=
  if has_col cols c then Some (ECol c)
  else if alias_in_where then
    match find_alias items c with
    | Some i => if is_aggregate (i_expr i) then None else Some (i_expr i)
    | None => None
    end
  else None.

(** *** Evaluation *)

Definition num_of (v : Value) : option Z :=
  match v with VInt n => Some n | _ => None end.

(** The rational a numeric value denotes. *)
Definition rat_of (v : Value) : option Q :=
  match v with
  | VInt n => Some (inject_Z n)
  | VRat q => Some q
  | _ => None
  end.

(** [a] sorts no later than [b] in ascending order; nulls sort last in
    either direction (the engine's default null order). *)
Definition asc_before (a b : Value) : bool :=
  match a, b with
  | _, VNull => true
  | VNull, _ => false
  | VStr s, VStr t => String.leb s t
  | VStr _, _ => false
  | _, VStr _ => true
  | _, _ =>
      match rat_of a, rat_of b with
      | Some p, Some q => Qle_bool p q
      | _, _ => true
      end
  end.

(** [a] sorts no later than [b] in descending order, nulls last. *)
Definition desc_before (a b : Value) : bool :=
  match a, b with
  | _, VNull => true
  | VNull, _ => false
  | _, _ => asc_before b a
  end.

Definition before (d : Dir) : Value -> Value -> bool :=
  match d with ASC => asc_before | DESC => desc_before end.

(** The value of an aggregate-free expression on a row. *)
Definition scalar (cols : list string) (r : list Value) (e : Expr) : Value :=
  match e with
  | ECol c => cell cols r c
  | ELit v => v
  | _ => VNull
  end.

(** A condition on a row, its column reference bound to an expression.
    The literal of an equality is a string; a comparison with [NULL] is
    unknown, and the row is dropped. *)
Definition cond_holds (cols : list string) (r : list Value)
    (ce : Cond * Expr) : bool :=
  match ce.1 with
  | CEq _ lit => bool_decide (scalar cols r ce.2 = VStr lit)
  | CNotNull _ => negb (bool_decide (scalar cols r ce.2 = VNull))
  end.

Definition sumZ (l : list Z) : Z := foldr Z.add 0 l.

Definition minZ (x : Z) (l : list Z) : Z := foldr Z.min x l.
Definition maxZ (x : Z) (l : list Z) : Z := foldr Z.max x l.

(** The non-null numbers of a column over a group of rows. *)
Definition column_nums (cols : list string) (group : list (list Value))
    (c : string) : list Z :=
  omap (fun r => num_of (cell cols r c)) group.

(** An expression over a group of rows: [COUNT( * )] counts the rows;
    [SUM], [AVG], [MIN] and [MAX] range over the non-null numbers of
    their column and are [NULL] when there is none; a plain column is
    the one value the rows of the group share. *)
Definition aggregate (cols : list string) (group : list (list Value))
    (e : Expr) : Value :=
  match e with
  | ECountStar => VInt (Z.of_nat (length group))
  | EAgg f c =>
      match column_nums cols group c with
      | [] => VNull
      | x :: xs =>
          match f with
          | ASum => VInt (sumZ (x :: xs))
          | AAvg => VRat (sumZ (x :: xs) # Pos.of_nat (length (x :: xs)))
          | AMin => VInt (minZ x xs)
          | AMax => VInt (maxZ x xs)
          end
      end
  | ECol c =>
      match group with
      | r :: _ => cell cols r c
      | [] => VNull
      end
  | ELit v => v
  end.

(** Error-propagating sequencing, as [await] does with a rejection. *)
Definition bind {A B} (r : Res A) (k : A -> Res B) : Res B :=
  match r with
  | Ok a => k a
  | Err e => Err e
  end.

Notation "'do' x <- r ; k" := (bind r (fun x => k))
  (at level 10, x pattern, r at level 100, k at level 200).

(** How the engine is configured: whether a [WHERE] clause may use a
    select alias, and whether [toArray()] yields objects with named
    properties or positional arrays. The code is written for both. *)
Record Cfg := mkCfg { alias_in_where : bool; named_rows : bool }.

(** A reference to a column the table does not have is a binder error. *)
Definition check_columns (cols refs : list string) : Res unit :=
  match first_missing cols refs with
  | Some c => Err (BinderError c)
  | None => Ok tt
  end.

Fixpoint bind_conds (cfg : Cfg) (cols : list string) (items : list Item)
    (conds : list Cond) : Res (list (Cond * Expr)) :=
  match conds with
  | [] => Ok []
  | c :: rest =>
      match resolve_where (alias_in_where cfg) cols items (cond_col c) with
      | Some e => do bound <- bind_conds cfg cols items rest; Ok ((c, e) :: bound)
      | None => Err (BinderError (cond_col c))
      end
  end.

(** A negative [LIMIT] or [OFFSET] is rejected. *)
Definition check_range (what : string) (n : option Z) : Res unit :=
  match n with
  | Some z => if z <? 0 then Err (OutOfRange what) else Ok tt
  | None => Ok tt
  end.

(** [LIMIT]/[OFFSET] over the ordered rows. *)
Definition page {A} (limit offset : option Z) (l : list A) : list A :=
  let l' := match offset with
            | Some o => drop (Z.to_nat o) l
            | None => l
            end in
  match limit with
  | Some n => take (Z.to_nat n) l'
  | None => l'
  end.

(** An output row with the value it is ordered by. *)
Abbreviation Keyed := (Value * list Value)%type.

Definition key_before (d : Dir) (x y : Keyed) : Prop :=
  before d x.1 y.1 = true.

#[global] Instance key_before_dec d x y : Decision (key_before d x y).
Proof. unfold key_before. apply _. Defined.

Definition order_rows (d : Dir) (l : list Keyed) : list Keyed :=
  merge_sort (key_before d) l.

(** The groups of [GROUP BY 1]: one per distinct value of the first
    select expression, in order of first occurrence. *)
Definition group_keys (cols : list string) (e1 : Expr)
    (kept : list (list Value)) : list Value :=
  remove_dups (map (fun r => scalar cols r e1) kept).

Definition group_of (cols : list string) (e1 : Expr)
    (kept : list (list Value)) (k : Value) : list (list Value) :=
  filter (fun r => scalar cols r e1 = k) kept.

(** The output rows before ordering. *)
Definition output_rows (cols : list string) (q : Select)
    (kept : list (list Value)) : list (list Value) :=
  let exprs := map i_expr (s_items q) in
  if s_group_by_first q then
    match exprs with
    | e1 :: _ =>
        map (fun k => map (aggregate cols (group_of cols e1 kept k)) exprs)
            (group_keys cols e1 kept)
    | [] => []
    end
  else if existsb is_aggregate exprs then
    [map (aggregate cols kept) exprs]
  else
    map (fun r => map (scalar cols r) exprs) kept.

Record ResultSet := mkResult {
  rs_fields : list string;
  rs_rows : list (list Value)
}.

(** The rows an aggregate-free query keeps, paired with the values the
    query orders them by, before projection. *)
Definition plain_keyed (cols : list string) (q : Select) (ke : Expr)
    (kept : list (list Value)) : list Keyed :=
  map (fun r => (scalar cols r ke, map (scalar cols r) (map i_expr (s_items q)))) kept.

(** A [SELECT] over a table: bind the column references, keep the rows
    the conditions hold of, group and aggregate or project, order (by an
    output column first, by a column of the table otherwise), then
    apply [LIMIT] and [OFFSET]. *)
Definition eval_select (cfg : Cfg) (t : Table) (q : Select) : Res ResultSet :=
  let cols := t_cols t in
  let items := s_items q in
  let fields := map out_name items in
  let grouped := s_group_by_first q || existsb is_aggregate (map i_expr items) in
  do _ <- check_columns cols (flat_map (fun i => expr_cols (i_expr i)) items);
  do conds <- bind_conds cfg cols items (s_where q);
  do _ <- check_range "LIMIT" (s_limit q);
  do _ <- check_range "OFFSET" (s_offset q);
  let kept := filter (fun r => forallb (cond_holds cols r) conds = true) (t_rows t) in
  match s_order q with
  | None =>
      Ok (mkResult fields (page (s_limit q) (s_offset q) (output_rows cols q kept)))
  | Some (oc, d) =>
      match index_of oc fields with
      | Some i =>
          if grouped then
            let keyed := map (fun out => (default VNull (out !! i), out))
                             (output_rows cols q kept) in
            Ok (mkResult fields
                  (map snd (page (s_limit q) (s_offset q) (order_rows d keyed))))
          else
            let ke := default (ELit VNull) (map i_expr items !! i) in
            Ok (mkResult fields
                  (map snd (page (s_limit q) (s_offset q)
                                 (order_rows d (plain_keyed cols q ke kept)))))
      | None =>
          if grouped then Err (BinderError oc)
          else if has_col cols oc then
            Ok (mkResult fields
                  (map snd (page (s_limit q) (s_offset q)
                                 (order_rows d (plain_keyed cols q (ECol oc) kept)))))
          else Err (BinderError oc)
      end
  end.

(** [PRAGMA table_info]: one row per column, the name second. *)
Definition table_info (t : Table) : ResultSet :=
  mkResult ["cid"; "name"; "type"; "notnull"; "dflt_value"; "pk"]
    (imap (fun i c => [VInt (Z.of_nat i); VStr c; VNull; VInt 0; VNull; VInt 0])
          (t_cols t)).

(** *** Database state *)

(** The registered file buffers by logical name, and the views with the
    file each scans. *)
Record Db := mkDb {
  files : gmap string Table;
  views : gmap string string
}.

Definition empty_db : Db := mkDb ∅ ∅.

Definition registerFileBuffer (name : string) (t : Table) (db : Db) : Db :=
  mkDb (<[name := t]> (files db)) (views db).

Definition dropFile (name : string) (db : Db) : Db :=
  mkDb (delete name (files db)) (views db).

Inductive Statement :=
  | CreateView (view file : string)
  | TableInfo (view : string)
  | Sel (q : Select).

Definition view_table (db : Db) (view : string) : Res Table :=
  match views db !! view with
  | Some f =>
      match files db !! f with
      | Some t => Ok t
      | None => Err (CatalogError f)
      end
  | None => Err (CatalogError view)
  end.

Definition empty_result : ResultSet := mkResult [] [].

Definition exec (cfg : Cfg) (db : Db) (st : Statement) : Res (ResultSet * Db) :=
  match st with
  | CreateView v f =>
      match files db !! f with
      | Some _ => Ok (empty_result, mkDb (files db) (<[v := f]> (views db)))
      | None => Err (CatalogError f)
      end
  | TableInfo v =>
      do t <- view_table db v; Ok (table_info t, db)
  | Sel q =>
      do t <- view_table db (s_from q);
      do r <- eval_select cfg t q;
      Ok (r, db)
  end.

(** [conn.query(text)]: the statements of the text run in order and the
    result of the last one is returned. *)
Fixpoint query (cfg : Cfg) (db : Db) (last : ResultSet) (sts : list Statement)
    : Res (ResultSet * Db) :=
  match sts with
  | [] => Ok (last, db)
  | st :: rest =>
      do rd <- exec cfg db st;
      query cfg rd.2 rd.1 rest
  end.

(** A file registered and viewed: what the statements of a call see. *)
Definition viewing (db : Db) (view file : string) (t : Table) : Prop :=
  views db !! view = Some file /\ files db !! file = Some t.

(** *** What JavaScript sees *)

Inductive JsVal :=
  | JUndefined
  | JV (v : Value).

Inductive JsRow :=
  | RowObj (o : gmap string Value)
  | RowArr (a : list Value).

(** [res.schema.fields.map(f => f.name)] is [rs_fields]; [res.toArray()]: *)
Definition toArray (cfg : Cfg) (r : ResultSet) : list JsRow :=
  map (fun row =>
         if named_rows cfg
         then RowObj (list_to_map (zip (rs_fields r) row))
         else RowArr row)
      (rs_rows r).

Definition js_get (o : gmap string Value) (name : string) : JsVal :=
  match o !! name with
  | Some v => JV v
  | None => JUndefined
  end.

Definition js_nth (a : list Value) (idx : nat) : JsVal :=
  match a !! idx with
  | Some v => JV v
  | None => JUndefined
  end.

(** [String(x)] *)
Definition js_String (x : JsVal) : string :=
  match x with
  | JUndefined => "undefined"
  | JV VNull => "null"
  | JV (VInt n) => pretty n
  | JV (VRat q) => pretty (Qnum q) +:+ "/" +:+ pretty (Zpos (Qden q))
  | JV (VStr s) => s
  end.

(** [Number(x ?? 0)] for the integer a count query returns. *)
Definition js_count (x : JsVal) : Z :=
  match x with
  | JV (VInt n) => n
  | _ => 0
  end.

End Engine.

(** ** [src/poc/httpfs.ts]: the three query functions *)

Module Httpfs.
Import Engine.

(** What a call depends on besides its arguments: the files the server
    has ([None]: the response is not ok) and the engine's configuration. *)
Record World := mkWorld {
  fetch : string -> option Table;
  cfg : Cfg
}.

(** A normalised row: an object keyed by the result's field names. *)
Abbreviation Row := (gmap string JsVal).

(** The row normalisation shared by the three functions: a row with
    named properties is read by name, a positional one by index; either
    way every field name becomes a key of the object. *)
Definition normalize (fields : list string) (row : JsRow) : Row :=
  match row with
  | RowObj o =>
      foldl (fun obj name => <[name := js_get o name]> obj) ∅ fields
  | RowArr a =>
      foldl (fun obj ni => <[ni.2 := js_nth a ni.1]> obj) ∅
            (imap (fun idx name => (idx, name)) fields)
  end.

(** [totalCount] out of the count query's first row. *)
Definition totalCount_of (countArr : list JsRow) : Z :=
  match countArr with
  | [] => 0
  | RowObj o :: _ => js_count (js_get o "c")
  | RowArr a :: _ => js_count (js_nth a 0)
  end.

(** Fetch a file and register it under a logical name, dropping an
    earlier registration first where the source does. *)
Definition load_file (w : World) (logicalName url : string) (drop_first : bool)
    (db : Db) : Res Db :=
  let db1 := if drop_first then dropFile logicalName db else db in
  match fetch w url with
  | Some t => Ok (registerFileBuffer logicalName t db1)
  | None => Err (FetchFailure url)
  end.

(** *** [queryTopRelated] *)

(** The select list: the target column as [entity] and five aggregates. *)
Definition related_items (tgtCol : string) : list Item :=
  [ mkItem (ECol tgtCol) (Some "entity");
    mkItem ECountStar (Some "contract_count");
    mkItem (EAgg ASum "total_contract_amount") (Some "total_contract_value");
    mkItem (EAgg AAvg "total_contract_amount") (Some "average_contract_value");
    mkItem (EAgg AMin "award_date") (Some "first_contract_date");
    mkItem (EAgg AMax "award_date") (Some "last_contract_date") ].

(** The [SELECT] of [queryTopRelated] as the engine parses it. *)
Definition related_select (srcCol tgtCol sourceValue : string) (limit : Z) : Select :=
  mkSelect (related_items tgtCol) "f"
    [CEq srcCol sourceValue; CNotNull tgtCol]
    true (Some ("total_contract_value", DESC)) (Some limit) None.

(** A line break. *)
Definition nl : string := String "010"%char EmptyString.

(** The text handed to [conn.query], line by line as in the template. *)
Definition related_sql (srcCol tgtCol sourceValue : string) (limit : Z) : string :=
  Str.join nl
    [ EmptyString;
      "    CREATE OR REPLACE VIEW f AS SELECT * FROM parquet_scan('facts_related.parquet');";
      "    SELECT";
      "      " +:+ tgtCol +:+ " AS entity,";
      "      COUNT(" +:+ "*) AS contract_count,";
      "      SUM(total_contract_amount) AS total_contract_value,";
      "      AVG(total_contract_amount) AS average_contract_value,";
      "      MIN(award_date) AS first_contract_date,";
      "      MAX(award_date) AS last_contract_date";
      "    FROM f";
      "    WHERE " +:+ srcCol +:+ " = '" +:+ Str.esc sourceValue +:+ "'";
      "      AND " +:+ tgtCol +:+ " IS NOT NULL";
      "    GROUP BY 1";
      "    ORDER BY total_contract_value DESC";
      "    LIMIT " +:+ pretty limit;
      "  " ].

(** [queryTopRelated]: map the dimensions to columns, drop and register
    the facts file, send the view and the [SELECT] in one text,
    normalise the rows. *)
Definition queryTopRelated (w : World) (sourceDim : EntityType)
    (sourceValue : string) (targetDim : EntityType) (limit : Z)
    (factsParquetUrl : string) (db : Db) : Res (list Row * Db) :=
  let srcCol := Sql.dimToCol_related (dim_name sourceDim) in
  let tgtCol := Sql.dimToCol_related (dim_name targetDim) in
  let logicalName := "facts_related.parquet" in
  do db1 <- load_file w logicalName factsParquetUrl true db;
  do rd <- query (cfg w) db1 empty_result
             [ CreateView "f" logicalName;
               Sel (related_select srcCol tgtCol sourceValue limit) ];
  let fields := rs_fields rd.1 in
  let arr := toArray (cfg w) rd.1 in
  Ok (map (normalize fields) arr, rd.2).

(** The result the contract of the aggregation query describes, stated
    on the facts table directly. The facts of entity [e]: those whose
    source column is the given value and whose target column is [e]. *)
Definition facts_matching (t : Table) (srcCol sourceValue tgtCol : string)
    (e : Value) : list (list Value) :=
  filter (fun r => cell (t_cols t) r srcCol = VStr sourceValue
                   /\ cell (t_cols t) r tgtCol = e)
         (t_rows t).

(** The total contract value of entity [e]. *)
Definition total_of (t : Table) (srcCol sourceValue tgtCol : string)
    (e : Value) : Value :=
  aggregate (t_cols t) (facts_matching t srcCol sourceValue tgtCol e)
            (EAgg ASum "total_contract_amount").

(** The row of entity [e]: the entity, the number of its facts, the
    sum and the average of the amount, the first and the last date. *)
Definition summary (t : Table) (srcCol sourceValue tgtCol : string)
    (e : Value) : Row :=
  let g := facts_matching t srcCol sourceValue tgtCol e in
  <["last_contract_date" := JV (aggregate (t_cols t) g (EAgg AMax "award_date"))]>
  (<["first_contract_date" := JV (aggregate (t_cols t) g (EAgg AMin "award_date"))]>
  (<["average_contract_value" :=
       JV (aggregate (t_cols t) g (EAgg AAvg "total_contract_amount"))]>
  (<["total_contract_value" := JV (total_of t srcCol sourceValue tgtCol e)]>
  (<["contract_count" := JV (VInt (Z.of_nat (length g)))]>
  (<["entity" := JV e]> ∅))))).

(** The six values of the row of entity [e], in select-list order. *)
Definition summary_values (t : Table) (srcCol v tgtCol : string) (e : Value)
    : list Value :=
  let g := facts_matching t srcCol v tgtCol e in
  [ e;
    VInt (Z.of_nat (length g));
    total_of t srcCol v tgtCol e;
    aggregate (t_cols t) g (EAgg AAvg "total_contract_amount");
    aggregate (t_cols t) g (EAgg AMin "award_date");
    aggregate (t_cols t) g (EAgg AMax "award_date") ].

(** The columns of the facts file the aggregation query reads. *)
Definition facts_columns : list string :=
  [ "contractor_name"; "area_of_delivery"; "organization_name";
    "business_category"; "total_contract_amount"; "award_date" ].

(** *** [queryContractsByEntity] *)

(** The nine entries of the select list, each guarded by [has]. *)
Definition contracts_item_texts (has : string -> bool) : list string :=
  [ if has "award_date" then "award_date" else "NULL AS award_date";
    if has "contractor_name" then "contractor_name" else "'' AS contractor_name";
    if has "business_category" then "business_category" else "'' AS business_category";
    if has "organization_name" then "organization_name" else "'' AS organization_name";
    if has "area_of_delivery" then "area_of_delivery" else "'' AS area_of_delivery";
    if has "total_contract_amount" then "total_contract_amount AS contract_value"
    else "0 AS contract_value";
    if has "award_title" then "award_title" else "'' AS award_title";
    if has "notice_title" then "notice_title" else "'' AS notice_title";
    if has "contract_no" then "contract_no" else "'' AS contract_no" ].

(** A column under its own name, and a literal under an alias. *)
Definition col_item (c : string) : Item := mkItem (ECol c) None.
Definition lit_item (v : Value) (a : string) : Item := mkItem (ELit v) (Some a).

(** The same nine entries as the engine parses them. *)
Definition contracts_items (has : string -> bool) : list Item :=
  [ if has "award_date" then col_item "award_date" else lit_item VNull "award_date";
    if has "contractor_name" then col_item "contractor_name"
    else lit_item (VStr EmptyString) "contractor_name";
    if has "business_category" then col_item "business_category"
    else lit_item (VStr EmptyString) "business_category";
    if has "organization_name" then col_item "organization_name"
    else lit_item (VStr EmptyString) "organization_name";
    if has "area_of_delivery" then col_item "area_of_delivery"
    else lit_item (VStr EmptyString) "area_of_delivery";
    if has "total_contract_amount"
    then mkItem (ECol "total_contract_amount") (Some "contract_value")
    else lit_item (VInt 0) "contract_value";
    if has "award_title" then col_item "award_title"
    else lit_item (VStr EmptyString) "award_title";
    if has "notice_title" then col_item "notice_title"
    else lit_item (VStr EmptyString) "notice_title";
    if has "contract_no" then col_item "contract_no"
    else lit_item (VStr EmptyString) "contract_no" ].

(** The keys every row of the listing is expected to have. *)
Definition contract_keys : list string :=
  [ "award_date"; "contractor_name"; "business_category"; "organization_name";
    "area_of_delivery"; "contract_value"; "award_title"; "notice_title";
    "contract_no" ].

(** The condition a filter compiles to. *)
Definition filter_cond (f : Sql.Filter) : Cond :=
  CEq (Sql.dimToCol_contracts (Sql.dim f)) (Sql.value f).

(** [orderBy] as the callers build it: a column and a direction. *)
Definition OrderBy : Type := string * Dir.

(** ['ORDER BY award_date DESC'] *)
Definition default_order : OrderBy := ("award_date", DESC).

(** [selectSql] and [countSql] as the engine parses them. *)
Definition contracts_select (has : string -> bool) (filters : list Sql.Filter)
    (pageIndex pageSize : Z) (orderBy : option OrderBy) : Select :=
  mkSelect (contracts_items has) "facts_v" (map filter_cond filters) false
    (Some (default default_order orderBy))
    (Some pageSize) (Some (Sql.contracts_offset pageIndex)).

Definition contracts_count_select (filters : list Sql.Filter) : Select :=
  mkSelect [mkItem ECountStar (Some "c")] "facts_v" (map filter_cond filters)
    false None None None.

(** [selectSql], line by line as in the template. *)
Definition contracts_select_sql (has : string -> bool) (filters : list Sql.Filter)
    (pageIndex pageSize : Z) (orderBy : option OrderBy) : string :=
  Str.join nl
    [ EmptyString;
      "    SELECT ";
      "      " +:+ Str.join ("," +:+ nl +:+ "      ") (contracts_item_texts has);
      "    FROM facts_v";
      "    " +:+ Sql.whereCombined filters;
      "    " +:+ Sql.orderClause (show_order <$> orderBy);
      "    LIMIT " +:+ pretty pageSize +:+ " OFFSET "
        +:+ pretty (Sql.contracts_offset pageIndex);
      "  " ].

(** The name a [PRAGMA table_info] row carries:
    [Array.isArray(row) ? String(row[1]) : String(row.name)]. *)
Definition info_name (row : JsRow) : string :=
  match row with
  | RowArr a => js_String (js_nth a 1)
  | RowObj o => js_String (js_get o "name")
  end.

(** [{ rows, totalCount }] *)
Record Paged := mkPaged { rows : list Row; totalCount : Z }.

(** [queryContractsByEntity]: drop and register the facts file, create
    the view, probe its columns, send the listing and the count query,
    normalise the rows and read the count. *)
Definition queryContractsByEntity (w : World) (filters : list Sql.Filter)
    (pageIndex pageSize : Z) (orderBy : option OrderBy)
    (factsParquetUrl : string) (db : Db) : Res (Paged * Db) :=
  let logicalName := "facts_contracts.parquet" in
  do db1 <- load_file w logicalName factsParquetUrl true db;
  do v <- query (cfg w) db1 empty_result [CreateView "facts_v" logicalName];
  do info <- query (cfg w) v.2 empty_result [TableInfo "facts_v"];
  let infoArr := toArray (cfg w) info.1 in
  let availableCols : gset string := list_to_set (map info_name infoArr) in
  let has := fun c => bool_decide (c ∈ availableCols) in
  do res <- query (cfg w) info.2 empty_result
              [Sel (contracts_select has filters pageIndex pageSize orderBy)];
  do count <- query (cfg w) res.2 empty_result
                [Sel (contracts_count_select filters)];
  let fields := rs_fields res.1 in
  let arr := toArray (cfg w) res.1 in
  Ok (mkPaged (map (normalize fields) arr)
              (totalCount_of (toArray (cfg w) count.1)),
      count.2).

(** The value a call returns, when it returns. *)
Definition result_of {A} (r : Res (A * Db)) : option A :=
  match r with
  | Ok x => Some x.1
  | Err _ => None
  end.

(** The entity, count and total of a row of the aggregation query. *)
Definition brief (r : Row) : option JsVal * option JsVal * option JsVal :=
  (r !! "entity", r !! "contract_count", r !! "total_contract_value").




(** The facts a filter list selects: those that hold, in the column of
    every filter, the value of that filter. *)
Definition selected (t : Table) (filters : list Sql.Filter) : list (list Value) :=
  filter (fun r => Forall (fun f => cell (t_cols t) r
                                      (Sql.dimToCol_contracts (Sql.dim f))
                                    = VStr (Sql.value f)) filters)
         (t_rows t).

(** *** Sample files *)

Definition facts_url : string := "/parquet/facts_awards_all_time.parquet".

(** A facts file with the current layout: five awards, one of them to
    another contractor and one without an area. *)
Definition sample_facts : Table :=
  mkTable
    [ "contractor_name"; "area_of_delivery"; "organization_name";
      "business_category"; "total_contract_amount"; "award_date";
      "award_title"; "notice_title"; "contract_no" ]
    [ [VStr "ACME CORP"; VStr "Metro"; VStr "DPWH"; VStr "Roads"; VInt 100;
       VInt 19005; VStr "Road repair"; VStr "Repair"; VStr "C-1"];
      [VStr "ACME CORP"; VStr "Cebu"; VStr "DPWH"; VStr "Roads"; VInt 300;
       VInt 19007; VStr "Bridge"; VStr "Bridge works"; VStr "C-2"];
      [VStr "ACME CORP"; VStr "Metro"; VStr "DOH"; VStr "Supplies"; VInt 50;
       VInt 19002; VStr "Masks"; VStr "Medical supplies"; VStr "C-3"];
      [VStr "O'Neil Builders"; VStr "Metro"; VStr "DOH"; VStr "Roads"; VInt 70;
       VInt 19003; VStr "Ramp"; VStr "Access ramp"; VStr "C-4"];
      [VStr "ACME CORP"; VNull; VStr "DOH"; VStr "Supplies"; VInt 20;
       VInt 19004; VStr "Gloves"; VStr "Medical supplies"; VStr "C-5"] ].

(** A facts file with an older layout: no contractor name, no titles. *)
Definition drifted_facts : Table :=
  mkTable
    [ "area_of_delivery"; "organization_name"; "business_category";
      "total_contract_amount"; "award_date"; "contract_no" ]
    [ [VStr "Metro"; VStr "DPWH"; VStr "Roads"; VInt 100; VInt 19005; VStr "C-1"];
      [VStr "Cebu"; VStr "DPWH"; VStr "Roads"; VInt 300; VInt 19007; VStr "C-2"] ].

(** A server that has one facts file. *)
Definition serving (t : Table) (c : Cfg) : World :=
  mkWorld (fun url => if String.eqb url facts_url then Some t else None) c.

End Httpfs.

(** ** [src/components/DataExplorer.tsx]: drill navigation, tab loading,
       paging and debounce *)

Module Explorer.
Import Engine.

Abbreviation Row := (gmap string JsVal).

(** The state of a related-entities tab: [{ data, loading, error? }]. *)
Record TabState := mkTab {
  data : list Row;
  loading : bool;
  error : option string
}.

(** The state of the contracts tab: [{ data, loading, error?,
    totalCount, pageIndex }]; [pageIndex] holds an item offset. *)
Record ContractsTab := mkContracts {
  c_data : list Row;
  c_loading : bool;
  c_error : option string;
  totalCount : Z;
  pageIndex : Z
}.

(** The entity entries of a [tabs] object, in key order. *)
Abbreviation Tabs := (list (EntityType * TabState)).

(** [tabs[et]] *)
Fixpoint tab_get (et : EntityType) (tabs : Tabs) : option TabState :=
  match tabs with
  | [] => None
  | (k, v) :: rest => if decide (k = et) then Some v else tab_get et rest
  end.

(** [{ ...tabs, [et]: v }] and [tabs[et] = v]: an existing key keeps its
    place, a new key goes last. *)
Fixpoint tab_set (et : EntityType) (v : TabState) (tabs : Tabs) : Tabs :=
  match tabs with
  | [] => [(et, v)]
  | (k, w) :: rest =>
      if decide (k = et) then (k, v) :: rest else (k, w) :: tab_set et v rest
  end.

#[local] Set Warnings "-register-all".

(** [interface DrillModalData]; every modal the component builds has a
    [contracts] entry, which the source reads with [!]. *)
Inductive DrillModalData := mkModal {
  srcDim : EntityType;
  srcVal : string;
  tabs : Tabs;
  contracts : ContractsTab;
  parentModal : option DrillModalData
}.

(** Induction along the parent chain. *)
Fixpoint modal_chain_ind (P : DrillModalData -> Prop)
    (Hroot : forall d v t c, P (mkModal d v t c None))
    (Hnest : forall d v t c p, P p -> P (mkModal d v t c (Some p)))
    (m : DrillModalData) : P m :=
  match m with
  | mkModal d v t c None => Hroot d v t c
  | mkModal d v t c (Some p) =>
      Hnest d v t c p (modal_chain_ind P Hroot Hnest p)
  end.

Definition with_tabs (t : Tabs) (m : DrillModalData) : DrillModalData :=
  mkModal (srcDim m) (srcVal m) t (contracts m) (parentModal m).

Definition with_contracts (c : ContractsTab) (m : DrillModalData) : DrillModalData :=
  mkModal (srcDim m) (srcVal m) (tabs m) c (parentModal m).

(** The loop that builds [breadcrumbFilters]: walk the parent chain from
    the current modal, [unshift]ing each level in front. *)
Fixpoint breadcrumb_loop (cur : DrillModalData) (acc : list Sql.Filter)
    : list Sql.Filter :=
  let acc' := Sql.mkFilter (dim_name (srcDim cur)) (srcVal cur) :: acc in
  match parentModal cur with
  | Some p => breadcrumb_loop p acc'
  | None => acc'
  end.

Definition breadcrumbFilters (m : DrillModalData) : list Sql.Filter :=
  breadcrumb_loop m [].

(** The drill path from the current level up to the root. *)
Fixpoint chain (m : DrillModalData) : list DrillModalData :=
  m :: match parentModal m with
       | Some p => chain p
       | None => []
       end.

(** The equality predicate the data model prescribes for one level of
    the drill path: the level's column by the fixed table, and its value
    as a string literal with apostrophes doubled. *)
Definition spec_equality_predicate (ctx : DrillModalData) : string :=
  column_table (srcDim ctx) +:+ " = '" +:+ Str.esc (srcVal ctx) +:+ "'".

(** The depth shown as [Level n]. *)
Definition depth (m : DrillModalData) : nat := length (chain m).

Inductive Dataset := contractors | areas | organizations | categories.

Definition srcDimForDataset (ds : Dataset) : EntityType :=
  match ds with
  | contractors => contractor
  | areas => area
  | organizations => organization
  | categories => category
  end.

Inductive TimeRange := all_time | yearly | quarterly.

(** What the filter bar holds; no event of the model changes it. *)
Record Settings := mkSettings {
  dataset : Dataset;
  timeRange : TimeRange;
  selectedYear : Z;
  selectedQuarter : Z;
  mainOpts : Sql.PagedOpts
}.

Definition getParquetUrl (st : Settings) (entityType : string) : string :=
  match timeRange st with
  | all_time => "/parquet/agg_" +:+ entityType +:+ ".parquet"
  | yearly => "/parquet/yearly/year_" +:+ pretty (selectedYear st)
                +:+ "/agg_" +:+ entityType +:+ ".parquet"
  | quarterly => "/parquet/quarterly/year_" +:+ pretty (selectedYear st)
                   +:+ "_q" +:+ pretty (selectedQuarter st)
                   +:+ "/agg_" +:+ entityType +:+ ".parquet"
  end.

Definition getFactsUrl (st : Settings) : string :=
  match timeRange st with
  | all_time => "/parquet/facts_awards_all_time.parquet"
  | yearly => "/parquet/yearly/facts_awards_year_" +:+ pretty (selectedYear st)
                +:+ ".parquet"
  | quarterly => "/parquet/quarterly/facts_awards_year_" +:+ pretty (selectedYear st)
                   +:+ "_q" +:+ pretty (selectedQuarter st) +:+ ".parquet"
  end.

Definition parquetUrl (st : Settings) : string :=
  getParquetUrl st
    match dataset st with
    | contractors => "contractor"
    | areas => "area"
    | organizations => "organization"
    | categories => "business_category"
    end.

(** [const pageSize = 10] *)
Definition pageSize : Z := 10.

(** [Math.floor(pageIndex / pageSize) + 1]. Call sites write
    [pageIndex || 0], which changes nothing for a number that is an
    integer. *)
Definition getCurrentPage (pageIndex : Z) : Z := pageIndex / pageSize + 1.

(** [Math.ceil(totalCount / pageSize)] *)
Definition getTotalPages (totalCount : Z) : Z := - ((- totalCount) / pageSize).

(** [Math.floor(pageIndex / 20) + 1] *)
Definition getModalCurrentPage (pageIndex : Z) : Z := pageIndex / 20 + 1.

(** [Math.ceil(totalCount / 20)] *)
Definition getModalTotalPages (totalCount : Z) : Z := - ((- totalCount) / 20).

(** *** Engine calls in flight *)

(** A call of one of the three functions of [httpfs.ts]. *)
Inductive Request :=
  | TopRelated (sourceDim : EntityType) (sourceValue : string)
      (targetDim : EntityType) (limit : Z) (url : string)
  | ContractsByEntity (filters : list Sql.Filter) (pageIndex pageSize : Z)
      (orderBy : Httpfs.OrderBy) (url : string)
  | ParquetPaged (url : string) (pageIndex pageSize : Z) (opts : Sql.PagedOpts).

(** The code that runs when a call settles. *)
Inductive Handler :=
  | HEntityTab (et : EntityType)
  | HContractsDrill
  | HContractsDebounced (offset : Z)
  | HMain.

(** How a call settles: with rows (and a count), or with an error. *)
Inductive Outcome :=
  | Resolved (rows : list Row) (count : Z)
  | Rejected (message : string).

(** The tab a handler writes. *)
Inductive TabKey :=
  | TabEntity (et : EntityType)
  | TabContracts.

#[global] Instance TabKey_eq_dec : EqDecision TabKey.
Proof. solve_decision. Defined.


(** *** Timers *)

Inductive Callback :=
  | CbLoad (pi : Z)
  | CbModal (breadcrumbFilters : list Sql.Filter) (offset : Z)
      (orderBy : Httpfs.OrderBy).

Record Timer := mkTimer {
  tm_id : positive;
  tm_due : nat;
  tm_cb : Callback
}.

(** The browser and the engine as the component sees them: the clock
    (in milliseconds), the armed timers, every call made so far and the
    calls that have not settled yet (by index into the log). *)
Record Env := mkEnv {
  now : nat;
  timers : list Timer;
  next_timer : positive;
  log : list Request;
  pending : list (nat * Handler)
}.

(** [setTimeout(cb, delay)]: a fresh, truthy handle. *)
Definition setTimeout (cb : Callback) (delay : nat) (e : Env) : positive * Env :=
  (next_timer e,
   mkEnv (now e) (timers e ++ [mkTimer (next_timer e) (now e + delay) cb])
         (Pos.succ (next_timer e)) (log e) (pending e)).

(** [clearTimeout(id)]: nothing happens when the timer has fired. *)
Definition clearTimeout (id : positive) (e : Env) : Env :=
  mkEnv (now e) (filter (fun t => tm_id t ≠ id) (timers e))
        (next_timer e) (log e) (pending e).

(** Calling an [async] query function: the call is logged and stays
    pending until the environment settles it. *)
Definition dispatch (r : Request) (h : Handler) (e : Env) : Env :=
  mkEnv (now e) (timers e) (next_timer e) (log e ++ [r])
        (pending e ++ [(length (log e), h)]).

(** *** Component state *)

Record MainTable := mkMain {
  rows : list Row;
  total : Z;
  main_error : option string;
  main_pageIndex : Z;
  main_loading : bool;
  debouncing : bool
}.

Record State := mkState {
  settings : Settings;
  main : MainTable;
  modalData : option DrillModalData;
  activeTab : option TabKey;
  contractsSortBy : string;
  contractsSortDir : Dir;
  debounceTimeoutRef : option positive;
  modalDebounceTimeoutRef : option positive;
  env : Env
}.

Definition set_main (m : MainTable) (s : State) : State :=
  mkState (settings s) m (modalData s) (activeTab s) (contractsSortBy s)
    (contractsSortDir s) (debounceTimeoutRef s) (modalDebounceTimeoutRef s) (env s).

Definition setModalData (m : option DrillModalData) (s : State) : State :=
  mkState (settings s) (main s) m (activeTab s) (contractsSortBy s)
    (contractsSortDir s) (debounceTimeoutRef s) (modalDebounceTimeoutRef s) (env s).

Definition setActiveTab (t : option TabKey) (s : State) : State :=
  mkState (settings s) (main s) (modalData s) t (contractsSortBy s)
    (contractsSortDir s) (debounceTimeoutRef s) (modalDebounceTimeoutRef s) (env s).

Definition setContractsSort (by_ : string) (d : Dir) (s : State) : State :=
  mkState (settings s) (main s) (modalData s) (activeTab s) by_ d
    (debounceTimeoutRef s) (modalDebounceTimeoutRef s) (env s).

Definition set_debounceTimeoutRef (r : option positive) (s : State) : State :=
  mkState (settings s) (main s) (modalData s) (activeTab s) (contractsSortBy s)
    (contractsSortDir s) r (modalDebounceTimeoutRef s) (env s).

Definition set_modalDebounceTimeoutRef (r : option positive) (s : State) : State :=
  mkState (settings s) (main s) (modalData s) (activeTab s) (contractsSortBy s)
    (contractsSortDir s) (debounceTimeoutRef s) r (env s).

Definition set_env (e : Env) (s : State) : State :=
  mkState (settings s) (main s) (modalData s) (activeTab s) (contractsSortBy s)
    (contractsSortDir s) (debounceTimeoutRef s) (modalDebounceTimeoutRef s) e.

(** *** Response handlers

    Each handler is the functional update the source passes to
    [setModalData]: it is applied to the modal that is current when the
    call settles, and leaves a closed modal ([null]) closed. *)

(** [{ ...prev, tabs: { ...prev.tabs, [entityType]: { data, loading:
    false } } }] *)
Definition entity_resolved (et : EntityType) (d : list Row)
    (prev : option DrillModalData) : option DrillModalData :=
  match prev with
  | Some p => Some (with_tabs (tab_set et (mkTab d false None) (tabs p)) p)
  | None => None
  end.

(** [[entityType]: { data: [], loading: false, error: String(e?.message
    || e) }] *)
Definition entity_rejected (et : EntityType) (msg : string)
    (prev : option DrillModalData) : option DrillModalData :=
  match prev with
  | Some p => Some (with_tabs (tab_set et (mkTab [] false (Some msg)) (tabs p)) p)
  | None => None
  end.

(** [contracts: { data: contractsRes.rows, loading: false, totalCount:
    contractsRes.totalCount, pageIndex: 0 }] *)
Definition contracts_resolved (d : list Row) (count : Z)
    (prev : option DrillModalData) : option DrillModalData :=
  match prev with
  | Some p => Some (with_contracts (mkContracts d false None count 0) p)
  | None => None
  end.

(** [contracts: { data: [], loading: false, error: ..., totalCount: 0,
    pageIndex: 0 }] *)
Definition contracts_rejected (msg : string)
    (prev : option DrillModalData) : option DrillModalData :=
  match prev with
  | Some p => Some (with_contracts (mkContracts [] false (Some msg) 0 0) p)
  | None => None
  end.

(** The debounced load, when its timer fires:
    [contracts: { ...prev.tabs.contracts!, loading: true }] *)
Definition debounced_started (prev : option DrillModalData) : option DrillModalData :=
  match prev with
  | Some p =>
      let c := contracts p in
      Some (with_contracts
              (mkContracts (c_data c) true (c_error c) (totalCount c) (pageIndex c)) p)
  | None => None
  end.

(** [contracts: { data: res.rows, loading: false, totalCount:
    res.totalCount, pageIndex: offset }] *)
Definition debounced_resolved (offset : Z) (d : list Row) (count : Z)
    (prev : option DrillModalData) : option DrillModalData :=
  match prev with
  | Some p => Some (with_contracts (mkContracts d false None count offset) p)
  | None => None
  end.

(** [contracts: { ...prev.tabs.contracts!, loading: false, error:
    String(e) }] *)
Definition debounced_rejected (msg : string)
    (prev : option DrillModalData) : option DrillModalData :=
  match prev with
  | Some p =>
      let c := contracts p in
      Some (with_contracts
              (mkContracts (c_data c) false (Some msg) (totalCount c) (pageIndex c)) p)
  | None => None
  end.

(** What the settling of a call does to the modal. *)
Definition handle_modal (h : Handler) (o : Outcome)
    (prev : option DrillModalData) : option DrillModalData :=
  match h, o with
  | HEntityTab et, Resolved d _ => entity_resolved et d prev
  | HEntityTab et, Rejected msg => entity_rejected et msg prev
  | HContractsDrill, Resolved d n => contracts_resolved d n prev
  | HContractsDrill, Rejected msg => contracts_rejected msg prev
  | HContractsDebounced off, Resolved d n => debounced_resolved off d n prev
  | HContractsDebounced off, Rejected msg => debounced_rejected msg prev
  | HMain, _ => prev
  end.

(** The end of [load]: [setRows]/[setTotal] or [setError], then
    [setLoading(false)]. *)
Definition handle_main (h : Handler) (o : Outcome) (m : MainTable) : MainTable :=
  match h, o with
  | HMain, Resolved d n =>
      mkMain d n (main_error m) (main_pageIndex m) false (debouncing m)
  | HMain, Rejected msg =>
      mkMain (rows m) (total m) (Some msg) (main_pageIndex m) false (debouncing m)
  | _, _ => m
  end.

(** *** The tab load orchestrator *)

(** [allEntityTypes.filter(t => t !== srcDim)] *)
Definition otherEntityTypes (srcDim : EntityType) : list EntityType :=
  filter (fun t => t ≠ srcDim) allEntityTypes.

(** The modal a drill opens: the contracts tab and every other entity
    type's tab, all loading. *)
Definition loading_modal (srcDim : EntityType) (srcVal : string)
    (parent : option DrillModalData) : DrillModalData :=
  mkModal srcDim srcVal
    (foldl (fun t et => tab_set et (mkTab [] true None) t) []
           (otherEntityTypes srcDim))
    (mkContracts [] true None 0 0)
    parent.

(** The calls a drill launches, in launch order, each with its handler:
    one aggregation per other entity type, then the listing. *)
Definition tab_loads (srcDim : EntityType) (srcVal : string)
    (filters : list Sql.Filter) (url : string) : list (Request * Handler) :=
  map (fun et => (TopRelated srcDim srcVal et 10 url, HEntityTab et))
      (otherEntityTypes srcDim)
  ++ [(ContractsByEntity filters 0 20 ("award_date", DESC) url, HContractsDrill)].

Definition launch (calls : list (Request * Handler)) (e : Env) : Env :=
  foldl (fun e' rh => dispatch rh.1 rh.2 e') e calls.

(** [onDrill(entityVal, fromModal = false, parentModal?)] *)
Definition onDrill (entityVal : string) (fromModal : bool)
    (parent : option DrillModalData) (s : State) : State :=
  let srcDim :=
    if fromModal then
      match parent with
      | Some p => Explorer.srcDim p
      | None => contractor
      end
    else srcDimForDataset (dataset (settings s)) in
  let initialModalData := loading_modal srcDim entityVal parent in
  let s1 := setActiveTab (Some TabContracts) (setModalData (Some initialModalData) s) in
  set_env (launch (tab_loads srcDim entityVal
                     [Sql.mkFilter (dim_name srcDim) entityVal]
                     (getFactsUrl (settings s)))
                  (env s1)) s1.

(** [onModalDrill(entityVal, entityType)] *)
Definition onModalDrill (entityVal : string) (entityType : EntityType)
    (s : State) : State :=
  match modalData s with
  | Some m =>
      let newModalData := loading_modal entityType entityVal (Some m) in
      let s1 := setActiveTab (Some TabContracts) (setModalData (Some newModalData) s) in
      set_env (launch (tab_loads entityType entityVal
                         (breadcrumbFilters newModalData)
                         (getFactsUrl (settings s)))
                      (env s1)) s1
  | None => s
  end.

(** [Object.keys(tabs).find(key => key !== 'contracts')] *)
Definition firstTab (m : DrillModalData) : option TabKey :=
  match tabs m with
  | (et, _) :: _ => Some (TabEntity et)
  | [] => None
  end.

(** [goBack] *)
Definition goBack (s : State) : State :=
  match modalData s with
  | Some m =>
      match parentModal m with
      | Some p =>
          setActiveTab (Some (default TabContracts (firstTab p)))
                       (setModalData (Some p) s)
      | None => setActiveTab None (setModalData None s)
      end
  | None => setActiveTab None (setModalData None s)
  end.

(** The close button: [setModalData(null); setActiveTab(null)]. *)
Definition close (s : State) : State :=
  setActiveTab None (setModalData None s).

(** *** Debounce *)

Definition setDebouncing (b : bool) (s : State) : State :=
  let m := main s in
  set_main (mkMain (rows m) (total m) (main_error m) (main_pageIndex m)
                   (main_loading m) b) s.

Definition setPageIndex (pi : Z) (s : State) : State :=
  let m := main s in
  set_main (mkMain (rows m) (total m) (main_error m) pi
                   (main_loading m) (debouncing m)) s.

(** [if (ref.current) clearTimeout(ref.current)] *)
Definition clear_ref (r : option positive) (e : Env) : Env :=
  match r with
  | Some id => clearTimeout id e
  | None => e
  end.

(** [debouncedLoad(pi)]: cancel the armed timer, show the indicator,
    arm a new timer for one second. *)
Definition debouncedLoad (pi : Z) (s : State) : State :=
  let e1 := clear_ref (debounceTimeoutRef s) (env s) in
  let s1 := setDebouncing true s in
  let (id, e2) := setTimeout (CbLoad pi) 1000 e1 in
  set_debounceTimeoutRef (Some id) (set_env e2 s1).

(** [debouncedModalContractsLoad(breadcrumbFilters, offset, orderBy)] *)
Definition debouncedModalContractsLoad (filters : list Sql.Filter) (offset : Z)
    (orderBy : Httpfs.OrderBy) (s : State) : State :=
  let e1 := clear_ref (modalDebounceTimeoutRef s) (env s) in
  let (id, e2) := setTimeout (CbModal filters offset orderBy) 1000 e1 in
  set_modalDebounceTimeoutRef (Some id) (set_env e2 s).

(** [load(pi)] up to its [await]: [setLoading(true)], [setError(null)],
    then the call of [queryParquetPaged(parquetUrl, pi, pageSize, ...)]. *)
Definition load (pi : Z) (s : State) : State :=
  let m := main s in
  let s1 := set_main (mkMain (rows m) (total m) None (main_pageIndex m) true
                             (debouncing m)) s in
  set_env (dispatch (ParquetPaged (parquetUrl (settings s)) pi pageSize
                                  (mainOpts (settings s)))
                    HMain (env s1)) s1.

(** What a timer runs when it fires. *)
Definition run_callback (cb : Callback) (s : State) : State :=
  match cb with
  | CbLoad pi => load pi (setDebouncing false s)
  | CbModal filters offset orderBy =>
      let s1 := setModalData (debounced_started (modalData s)) s in
      set_env (dispatch (ContractsByEntity filters offset 20 orderBy
                                           (getFactsUrl (settings s)))
                        (HContractsDebounced offset) (env s1)) s1
  end.

(** The cleanup of the unmount effect: both timers are cleared. *)
Definition cleanup (s : State) : State :=
  set_env (clear_ref (modalDebounceTimeoutRef s)
             (clear_ref (debounceTimeoutRef s) (env s))) s.

(** *** The passage of time *)

Definition set_now (t : nat) (e : Env) : Env :=
  mkEnv t (timers e) (next_timer e) (log e) (pending e).

(** A timer fires at its due time and is gone afterwards. *)
Definition fire (s : State) (t : Timer) : State :=
  let e := env s in
  run_callback (tm_cb t)
    (set_env (mkEnv (Nat.max (now e) (tm_due t))
                    (filter (fun t' => tm_id t' ≠ tm_id t) (timers e))
                    (next_timer e) (log e) (pending e)) s).

(** Timers fire in order of their due time, earlier handles first. *)
Definition fires_before (a b : Timer) : Prop :=
  (tm_due a < tm_due b)%nat \/ (tm_due a = tm_due b /\ (tm_id a <= tm_id b)%positive).

#[global] Instance fires_before_dec a b : Decision (fires_before a b).
Proof. unfold fires_before. apply _. Defined.

Definition due_timers (deadline : nat) (e : Env) : list Timer :=
  merge_sort fires_before (filter (fun t => (tm_due t <= deadline)%nat) (timers e)).

(** [ms] milliseconds pass: every timer due by then fires. No callback
    of the component arms a timer, so the due timers are known at the
    start. *)
Definition elapse (ms : nat) (s : State) : State :=
  let deadline := (now (env s) + ms)%nat in
  let s' := foldl fire s (due_timers deadline (env s)) in
  set_env (set_now deadline (env s')) s'.

(** *** The paging and sorting controls *)

(** The order the contracts tab is reloaded with:
    [contractsSortBy ? `${contractsSortBy} ${contractsSortDir}` :
    'award_date DESC']. *)
Definition contracts_order (s : State) : Httpfs.OrderBy :=
  if String.eqb (contractsSortBy s) EmptyString then ("award_date", DESC)
  else (contractsSortBy s, contractsSortDir s).

(** The [disabled] attribute of the contracts tab's Previous button. *)
Definition prev_disabled (m : DrillModalData) : bool :=
  getModalCurrentPage (pageIndex (contracts m)) =? 0.

(** The [disabled] attribute of the contracts tab's Next button. *)
Definition next_disabled (m : DrillModalData) : bool :=
  getModalTotalPages (totalCount (contracts m)) - 1
    <=? getModalCurrentPage (pageIndex (contracts m)).

(** The contracts tab shows its table and paging controls when it is
    the active tab, is not loading and has no error. *)
Definition contracts_shown (s : State) : bool :=
  match modalData s with
  | Some m =>
      bool_decide (activeTab s = Some TabContracts)
      && negb (c_loading (contracts m))
      && match c_error (contracts m) with
         | Some msg => String.eqb msg EmptyString
         | None => true
         end
  | None => false
  end.

(** The click handler of the contracts tab's Previous button. *)
Definition onPrevContracts (s : State) : State :=
  match modalData s with
  | Some m =>
      let currentPage := getCurrentPage (pageIndex (contracts m)) in
      if 0 <? currentPage then
        let newOffset := pageIndex (contracts m) - 20 in
        debouncedModalContractsLoad (breadcrumbFilters m) newOffset
          (contracts_order s) s
      else s
  | None => s
  end.

(** The click handler of the contracts tab's Next button. *)
Definition onNextContracts (s : State) : State :=
  match modalData s with
  | Some m =>
      let currentPage := getCurrentPage (pageIndex (contracts m)) in
      let totalPages := getTotalPages (totalCount (contracts m)) in
      if currentPage <? totalPages - 1 then
        let newOffset := pageIndex (contracts m) + 20 in
        debouncedModalContractsLoad (breadcrumbFilters m) newOffset
          (contracts_order s) s
      else s
  | None => s
  end.

(** The click handler of a column header of the contracts tab. *)
Definition onSortContracts (key : string) (s : State) : State :=
  let newDir :=
    if String.eqb (contractsSortBy s) key
       && bool_decide (contractsSortDir s = DESC)
    then ASC else DESC in
  let s1 := setContractsSort key newDir s in
  match modalData s with
  | Some m => debouncedModalContractsLoad (breadcrumbFilters m) 0 (key, newDir) s1
  | None => debouncedModalContractsLoad [] 0 (key, newDir) s1
  end.

(** The main table's Previous button:
    [disabled={pageIndex === 0 || loading || debouncing}]. *)
Definition main_prev_disabled (s : State) : bool :=
  (main_pageIndex (main s) =? 0) || main_loading (main s) || debouncing (main s).

Definition onPrevMain (s : State) : State :=
  let newPageIndex := Z.max 0 (main_pageIndex (main s) - pageSize) in
  debouncedLoad newPageIndex (setPageIndex newPageIndex s).

(** The main table's Next button:
    [disabled={pageIndex + pageSize >= total || loading || debouncing}]. *)
Definition main_next_disabled (s : State) : bool :=
  (total (main s) <=? main_pageIndex (main s) + pageSize)
  || main_loading (main s) || debouncing (main s).

Definition onNextMain (s : State) : State :=
  let newPageIndex := main_pageIndex (main s) + pageSize in
  debouncedLoad newPageIndex (setPageIndex newPageIndex s).

(** *** Events *)

Inductive Event :=
  | Init
  | Drill (entityVal : string)
  | ModalDrill (entityVal : string) (entityType : EntityType)
  | GoBack
  | Close
  | SortContracts (key : string)
  | PrevContracts
  | NextContracts
  | PrevMain
  | NextMain
  | DebouncedLoad (pi : Z)
  | Elapse (ms : nat)
  | Settle (id : nat) (o : Outcome)
  | Unmount.

(** A call settles: its handler runs once, on the state of that moment. *)
Definition settle (id : nat) (o : Outcome) (s : State) : State :=
  match list_find (fun ph => ph.1 = id) (pending (env s)) with
  | Some (_, (_, h)) =>
      let e := env s in
      let e' := mkEnv (now e) (timers e) (next_timer e) (log e)
                      (filter (fun ph => ph.1 ≠ id) (pending e)) in
      set_env e' (set_main (handle_main h o (main s))
                    (setModalData (handle_modal h o (modalData s)) s))
  | None => s
  end.

(** One event. [Init] is the mount effect once the engine is ready:
    [await load(pageIndex)]. A click on a control that is not shown or is
    disabled does not reach its handler. *)
Definition step (s : State) (ev : Event) : State :=
  match ev with
  | Init => load (main_pageIndex (main s)) s
  | Drill v => onDrill v false None s
  | ModalDrill v et => onModalDrill v et s
  | GoBack => goBack s
  | Close => close s
  | SortContracts key => if contracts_shown s then onSortContracts key s else s
  | PrevContracts =>
      match modalData s with
      | Some m => if contracts_shown s && negb (prev_disabled m)
                  then onPrevContracts s else s
      | None => s
      end
  | NextContracts =>
      match modalData s with
      | Some m => if contracts_shown s && negb (next_disabled m)
                  then onNextContracts s else s
      | None => s
      end
  | PrevMain => if main_prev_disabled s then s else onPrevMain s
  | NextMain => if main_next_disabled s then s else onNextMain s
  | DebouncedLoad pi => debouncedLoad pi s
  | Elapse ms => elapse ms s
  | Settle id o => settle id o s
  | Unmount => cleanup s
  end.

Definition run (s : State) (evs : list Event) : State := foldl step s evs.

(** *** Notions the properties are stated with *)


(** Every tab of a context is loading, with no rows and no error: the
    contracts tab and the tab of each dimension other than the source. *)
Definition all_tabs_loading (m : DrillModalData) : Prop :=
  contracts m = mkContracts [] true None 0 0
  /\ forall et, et <> srcDim m -> tab_get et (tabs m) = Some (mkTab [] true None).

(** The calls the tab load orchestrator makes for a context. *)
Definition orchestrator_calls (st : Settings) (m : DrillModalData)
    : list (Request * Handler) :=
  tab_loads (srcDim m) (srcVal m) (breadcrumbFilters m) (getFactsUrl st).

(** The pending entries a list of calls gets when launched after [n]
    earlier calls. *)
Definition numbered (n : nat) (calls : list (Request * Handler))
    : list (nat * Handler) :=
  imap (fun i rh => ((n + i)%nat, rh.2)) calls.

(** State [s'] has entered [Open m] from [s] the way the navigation
    stack prescribes: all tabs loading, the orchestrator launched. *)
Definition entered_open (s s' : State) (m : DrillModalData) : Prop :=
  modalData s' = Some m
  /\ all_tabs_loading m
  /\ log (env s') = log (env s) ++ map fst (orchestrator_calls (settings s) m)
  /\ pending (env s')
     = pending (env s)
       ++ numbered (length (log (env s))) (orchestrator_calls (settings s) m).

(** The tab a call loads. *)
Definition request_tab (r : Request) : option TabKey :=
  match r with
  | TopRelated _ _ tgt _ _ => Some (TabEntity tgt)
  | ContractsByEntity _ _ _ _ _ => Some TabContracts
  | ParquetPaged _ _ _ _ => None
  end.

(** Call [id] of the log has been superseded: a call made later loads
    the same tab. *)
Definition superseded (s : State) (id : nat) : Prop :=
  exists r id' r',
    log (env s) !! id = Some r /\ log (env s) !! id' = Some r'
    /\ (id < id')%nat /\ is_Some (request_tab r) /\ request_tab r' = request_tab r.

(** The handler call [id] settles with, while it is in flight. *)
Definition in_flight (s : State) (id : nat) : option Handler :=
  (fun x => x.2.2) <$> list_find (fun ph => ph.1 = id) (pending (env s)).

(** The events that move the navigation stack. *)
Definition is_navigation (ev : Event) : bool :=
  match ev with
  | Drill _ | ModalDrill _ _ | GoBack | Close => true
  | _ => false
  end.

Definition initial_env : Env := mkEnv 0 [] 1%positive [] [].

(** The component after mounting, before any data has arrived. *)
Definition initial (st : Settings) : State :=
  mkState st (mkMain [] 0 None 0 false false) None None
    "award_date" DESC None None initial_env.

(** The page a timer of the main table's debounce will load. *)
Definition load_pi (t : Timer) : option Z :=
  match tm_cb t with
  | CbLoad pi => Some pi
  | CbModal _ _ _ => None
  end.

(** The calls of [queryParquetPaged] among the calls made. *)
Definition paged_calls (l : list Request) : list Request :=
  filter (fun r => request_tab r = None) l.

(** The call [load(pi)] makes. *)
Definition load_call (st : Settings) (pi : Z) : Request :=
  ParquetPaged (parquetUrl st) pi pageSize (mainOpts st).

(** What holds of the timers in every state the component reaches:
    handles are distinct and older than the next handle, and an armed
    timer is the one its debounce ref holds. *)
Definition timers_wf (s : State) : Prop :=
  NoDup (map tm_id (timers (env s)))
  /\ (forall t, t ∈ timers (env s) -> (tm_id t < next_timer (env s))%positive)
  /\ (forall t, t ∈ timers (env s) ->
        match tm_cb t with
        | CbLoad _ => debounceTimeoutRef s = Some (tm_id t)
        | CbModal _ _ _ => modalDebounceTimeoutRef s = Some (tm_id t)
        end).

(** The main table's debounce is armed: its one timer will load [pi] at
    time [due]. *)
Definition armed (s : State) (pi : Z) (due : nat) : Prop :=
  timers_wf s
  /\ exists id, filter (fun t => is_Some (load_pi t)) (timers (env s))
                = [mkTimer id due (CbLoad pi)].

(** A burst of further triggers: each comes [gap] milliseconds after
    the one before. *)
Fixpoint burst (more : list (nat * Z)) : list Event :=
  match more with
  | [] => []
  | (gap, pi) :: rest => Elapse gap :: DebouncedLoad pi :: burst rest
  end.

(** The parameter of the last trigger of a burst. *)
Definition last_pi (pi0 : Z) (more : list (nat * Z)) : Z :=
  default pi0 (last (map snd more)).

(** The offset of the contracts tab is a whole number of pages of 20,
    at every level of the drill path. *)
Fixpoint offsets_aligned (m : DrillModalData) : Prop :=
  pageIndex (contracts m) mod 20 = 0
  /\ match parentModal m with
     | Some p => offsets_aligned p
     | None => True
     end.

Definition timer_aligned (t : Timer) : Prop :=
  match tm_cb t with
  | CbModal _ off _ => off mod 20 = 0
  | CbLoad _ => True
  end.

Definition handler_aligned (ph : nat * Handler) : Prop :=
  match ph.2 with
  | HContractsDebounced off => off mod 20 = 0
  | _ => True
  end.

(** Offsets are aligned wherever the component keeps one: in the open
    contexts, in the armed timers and in the calls in flight. *)
Definition aligned (s : State) : Prop :=
  match modalData s with
  | Some m => offsets_aligned m
  | None => True
  end
  /\ Forall timer_aligned (timers (env s))
  /\ Forall handler_aligned (pending (env s)).

(** The values the filter bar starts with: contractors, all time, 2021,
    fourth quarter, sorted by total value descending, and the [where]
    that [load] builds for an empty name filter. *)
Definition mounted_settings : Settings :=
  mkSettings contractors all_time 2021 4
    (Sql.mkOpts (Some "contract_count > 0") (Some "total_contract_value DESC") None).

(** The navigation rule as the specification words it: whatever
    navigation event leads into [Open m], the tabs of [m] are all
    loading and the orchestrator has been launched for [m]. *)
Definition reinitialised_on_every_entry : Prop :=
  forall s ev m,
    is_navigation ev = true ->
    modalData (step s ev) = Some m ->
    entered_open s (step s ev) m.

(** The generation-token rule as the specification words it: the
    response of a superseded call leaves the modal as it is. *)
Definition stale_responses_discarded : Prop :=
  forall s id h o,
    in_flight s id = Some h ->
    superseded s id ->
    modalData (settle id o s) = modalData s.


End Explorer.

(** ** [src/poc/httpfs.ts]: the engine singleton *)

Module Singleton.

(** The operations [getDb] awaits, in the order it awaits them:
    [db.instantiate], [db.connect], [testConn.query('SELECT 1')],
    [testConn.close]. *)
Inductive Stage := Instantiate | Connect | Probe | CloseConn.

(** An [AsyncDuckDB] object: whether [instantiate] has resolved on it,
    and how many connections are open on it. *)
Record AsyncDuckDB := mkAsync {
  instantiated : bool;
  connections : nat
}.

(** Where a call of [getDb] stands: suspended at an [await], returned
    (with the reference it returned), or rejected. *)
Inductive Call :=
  | Awaiting (st : Stage)
  | Returned (ref : nat)
  | Thrown.

(** The page: the module variable [db] (a reference or [null]), the
    [AsyncDuckDB] objects constructed so far (a reference is an index),
    and the calls of [getDb] made so far. *)
Record Page := mkPage {
  db : option nat;
  heap : list AsyncDuckDB;
  calls : list Call
}.

Definition initial : Page := mkPage None [] [].

(** A call of [getDb] up to its first [await]. With [db] set it
    returns [db] at once. Otherwise it constructs the worker (which may
    throw, leaving [db] as it is), assigns a new [AsyncDuckDB] to [db]
    and suspends on [db.instantiate]. *)
Definition getDb (worker_throws : bool) (p : Page) : Page :=
  match db p with
  | Some ref => mkPage (db p) (heap p) (calls p ++ [Returned ref])
  | None =>
      if worker_throws then mkPage (db p) (heap p) (calls p ++ [Thrown])
      else mkPage (Some (length (heap p)))
                  (heap p ++ [mkAsync false 0])
                  (calls p ++ [Awaiting Instantiate])
  end.

(** What an awaited operation does to the object [db] refers to when
    it resolves. *)
Definition resolved (st : Stage) (o : AsyncDuckDB) : AsyncDuckDB :=
  match st with
  | Instantiate => mkAsync true (connections o)
  | Connect => mkAsync (instantiated o) (S (connections o))
  | Probe => o
  | CloseConn => mkAsync (instantiated o) (Nat.pred (connections o))
  end.

(** Where the call goes on after the operation has resolved; after the
    last one it returns [db]. *)
Definition continue (st : Stage) (ref : nat) : Call :=
  match st with
  | Instantiate => Awaiting Connect
  | Connect => Awaiting Probe
  | Probe => Awaiting CloseConn
  | CloseConn => Returned ref
  end.

(** The operation call [i] is suspended on settles. A rejection lands
    in the [catch], which rethrows; [db] keeps its value. *)
Definition resume (i : nat) (ok : bool) (p : Page) : Page :=
  match calls p !! i, db p with
  | Some (Awaiting st), Some ref =>
      if ok then
        mkPage (db p) (alter (resolved st) ref (heap p))
               (<[i := continue st ref]> (calls p))
      else mkPage (db p) (heap p) (<[i := Thrown]> (calls p))
  | _, _ => p
  end.

Inductive Event :=
  | GetDb (worker_throws : bool)
  | Settle (i : nat) (ok : bool).

Definition step (p : Page) (ev : Event) : Page :=
  match ev with
  | GetDb w => getDb w p
  | Settle i ok => resume i ok p
  end.

Definition run (p : Page) (evs : list Event) : Page := foldl step p evs.

(** A call is still initialising the engine. *)
Definition awaiting (c : Call) : Prop :=
  match c with
  | Awaiting _ => True
  | _ => False
  end.

#[global] Instance awaiting_dec c : Decision (awaiting c).
Proof. destruct c; simpl; apply _. Defined.

(** The object a call that has returned holds. *)
Definition held (p : Page) (c : Call) : option AsyncDuckDB :=
  match c with
  | Returned ref => heap p !! ref
  | _ => None
  end.

(** What holds of the page in every state: [db] refers to the one
    object there is, if any; a call is suspended only while there is
    one; no two calls are suspended. *)
Definition page_wf (p : Page) : Prop :=
  match db p with
  | None => heap p = [] /\ Forall (fun c => c = Thrown) (calls p)
  | Some ref =>
      ref = 0%nat /\ length (heap p) = 1%nat
      /\ (length (filter awaiting (calls p)) <= 1)%nat
      /\ Forall (fun c => forall r, c = Returned r -> r = 0%nat) (calls p)
  end.

(** The engine object as the call suspended at a stage finds it. *)
Definition state_at (st : Stage) : AsyncDuckDB :=
  match st with
  | Instantiate => mkAsync false 0
  | Connect => mkAsync true 0
  | Probe | CloseConn => mkAsync true 1
  end.

(** While a call is suspended, the engine is in the state of the
    call's stage. *)
Definition stage_wf (p : Page) : Prop :=
  forall i st, calls p !! i = Some (Awaiting st) -> heap p = [state_at st].

End Singleton.

(** ** [src/components/DataExplorer.tsx]: the drill path shown *)

Module Trail.
Import Explorer.

(** [getEntityTypeLabel] *)
Definition getEntityTypeLabel (entityType : EntityType) : string :=
  match entityType with
  | contractor => "Contractors"
  | area => "Areas"
  | organization => "Organizations"
  | category => "Business Categories"
  end.

(** The loop of [renderBreadcrumb]: walk the parent chain from the
    current modal, [unshift]ing each level in front. *)
Fixpoint crumbs_loop (current : DrillModalData) (acc : list (EntityType * string))
    : list (EntityType * string) :=
  let acc' := (srcDim current, srcVal current) :: acc in
  match parentModal current with
  | Some p => crumbs_loop p acc'
  | None => acc'
  end.

(** One entry of the drill path as it is rendered: its text, whether
    it is styled as the current level, whether an arrow follows it. *)
Record Crumb := mkCrumb {
  crumb_text : string;
  crumb_current : bool;
  crumb_arrow : bool
}.

(** [renderBreadcrumb]: nothing without a modal; otherwise one entry
    per level, [idx === breadcrumbs.length - 1] styled as current and
    [idx < breadcrumbs.length - 1] followed by an arrow. *)
Definition renderBreadcrumb (modalData : option DrillModalData)
    : option (list Crumb) :=
  match modalData with
  | None => None
  | Some m =>
      let breadcrumbs := crumbs_loop m [] in
      Some (imap (fun idx crumb =>
                    mkCrumb (getEntityTypeLabel crumb.1 +:+ ": " +:+ crumb.2)
                            (bool_decide (idx = (length breadcrumbs - 1)%nat))
                            (bool_decide (idx < length breadcrumbs - 1)%nat))
                 breadcrumbs)
  end.

End Trail.

(** ** [src/components/DataExplorer.tsx]: offsets of the main table *)

Module MainOffsets.
Import Explorer.

(** An item offset of the main table: not negative, a whole number of
    pages of [pageSize]. *)
Definition offset_ok (pi : Z) : Prop := 0 <= pi /\ pi mod pageSize = 0.

Definition timer_ok (t : Timer) : Prop :=
  match tm_cb t with
  | CbLoad pi => offset_ok pi
  | CbModal _ _ _ => True
  end.

Definition request_ok (r : Request) : Prop :=
  match r with
  | ParquetPaged _ pi size _ => offset_ok pi /\ size = pageSize
  | _ => True
  end.

(** The offsets of the main table are in order wherever the component
    keeps one: in [pageIndex], in the armed timers, in the calls made. *)
Definition offsets_ok (s : State) : Prop :=
  offset_ok (main_pageIndex (main s))
  /\ Forall timer_ok (timers (env s))
  /\ Forall request_ok (log (env s)).

(** The handlers outside the paging controls call [debouncedLoad] with
    [0] or with [pageIndex]; an event stands for such a call when its
    parameter is an item offset. *)
Definition trigger_ok (ev : Event) : Prop :=
  match ev with
  | DebouncedLoad pi => offset_ok pi
  | _ => True
  end.

End MainOffsets.

(** ** [src/components/DataExplorer.tsx]: what [load] asks for *)

Module MainQuery.

Section Builtins.

(** [String.prototype.trim] and [String.prototype.toLowerCase]. *)
Variables trim toLowerCase : string -> string.

(** [whereParts]: the name filter, when it is not blank, then the
    constant condition. *)
Definition whereParts (nameFilter : string) : list string :=
  (if String.eqb (trim nameFilter) EmptyString then []
   else [ "lower(entity) LIKE '%"
            +:+ Str.esc (toLowerCase (trim nameFilter)) +:+ "%'" ])
  ++ [ "contract_count > 0" ].

(** [whereParts.join(' AND ')] *)
Definition where_ (nameFilter : string) : string :=
  Str.join " AND " (whereParts nameFilter).

(** The options [load] passes to [queryParquetPaged]:
    [{ orderBy: `${sortBy} ${sortDir}`, where }]. *)
Definition load_opts (nameFilter sortBy : string) (sortDir : Engine.Dir)
    : Sql.PagedOpts :=
  Sql.mkOpts (Some (where_ nameFilter))
             (Some (sortBy +:+ " " +:+ Engine.show_dir sortDir))
             None.

End Builtins.

End MainQuery.

(** ** [src/poc/DuckDBDemo.tsx]: the pagers of the earlier component *)

Module Demo.

(** [const pageSize = 10] *)
Definition pageSize : Z := 10.

(** [Math.floor(pageIndex / 20)]: a page number counted from 0. *)
Definition getCurrentPage (pageIndex : Z) : Z := pageIndex / 20.

(** [Math.ceil(totalCount / 20)] *)
Definition getTotalPages (totalCount : Z) : Z := - ((- totalCount) / 20).

Inductive Button := Prev | Next.

(** The [disabled] attributes of the contracts tab's buttons. *)
Definition contracts_disabled (b : Button) (pageIndex totalCount : Z) : bool :=
  match b with
  | Prev => getCurrentPage pageIndex =? 0
  | Next => getTotalPages totalCount - 1 <=? getCurrentPage pageIndex
  end.

(** The click handlers of the contracts tab: the offset the handler
    passes to [queryContractsByEntity], when its own test lets it. *)
Definition contracts_click (b : Button) (pageIndex totalCount : Z) : option Z :=
  match b with
  | Prev =>
      let currentPage := getCurrentPage pageIndex in
      if 0 <? currentPage then Some (pageIndex - 20) else None
  | Next =>
      let currentPage := getCurrentPage pageIndex in
      let totalPages := getTotalPages totalCount in
      if currentPage <? totalPages - 1 then Some (pageIndex + 20) else None
  end.

(** The offset of the contracts tab after a click, once the call has
    resolved with the same count: [pageIndex: newOffset]. A disabled
    button does not reach its handler. *)
Definition contracts_page (totalCount pageIndex : Z) (b : Button) : Z :=
  if contracts_disabled b pageIndex totalCount then pageIndex
  else default pageIndex (contracts_click b pageIndex totalCount).

(** The main table's buttons: [disabled={pageIndex===0}] with
    [setPageIndex(p => Math.max(0, p-1))], and
    [disabled={(pageIndex+1)*pageSize>=total}] with
    [setPageIndex(p => p+1)]. *)
Definition main_disabled (b : Button) (pageIndex total : Z) : bool :=
  match b with
  | Prev => pageIndex =? 0
  | Next => total <=? (pageIndex + 1) * pageSize
  end.

Definition main_click (b : Button) (p : Z) : Z :=
  match b with
  | Prev => Z.max 0 (p - 1)
  | Next => p + 1
  end.

Definition main_page (total pageIndex : Z) (b : Button) : Z :=
  if main_disabled b pageIndex total then pageIndex else main_click b pageIndex.

(** The effect on [pageIndex] calls [load(pageIndex)], which calls
    [queryParquetPaged(parquetUrl, pageIndex, pageSize, ...)]: the
    row offset of the query it sends. *)
Definition load_offset (pageIndex : Z) : Z := Sql.paged_offset pageIndex pageSize.

(** Where the contracts tab can stand with a count of [t]: on an
    offset that is a non-negative whole number of pages and, past the
    first page, has rows. *)
Definition contracts_ok (t p : Z) : Prop :=
  0 <= p /\ p mod 20 = 0 /\ (p = 0 \/ p < t).

End Demo.

(** ** [src/components/DataExplorer.tsx]: the filter bar and the main table

    The values the component keeps with [useState] are the state. A
    function of the component body reads the values of the render it
    was created in: a setter changes the state of the next render, not
    what the functions of the current one read. [load] is created on
    every render; [debouncedLoad] is memoised by [useCallback] on the
    seven values of the filter bar, so it calls the [load] of the last
    render on which one of them changed. After a render the effects
    whose dependencies have changed run, in the order of the source. *)

Module Bar.

#[global] Instance Dataset_eq_dec : EqDecision Explorer.Dataset.
Proof. solve_decision. Defined.

#[global] Instance TimeRange_eq_dec : EqDecision Explorer.TimeRange.
Proof. solve_decision. Defined.

(** The seven values of the filter bar: the dependencies of
    [debouncedLoad], and all that [load] reads besides [dbInitializing]. *)
Record View := mkView {
  dataset : Explorer.Dataset;
  nameFilter : string;
  timeRange : Explorer.TimeRange;
  selectedYear : Z;
  selectedQuarter : Z;
  sortBy : string;
  sortDir : Engine.Dir
}.

#[global] Instance View_eq_dec : EqDecision View.
Proof. solve_decision. Defined.

(** The initial values of the [useState] calls. *)
Definition initial_view : View :=
  mkView Explorer.contractors EmptyString Explorer.all_time 2021 4
         "total_contract_value" Engine.DESC.

(** The main table and its flags. *)
Record Table := mkTable {
  rows : list Explorer.Row;
  total : Z;
  error : option string;
  pageIndex : Z;
  loading : bool;
  dbInitializing : bool;
  debouncing : bool
}.

(** What a [load] function closes over: the filter bar and
    [dbInitializing] of the render that created it. *)
Record Closure := mkClosure {
  c_view : View;
  c_dbInitializing : bool
}.

(** An armed timer of [debouncedLoad]: its callback calls the [load]
    it closes over with the page it was given. *)
Record Timer := mkTimer {
  tm_id : positive;
  tm_due : nat;
  tm_pi : Z;
  tm_load : Closure
}.

(** The browser and the engine as the component sees them; a pending
    call keeps the [load] that is waiting for it. *)
Record Env := mkEnv {
  now : nat;
  timers : list Timer;
  next_timer : positive;
  log : list Explorer.Request;
  pending : list (nat * Closure)
}.

(** The component: its state, what the last render left behind (the
    [load] of the memoised [debouncedLoad], and the values the effects
    compare their dependencies with), the debounce ref, the
    environment. *)
Record State := mkState {
  view : View;
  table : Table;
  memo : Closure;
  seen : View * bool;
  debounceTimeoutRef : option positive;
  env : Env
}.

Definition set_view (v : View) (s : State) : State :=
  mkState v (table s) (memo s) (seen s) (debounceTimeoutRef s) (env s).

Definition set_table (t : Table) (s : State) : State :=
  mkState (view s) t (memo s) (seen s) (debounceTimeoutRef s) (env s).

Definition set_env (e : Env) (s : State) : State :=
  mkState (view s) (table s) (memo s) (seen s) (debounceTimeoutRef s) e.

Definition setPageIndex (pi : Z) (s : State) : State :=
  let t := table s in
  set_table (mkTable (rows t) (total t) (error t) pi (loading t)
                     (dbInitializing t) (debouncing t)) s.

Definition setDebouncing (b : bool) (s : State) : State :=
  let t := table s in
  set_table (mkTable (rows t) (total t) (error t) (pageIndex t) (loading t)
                     (dbInitializing t) b) s.

Definition setDataset (d : Explorer.Dataset) (s : State) : State :=
  let v := view s in
  set_view (mkView d (nameFilter v) (timeRange v) (selectedYear v)
                   (selectedQuarter v) (sortBy v) (sortDir v)) s.

Definition setNameFilter (text : string) (s : State) : State :=
  let v := view s in
  set_view (mkView (dataset v) text (timeRange v) (selectedYear v)
                   (selectedQuarter v) (sortBy v) (sortDir v)) s.

Definition setTimeRange (tr : Explorer.TimeRange) (s : State) : State :=
  let v := view s in
  set_view (mkView (dataset v) (nameFilter v) tr (selectedYear v)
                   (selectedQuarter v) (sortBy v) (sortDir v)) s.

Definition setSelectedYear (y : Z) (s : State) : State :=
  let v := view s in
  set_view (mkView (dataset v) (nameFilter v) (timeRange v) y
                   (selectedQuarter v) (sortBy v) (sortDir v)) s.

Definition setSelectedQuarter (q : Z) (s : State) : State :=
  let v := view s in
  set_view (mkView (dataset v) (nameFilter v) (timeRange v) (selectedYear v)
                   q (sortBy v) (sortDir v)) s.

Definition setSort (key : string) (d : Engine.Dir) (s : State) : State :=
  let v := view s in
  set_view (mkView (dataset v) (nameFilter v) (timeRange v) (selectedYear v)
                   (selectedQuarter v) key d) s.

Section Builtins.

(** [String.prototype.trim] and [String.prototype.toLowerCase]. *)
Variables trim toLowerCase : string -> string.

(** The filter bar as the URL builders and [load] read it. *)
Definition settings_of (v : View) : Explorer.Settings :=
  Explorer.mkSettings (dataset v) (timeRange v) (selectedYear v)
    (selectedQuarter v)
    (MainQuery.load_opts trim toLowerCase (nameFilter v) (sortBy v) (sortDir v)).

(** The call [load(pi)] makes when [load] closes over [v]:
    [queryParquetPaged(parquetUrl, pi, pageSize, { orderBy, where })]. *)
Definition load_request (v : View) (pi : Z) : Explorer.Request :=
  Explorer.load_call (settings_of v) pi.

(** [load(pi)] up to its [await]: [setLoading(true)], [setError(null)],
    then the call. *)
Definition load (c : Closure) (pi : Z) (s : State) : State :=
  let t := table s in
  let e := env s in
  set_env (mkEnv (now e) (timers e) (next_timer e)
                 (log e ++ [load_request (c_view c) pi])
                 (pending e ++ [(length (log e), c)]))
    (set_table (mkTable (rows t) (total t) None (pageIndex t) true
                        (dbInitializing t) (debouncing t)) s).

(** The rest of [load], when the call settles: [setRows] and
    [setTotal], or [setError]; [setDbInitializing(false)] when the
    [load] was created while the engine was initialising; then
    [setLoading(false)]. *)
Definition settled (c : Closure) (o : Explorer.Outcome) (t : Table) : Table :=
  let db := if c_dbInitializing c then false else dbInitializing t in
  match o with
  | Explorer.Resolved d n =>
      mkTable d n (error t) (pageIndex t) false db (debouncing t)
  | Explorer.Rejected msg =>
      mkTable (rows t) (total t) (Some msg) (pageIndex t) false db (debouncing t)
  end.

(** [debouncedLoad(pi)]: cancel the armed timer, show the indicator,
    arm a timer of one second that will call the memoised [load]. *)
Definition debouncedLoad (pi : Z) (s : State) : State :=
  let e := env s in
  let kept := match debounceTimeoutRef s with
              | Some id => filter (fun t => tm_id t ≠ id) (timers e)
              | None => timers e
              end in
  let s1 := setDebouncing true s in
  mkState (view s1) (table s1) (memo s1) (seen s1) (Some (next_timer e))
    (mkEnv (now e)
           (kept ++ [mkTimer (next_timer e) (now e + 1000) pi (memo s)])
           (Pos.succ (next_timer e)) (log e) (pending e)).

(** A render and the effects after it. [useCallback] keeps the
    memoised [debouncedLoad] unless the filter bar has changed. The
    effect on [timeRange, selectedYear, selectedQuarter,
    dbInitializing] and the effect on [dataset, dbInitializing] each
    call [debouncedLoad(pageIndex)] when one of their dependencies has
    changed and the engine is not initialising. *)
Definition render (s : State) : State :=
  let v := view s in
  let db := dbInitializing (table s) in
  let memo' := if decide (c_view (memo s) = v) then memo s else mkClosure v db in
  let changed_range :=
    negb (bool_decide ((timeRange (seen s).1, selectedYear (seen s).1,
                        selectedQuarter (seen s).1, (seen s).2)
                       = (timeRange v, selectedYear v, selectedQuarter v, db))) in
  let changed_dataset :=
    negb (bool_decide ((dataset (seen s).1, (seen s).2) = (dataset v, db))) in
  let s0 := mkState v (table s) memo' (v, db) (debounceTimeoutRef s) (env s) in
  let effect (changed : bool) (s' : State) : State :=
    if changed && negb db then debouncedLoad (pageIndex (table s')) s' else s' in
  effect changed_dataset (effect changed_range s0).

(** The component after the first render: the effects have run and
    found the engine initialising. *)
Definition initial : State :=
  mkState initial_view (mkTable [] 0 None 0 false true false)
    (mkClosure initial_view true) (initial_view, true) None
    (mkEnv 0 [] 1%positive [] []).

(** A timer fires: it is gone, and its callback runs
    [setDebouncing(false)] and [load(pi)]. *)
Definition fire (s : State) (t : Timer) : State :=
  let e := env s in
  let s1 := set_env (mkEnv (Nat.max (now e) (tm_due t))
                           (filter (fun t' => tm_id t' ≠ tm_id t) (timers e))
                           (next_timer e) (log e) (pending e)) s in
  render (load (tm_load t) (tm_pi t) (setDebouncing false s1)).

Definition fires_before (a b : Timer) : Prop :=
  (tm_due a < tm_due b)%nat \/ (tm_due a = tm_due b /\ (tm_id a <= tm_id b)%positive).

#[global] Instance fires_before_dec a b : Decision (fires_before a b).
Proof. unfold fires_before. apply _. Defined.

(** [ms] milliseconds pass: every timer due by then fires. *)
Definition elapse (ms : nat) (s : State) : State :=
  let deadline := (now (env s) + ms)%nat in
  let due := merge_sort fires_before
               (filter (fun t => (tm_due t <= deadline)%nat) (timers (env s))) in
  let s' := foldl fire s due in
  let e := env s' in
  set_env (mkEnv deadline (timers e) (next_timer e) (log e) (pending e)) s'.

(** A call settles: the [load] that made it goes on. *)
Definition settle (id : nat) (o : Explorer.Outcome) (s : State) : State :=
  match list_find (fun ph => ph.1 = id) (pending (env s)) with
  | Some (_, (_, c)) =>
      let e := env s in
      set_env (mkEnv (now e) (timers e) (next_timer e) (log e)
                     (filter (fun ph => ph.1 ≠ id) (pending e)))
        (set_table (settled c o (table s)) s)
  | None => s
  end.

(** What happens to the component. [Init] is the mount effect once
    the engine is ready, [InitFailed] its [catch]; the others are the
    controls of the filter bar and of the table, the column headers of
    a related tab of the drill modal (they set [sortBy] and [sortDir]
    of the main table), the passage of time and the settling of a
    call. *)
Inductive Event :=
  | Init
  | InitFailed (message : string)
  | SelectDataset (d : Explorer.Dataset)
  | SelectTimeRange (tr : Explorer.TimeRange)
  | SelectYear (y : Z)
  | SelectQuarter (q : Z)
  | QuickFilter (tr : Explorer.TimeRange) (year quarter : Z)
  | TypeName (text : string)
  | PressEnter
  | ClickSearch
  | ClearName
  | ClearNoResults
  | ClickHeader (key : string)
  | SortRelated (key : string)
  | ClickPrev
  | ClickNext
  | Elapse (ms : nat)
  | Settle (id : nat) (o : Explorer.Outcome).

(** [loading || debouncing], the [disabled] of the selects, of the
    search button and of the quick filters. *)
Definition busy (s : State) : bool :=
  loading (table s) || debouncing (table s).

(** The control of an event is rendered and enabled. While the engine
    is initialising the component renders nothing but a notice. *)
Definition enabled (ev : Event) (s : State) : bool :=
  match ev with
  | Init | InitFailed _ | Elapse _ | Settle _ _ => true
  | _ =>
      negb (dbInitializing (table s))
      && match ev with
         | SelectDataset _ | SelectTimeRange _ | ClickSearch | QuickFilter _ _ _ =>
             negb (busy s)
         | SelectYear _ =>
             negb (busy s)
             && negb (bool_decide (timeRange (view s) = Explorer.all_time))
         | SelectQuarter _ =>
             negb (busy s)
             && bool_decide (timeRange (view s) = Explorer.quarterly)
         | ClearName => negb (String.eqb (nameFilter (view s)) EmptyString)
         | ClearNoResults =>
             bool_decide (rows (table s) = []) && negb (loading (table s))
             && negb (String.eqb (trim (nameFilter (view s))) EmptyString)
         | ClickPrev => negb ((pageIndex (table s) =? 0) || busy s)
         | ClickNext =>
             negb ((total (table s) <=? pageIndex (table s) + Explorer.pageSize)
                   || busy s)
         | _ => true
         end
  end.

(** The handlers, as they run in the render the state [s] shows. *)
Definition handle (ev : Event) (s : State) : State :=
  match ev with
  | Init => load (mkClosure initial_view true) 0 s
  | InitFailed msg =>
      let t := table s in
      set_table (mkTable (rows t) (total t) (Some msg) (pageIndex t) (loading t)
                         false (debouncing t)) s
  | SelectDataset d => setDataset d (setPageIndex 0 s)
  | SelectTimeRange tr => setTimeRange tr (setPageIndex 0 s)
  | SelectYear y => setSelectedYear y (setPageIndex 0 s)
  | SelectQuarter q => setSelectedQuarter q (setPageIndex 0 s)
  | QuickFilter tr y q =>
      setPageIndex 0 (setSelectedQuarter q (setSelectedYear y (setTimeRange tr s)))
  | TypeName text => setNameFilter text s
  | PressEnter | ClickSearch => debouncedLoad 0 (setPageIndex 0 s)
  | ClearName => debouncedLoad 0 (setPageIndex 0 (setNameFilter EmptyString s))
  | ClearNoResults =>
      load (mkClosure (view s) (dbInitializing (table s))) 0
           (setPageIndex 0 (setNameFilter EmptyString s))
  | ClickHeader key =>
      let newDir :=
        if String.eqb (sortBy (view s)) key
           && bool_decide (sortDir (view s) = Engine.DESC)
        then Engine.ASC else Engine.DESC in
      debouncedLoad 0 (setPageIndex 0 (setSort key newDir s))
  | SortRelated key =>
      let newDir :=
        if String.eqb (sortBy (view s)) key
           && bool_decide (sortDir (view s) = Engine.DESC)
        then Engine.ASC else Engine.DESC in
      setSort key newDir s
  | ClickPrev =>
      let newPageIndex := Z.max 0 (pageIndex (table s) - Explorer.pageSize) in
      debouncedLoad newPageIndex (setPageIndex newPageIndex s)
  | ClickNext =>
      let newPageIndex := pageIndex (table s) + Explorer.pageSize in
      debouncedLoad newPageIndex (setPageIndex newPageIndex s)
  | Elapse ms => elapse ms s
  | Settle id o => settle id o s
  end.

(** One event: its handler, then the render the handler's updates
    cause. A timer's callback is followed by its own render. *)
Definition step (s : State) (ev : Event) : State :=
  if enabled ev s then
    match ev with
    | Elapse _ => handle ev s
    | _ => render (handle ev s)
    end
  else s.

Definition run (s : State) (evs : list Event) : State := foldl step s evs.

End Builtins.

(** *** Notions the properties are stated with *)

(** The state is as a render leaves it: the memoised [debouncedLoad]
    calls a [load] of the current filter bar, and the effects have
    seen the current values of their dependencies. *)
Definition rendered (s : State) : Prop :=
  c_view (memo s) = view s /\ seen s = (view s, dbInitializing (table s)).

(** Every armed timer is the one the debounce ref holds, and handles
    are distinct: at most one timer is armed. *)
Definition timers_wf (s : State) : Prop :=
  NoDup (map tm_id (timers (env s)))
  /\ forall t, t ∈ timers (env s) -> debounceTimeoutRef s = Some (tm_id t).

(** The selects and the quick filters. *)
Definition is_selection (ev : Event) : bool :=
  match ev with
  | SelectDataset _ | SelectTimeRange _ | SelectYear _ | SelectQuarter _
  | QuickFilter _ _ _ => true
  | _ => false
  end.

(** The options of a call of [queryParquetPaged]. *)
Definition request_opts (r : Explorer.Request) : option Sql.PagedOpts :=
  match r with
  | Explorer.ParquetPaged _ _ _ opts => Some opts
  | _ => None
  end.

(** The component while the notice of the initialising engine is
    shown: the filter bar has its initial values, nothing is armed,
    and the only call made is the first load. *)
Definition starting (trim toLowerCase : string -> string) (s : State) : Prop :=
  view s = initial_view
  /\ memo s = mkClosure initial_view true
  /\ timers (env s) = []
  /\ pageIndex (table s) = 0
  /\ Forall (fun r => r = load_request trim toLowerCase initial_view 0)
            (log (env s)).

End Bar.

(** ** [src/components/DataExplorer.tsx]: calls in flight *)

Module Calls.

(** A pending call is identified by its index in the log of calls
    made: every pending call is a call of the log. *)
Definition pending_logged (s : Explorer.State) : Prop :=
  Forall (fun ph => (ph.1 < length (Explorer.log (Explorer.env s)))%nat)
         (Explorer.pending (Explorer.env s)).

End Calls.

(** ** [src/components/DataExplorer.tsx]: the drill modal under a
       changing filter bar

    [onDrill], [onModalDrill] and the handlers of the contracts tab
    are created on every render: they read the filter bar as it is.
    [debouncedModalContractsLoad] is memoised by [useCallback] on no
    value at all, so the function its timer runs is the one of the
    first render, and the [getFactsUrl] it calls reads the filter bar
    the component was mounted with. The main table is left out: no
    timer of its debounce is armed here. *)

Module Period.
Import Explorer.

Definition with_settings (st : Settings) (s : State) : State :=
  mkState st (main s) (modalData s) (activeTab s) (contractsSortBy s)
    (contractsSortDir s) (debounceTimeoutRef s) (modalDebounceTimeoutRef s) (env s).

(** The events of the drill modal. *)
Definition modal_event (ev : Explorer.Event) : bool :=
  match ev with
  | Drill _ | ModalDrill _ _ | GoBack | Close | SortContracts _
  | PrevContracts | NextContracts | Settle _ _ => true
  | _ => false
  end.

(** The filter bar changes, an event of the drill modal happens, or
    time passes. *)
Inductive Event :=
  | Select (st : Settings)
  | Modal (ev : Explorer.Event)
  | Elapse (ms : nat).

(** A timer that fires runs with the filter bar of the first render. *)
Definition step (s : State) (ev : Event) : State :=
  match ev with
  | Select st => with_settings st s
  | Modal e => if modal_event e then Explorer.step s e else s
  | Elapse ms =>
      with_settings (settings s)
        (Explorer.elapse ms (with_settings mounted_settings s))
  end.

Definition run (evs : list Event) : State :=
  foldl step (initial mounted_settings) evs.


End Period.

(** * Properties *)

(** ** The dimension-to-column mapping *)

(** C10. The mapping of the aggregation query and the mapping of the
    listing query agree on the four dimensions, and both realise the
    fixed table contractor -> contractor_name, area -> area_of_delivery,
    organization -> organization_name, category -> business_category. *)
Theorem dimToCol_agree_on_dimensions :
  forall d : EntityType,
    Sql.dimToCol_related (dim_name d) = column_table d
    /\ Sql.dimToCol_contracts (dim_name d) = column_table d
    /\ Sql.dimToCol_related (dim_name d) = Sql.dimToCol_contracts (dim_name d).
Proof. intros []; repeat split; reflexivity. Qed.

(** Outside the four dimensions the two mappings differ: one falls back
    to the contractor column, the other passes its argument through. *)
Lemma dimToCol_differ_elsewhere :
  Sql.dimToCol_related "award_date" = "contractor_name"
  /\ Sql.dimToCol_contracts "award_date" = "award_date".
Proof. split; reflexivity. Qed.

(** ** The WHERE clause of the listing query *)

Section WhereClause.
Import Str Sql Explorer.

Lemma esc_length (v : string) :
  String.length (esc v) = (String.length v + quotes v)%nat.
Proof.
  induction v as [|c v IH]; simpl; [done|].
  destruct (Ascii.eqb c quote); simpl; lia.
Qed.

(** The engine reads an escaped value back unchanged, and stops exactly
    at the apostrophe that closes the literal. *)
Lemma lex_esc (v k : string) :
  no_leading_quote k ->
  lex_literal (esc v +:+ String quote k) = Some (v, k).
Proof.
  intros Hk. induction v as [|c v IH]; simpl.
  - destruct k as [|c' k']; [done|].
    simpl in Hk. destruct (Ascii.eqb_spec c' quote); [done|done].
  - destruct (Ascii.eqb_spec c quote) as [->|Hc]; simpl.
    + by rewrite IH.
    + destruct (Ascii.eqb_spec c quote); [done|]. by rewrite IH.
Qed.

Lemma whereClause_spec (m : DrillModalData) :
  whereClause (mkFilter (dim_name (srcDim m)) (srcVal m))
  = spec_equality_predicate m.
Proof.
  unfold whereClause, spec_equality_predicate; simpl.
  by destruct (srcDim m).
Qed.

Lemma breadcrumb_loop_chain (m : DrillModalData) (acc : list Filter) :
  breadcrumb_loop m acc
  = (map (fun c => mkFilter (dim_name (srcDim c)) (srcVal c)) (rev (chain m))
     ++ acc)%list.
Proof.
  revert acc. induction m as [d v t c|d v t c p IH] using modal_chain_ind;
    intros acc; simpl; [done|].
  rewrite IH. simpl. rewrite map_app, <- app_assoc. done.
Qed.

(** Breadcrumb length is the depth of the navigation stack. *)
Lemma breadcrumbFilters_length (m : DrillModalData) :
  length (breadcrumbFilters m) = depth m.
Proof.
  unfold breadcrumbFilters, depth. rewrite breadcrumb_loop_chain, app_nil_r.
  by rewrite length_map, length_rev.
Qed.

Lemma chain_nonempty (m : DrillModalData) : chain m <> [].
Proof. by destruct m. Qed.

(** What the engine is asked to test is what the text says. *)
Lemma show_filter_cond (filters : list Filter) :
  map Engine.show_cond (map Httpfs.filter_cond filters) = whereClauses filters.
Proof. unfold whereClauses. rewrite map_map. done. Qed.

End WhereClause.

(** C3. For the filter list a drill path accumulates, the listing query's
    WHERE clause is the conjunction, root first, of one predicate
    [column = 'value'] per level, the column by the fixed table and the
    value with each apostrophe doubled and nothing else changed (the
    engine reads the value back unchanged); drilling on contractor
    ACME CORP and then on area Metro launches the listing query with
    [contractor_name = 'ACME CORP' AND area_of_delivery = 'Metro']. *)
Theorem contracts_where_is_breadcrumb_conjunction :
  (forall m : Explorer.DrillModalData,
     Sql.whereCombined (Explorer.breadcrumbFilters m)
     = "WHERE " +:+ Str.join " AND "
         (map Explorer.spec_equality_predicate (rev (Explorer.chain m))))
  /\ (forall v : string,
        Str.lex_literal (Str.esc v +:+ "'") = Some (v, EmptyString)
        /\ String.length (Str.esc v) = (String.length v + Str.quotes v)%nat)
  /\ (forall (tr : Explorer.TimeRange) (y q : Z) (opts : Sql.PagedOpts)
             (found : list Explorer.Row) (n : Z),
        let st := Explorer.mkSettings Explorer.contractors tr y q opts in
        let s := Explorer.run (Explorer.initial st)
                   [ Explorer.Drill "ACME CORP";
                     Explorer.Settle 0 (Explorer.Resolved found n);
                     Explorer.ModalDrill "Metro" area ] in
        exists filters,
          last (Explorer.log (Explorer.env s))
          = Some (Explorer.ContractsByEntity filters 0 20 ("award_date", Engine.DESC)
                    (Explorer.getFactsUrl st))
          /\ Sql.whereCombined filters
             = "WHERE contractor_name = 'ACME CORP' AND area_of_delivery = 'Metro'").
Proof.
  split; [|split].
  - intros m. unfold Explorer.breadcrumbFilters, Sql.whereCombined, Sql.whereClauses.
    rewrite breadcrumb_loop_chain, app_nil_r, map_map.
    rewrite (map_ext _ _ whereClause_spec).
    pose proof (chain_nonempty m) as Hne.
    destruct (rev (Explorer.chain m)) as [|c l] eqn:E; [|done].
    apply (f_equal (@rev _)) in E. rewrite rev_involutive in E. done.
  - intros v. split; [|apply esc_length].
    apply (lex_esc v EmptyString). exact I.
  - intros tr y q opts found n st s.
    eexists. split; reflexivity.
Qed.

(** ** Paging of the main table *)

Section MainPaging.
Import Sql Explorer.

(** The fetcher's offset is its first argument times the page size; it
    coincides with that argument only on the first page or for pages of
    one row. *)
Lemma paged_offset_fixed (i n : Z) :
  paged_offset i n = i <-> i = 0 \/ n = 1.
Proof. unfold paged_offset. nia. Qed.

(** The main table's paging buttons move [pageIndex] by whole pages of
    items, so what [load] passes on is an item offset. *)
Lemma onNextMain_offset (s : State) :
  main_pageIndex (main (onNextMain s)) = main_pageIndex (main s) + pageSize.
Proof. reflexivity. Qed.

End MainPaging.


(** ** Paging of the contracts tab *)

Section ContractsPaging.
Import Explorer.

(** On every page at or after the first, the Previous button of the
    contracts tab is enabled and its guard lets the click through. *)
Lemma prev_never_blocked (m : DrillModalData) :
  0 <= pageIndex (contracts m) ->
  prev_disabled m = false /\ (0 <? getCurrentPage (pageIndex (contracts m))) = true.
Proof.
  intros H. unfold prev_disabled, getModalCurrentPage, getCurrentPage, pageSize.
  split.
  - apply Z.eqb_neq. pose proof (Z.div_pos (pageIndex (contracts m)) 20). lia.
  - apply Z.ltb_lt. pose proof (Z.div_pos (pageIndex (contracts m)) 10). lia.
Qed.

End ContractsPaging.


(** ** The drill navigation stack *)

Section Navigation.
Import Explorer.

Lemma launch_log (calls : list (Request * Handler)) (e : Env) :
  log (launch calls e) = log e ++ map fst calls.
Proof.
  revert e. induction calls as [|c calls IH]; intros e; simpl.
  - by rewrite app_nil_r.
  - unfold launch in *. simpl. rewrite IH. simpl. by rewrite <- app_assoc.
Qed.

Lemma numbered_cons (n : nat) (c : Request * Handler) (calls : list (Request * Handler)) :
  numbered n (c :: calls) = (n, c.2) :: numbered (S n) calls.
Proof.
  unfold numbered. simpl. f_equal; [f_equal; lia|].
  apply imap_ext. intros i x _. simpl. f_equal. lia.
Qed.

Lemma launch_pending (calls : list (Request * Handler)) (e : Env) :
  pending (launch calls e) = pending e ++ numbered (length (log e)) calls.
Proof.
  revert e. induction calls as [|c calls IH]; intros e.
  - simpl. by rewrite app_nil_r.
  - rewrite numbered_cons. unfold launch in *. simpl. rewrite IH. simpl.
    rewrite length_app. simpl. rewrite <- app_assoc. simpl.
    do 3 f_equal. lia.
Qed.

Lemma launch_timers (calls : list (Request * Handler)) (e : Env) :
  timers (launch calls e) = timers e /\ now (launch calls e) = now e
  /\ next_timer (launch calls e) = next_timer e.
Proof.
  revert e. induction calls as [|c calls IH]; intros e; [done|].
  unfold launch in *. simpl. destruct (IH (dispatch c.1 c.2 e)) as (-> & -> & ->).
  done.
Qed.

Lemma loading_modal_all_loading (d : EntityType) (v : string)
    (p : option DrillModalData) :
  all_tabs_loading (loading_modal d v p).
Proof.
  split; [done|]. intros et Hne. simpl in Hne.
  destruct d, et; try done; reflexivity.
Qed.

(** A drill from the main table opens a fresh root context. *)
Lemma onDrill_entered (s : State) (v : string) :
  entered_open s (onDrill v false None s)
    (loading_modal (srcDimForDataset (dataset (settings s))) v None).
Proof.
  unfold entered_open, onDrill, orchestrator_calls. simpl.
  split; [done|]. split; [apply loading_modal_all_loading|].
  rewrite launch_log, launch_pending. done.
Qed.

(** A drill from a tab opens a context nested under the current one. *)
Lemma onModalDrill_entered (s : State) (m0 : DrillModalData) (v : string)
    (et : EntityType) :
  modalData s = Some m0 ->
  entered_open s (onModalDrill v et s) (loading_modal et v (Some m0)).
Proof.
  intros Hm. unfold entered_open, onModalDrill, orchestrator_calls. rewrite Hm.
  cbn [modalData setActiveTab setModalData set_env env settings].
  split; [done|]. split; [apply loading_modal_all_loading|].
  rewrite launch_log, launch_pending. done.
Qed.

End Navigation.

Section NavigationClaims.
Import Engine Explorer.

(** A state two levels deep whose root context had finished loading
    before the second drill: contractor ACME CORP, then area Metro. *)
Let metro : Row := {[ "entity" := JV (VStr "Metro") ]}.

Let nested : State :=
  run (initial mounted_settings)
    [ Drill "ACME CORP";
      Settle 0 (Resolved [metro] 0);
      Settle 1 (Resolved [] 0);
      Settle 2 (Resolved [] 0);
      Settle 3 (Resolved [metro; metro] 45);
      ModalDrill "Metro" area ].

(** [goBack] into the parent context: the parent's tabs come back as
    they were saved, none of them loading, and no call is made. *)
Lemma goBack_restores_saved_tabs :
  exists p,
    modalData (step nested GoBack) = Some p
    /\ srcVal p = "ACME CORP"
    /\ contracts p = mkContracts [metro; metro] false None 45 0
    /\ log (env (step nested GoBack)) = log (env nested)
    /\ ~ reinitialised_on_every_entry.
Proof.
  eexists. split; [reflexivity|]. split; [reflexivity|].
  split; [vm_compute; reflexivity|]. split; [vm_compute; reflexivity|].
  intros H. specialize (H nested GoBack _ eq_refl eq_refl).
  destruct H as (_ & (Hc & _) & _). vm_compute in Hc. discriminate Hc.
Qed.

End NavigationClaims.

(** C7, amended. A drill from the main table and a drill from a tab
    enter [Open ctx] with every tab of [ctx] loading and the tab load
    orchestrator launched for [ctx] before any call settles; [goBack]
    enters [Open ctx.parent] by restoring the parent context exactly as
    it was saved, tab states included, and makes no call; from a root
    context it collapses the stack. *)
Theorem drill_reinitialises_goBack_restores :
  forall s : Explorer.State,
    (forall v,
        Explorer.entered_open s (Explorer.step s (Explorer.Drill v))
          (Explorer.loading_modal
             (Explorer.srcDimForDataset (Explorer.dataset (Explorer.settings s)))
             v None))
    /\ (forall m0 v et,
          Explorer.modalData s = Some m0 ->
          Explorer.entered_open s (Explorer.step s (Explorer.ModalDrill v et))
            (Explorer.loading_modal et v (Some m0)))
    /\ (forall m0 p,
          Explorer.modalData s = Some m0 ->
          Explorer.parentModal m0 = Some p ->
          Explorer.modalData (Explorer.step s Explorer.GoBack) = Some p
          /\ Explorer.env (Explorer.step s Explorer.GoBack) = Explorer.env s)
    /\ (forall m0,
          Explorer.modalData s = Some m0 ->
          Explorer.parentModal m0 = None ->
          Explorer.modalData (Explorer.step s Explorer.GoBack) = None
          /\ Explorer.env (Explorer.step s Explorer.GoBack) = Explorer.env s).
Proof.
  intros s. split; [|split; [|split]].
  - intros v. apply onDrill_entered.
  - intros m0 v et Hm. by apply onModalDrill_entered.
  - intros m0 p Hm Hp. simpl. unfold Explorer.goBack. rewrite Hm, Hp. done.
  - intros m0 Hm Hp. simpl. unfold Explorer.goBack. rewrite Hm, Hp. done.
Qed.

(** The amended rule at a concrete state: one drill, then one drill
    from the area tab, then back. *)
Lemma drill_reinitialises_goBack_restores_witness :
  let s1 := Explorer.run (Explorer.initial Explorer.mounted_settings)
              [Explorer.Drill "ACME CORP"] in
  let m1 := Explorer.loading_modal contractor "ACME CORP" None in
  let s2 := Explorer.step s1 (Explorer.ModalDrill "Metro" area) in
  let m2 := Explorer.loading_modal area "Metro" (Some m1) in
  Explorer.modalData s1 = Some m1
  /\ Explorer.entered_open s1 s2 m2
  /\ Explorer.modalData s2 = Some m2
  /\ Explorer.parentModal m2 = Some m1
  /\ Explorer.modalData (Explorer.step s2 Explorer.GoBack) = Some m1
  /\ Explorer.env (Explorer.step s2 Explorer.GoBack) = Explorer.env s2.
Proof.
  intros s1 m1 s2 m2.
  assert (H1 : Explorer.modalData s1 = Some m1) by (vm_compute; reflexivity).
  assert (H2 : Explorer.modalData s2 = Some m2) by (vm_compute; reflexivity).
  assert (H3 : Explorer.parentModal m2 = Some m1) by reflexivity.
  split; [exact H1|].
  split; [exact (proj1 (proj2 (drill_reinitialises_goBack_restores s1))
                   m1 "Metro" area H1)|].
  split; [exact H2|]. split; [exact H3|].
  exact (proj1 (proj2 (proj2 (drill_reinitialises_goBack_restores s2)))
           m2 m1 H2 H3).
Defined.

(** ** Responses and tab states *)

Section Responses.
Import Engine Explorer.

Lemma tab_get_set_eq (et : EntityType) (v : TabState) (t : Tabs) :
  tab_get et (tab_set et v t) = Some v.
Proof.
  induction t as [|[k w] t IH]; simpl.
  - by rewrite decide_True.
  - destruct (decide (k = et)) as [->|Hne]; simpl.
    + by rewrite decide_True.
    + by rewrite decide_False.
Qed.


(** Settling a call runs its handler on the modal of that moment. *)
Lemma settle_modalData (s : State) (id : nat) (h : Handler) (o : Outcome) :
  in_flight s id = Some h ->
  modalData (settle id o s) = handle_modal h o (modalData s).
Proof.
  unfold in_flight, settle. intros H.
  destruct (list_find _ _) as [[i [id' h']]|]; [|done].
  simpl in H. injection H as ->. done.
Qed.



(** A state in which the first context's listing call (call 3) is still
    in flight after a drill from the area tab has launched, and
    settled, the listing call of the nested context (call 7). *)
Let metro : Row := {[ "entity" := JV (VStr "Metro") ]}.
Let acme_contract : Row := {[ "contractor_name" := JV (VStr "ACME CORP") ]}.
Let metro_contract : Row := {[ "area_of_delivery" := JV (VStr "Metro") ]}.

Let overtaken : State :=
  run (initial mounted_settings)
    [ Drill "ACME CORP";
      Settle 0 (Resolved [metro] 0);
      ModalDrill "Metro" area;
      Settle 7 (Resolved [metro_contract] 2) ].

(** The late response of the superseded call replaces what the newer
    call wrote: there is no token to tell it is stale. *)
Lemma late_response_overwrites_newer :
  in_flight overtaken 3 = Some HContractsDrill
  /\ superseded overtaken 3
  /\ (contracts <$> modalData overtaken)
     = Some (mkContracts [metro_contract] false None 2 0)
  /\ (contracts <$> modalData (settle 3 (Resolved [acme_contract; acme_contract] 45) overtaken))
     = Some (mkContracts [acme_contract; acme_contract] false None 45 0)
  /\ ~ stale_responses_discarded.
Proof.
  assert (Hf : in_flight overtaken 3 = Some HContractsDrill)
    by (vm_compute; reflexivity).
  assert (Hs : superseded overtaken 3).
  { eexists _, 7%nat, _. split; [vm_compute; reflexivity|].
    split; [vm_compute; reflexivity|]. split; [lia|].
    split; [by eexists|reflexivity]. }
  split; [exact Hf|]. split; [exact Hs|].
  split; [vm_compute; reflexivity|]. split; [vm_compute; reflexivity|].
  intros H.
  specialize (H overtaken 3%nat HContractsDrill
                (Resolved [acme_contract; acme_contract] 45) Hf Hs).
  vm_compute in H. discriminate H.
Qed.



(** C2, amended. Responses carry no request-generation token. When a
    call settles, superseded or not, its handler is applied to the
    context that is open at that moment and overwrites the state of its
    tab there: an aggregation response writes its rows to the tab of its
    target dimension, a listing response writes its rows and count to
    the contracts tab (at offset 0 for a drill, at the requested offset
    for a re-sort or re-page). It is dropped only when no context is
    open. *)
Theorem late_response_applied_to_open_context :
  forall (s : State) (id : nat) (h : Handler) (o : Outcome),
    in_flight s id = Some h ->
    modalData (settle id o s) = handle_modal h o (modalData s)
    /\ (modalData s = None -> modalData (settle id o s) = None)
    /\ (forall m d n,
          modalData s = Some m -> o = Resolved d n ->
          exists m', modalData (settle id o s) = Some m'
            /\ match h with
               | HEntityTab et => tab_get et (tabs m') = Some (mkTab d false None)
               | HContractsDrill => contracts m' = mkContracts d false None n 0
               | HContractsDebounced off => contracts m' = mkContracts d false None n off
               | HMain => m' = m
               end).
Proof.
  intros s id h o Hf. pose proof (settle_modalData s id h o Hf) as Hm.
  split; [exact Hm|]. split.
  - intros Hn. rewrite Hm, Hn. by destruct h, o.
  - intros m d n Hs ->. rewrite Hm, Hs.
    destruct h; simpl; (eexists; split; [reflexivity|]); simpl; try done.
    apply tab_get_set_eq.
Qed.

(** The amended rule at the state where call 3 has been superseded. *)
Lemma late_response_applied_to_open_context_witness :
  in_flight overtaken 3 = Some HContractsDrill
  /\ modalData (settle 3 (Resolved [acme_contract] 45) overtaken)
     = handle_modal HContractsDrill (Resolved [acme_contract] 45) (modalData overtaken).
Proof.
  assert (Hf : in_flight overtaken 3 = Some HContractsDrill)
    by (vm_compute; reflexivity).
  split; [exact Hf|].
  exact (proj1 (late_response_applied_to_open_context overtaken 3%nat
                  HContractsDrill (Resolved [acme_contract] 45) Hf)).
Defined.



End Responses.

(** ** The debounce scheduler *)

Section Debounce.
Import Explorer.

Lemma paged_calls_snoc (l : list Request) (r : Request) :
  paged_calls (l ++ [r])
  = paged_calls l ++ match request_tab r with None => [r] | Some _ => [] end.
Proof.
  unfold paged_calls. rewrite filter_app. f_equal.
  destruct r; reflexivity.
Qed.

(** What one firing does: the timer is gone, and a timer of the main
    table's debounce makes exactly the call of [load]. *)
Lemma fire_effects (s : State) (t : Timer) :
  settings (fire s t) = settings s
  /\ debounceTimeoutRef (fire s t) = debounceTimeoutRef s
  /\ modalDebounceTimeoutRef (fire s t) = modalDebounceTimeoutRef s
  /\ next_timer (env (fire s t)) = next_timer (env s)
  /\ timers (env (fire s t)) = filter (fun t' => tm_id t' ≠ tm_id t) (timers (env s))
  /\ paged_calls (log (env (fire s t)))
     = paged_calls (log (env s))
       ++ match load_pi t with
          | Some pi => [load_call (settings s) pi]
          | None => []
          end.
Proof.
  unfold fire, load_pi. destruct (tm_cb t) as [pi|fs off ob]; simpl;
    rewrite paged_calls_snoc; simpl; rewrite ?app_nil_r; done.
Qed.

Lemma fires_effects (l : list Timer) (s : State) :
  settings (foldl fire s l) = settings s
  /\ debounceTimeoutRef (foldl fire s l) = debounceTimeoutRef s
  /\ modalDebounceTimeoutRef (foldl fire s l) = modalDebounceTimeoutRef s
  /\ next_timer (env (foldl fire s l)) = next_timer (env s)
  /\ timers (env (foldl fire s l))
     = filter (fun t' => tm_id t' ∉ map tm_id l) (timers (env s))
  /\ paged_calls (log (env (foldl fire s l)))
     = paged_calls (log (env s)) ++ map (load_call (settings s)) (omap load_pi l).
Proof.
  revert s. induction l as [|t l IH]; intros s; simpl.
  - rewrite app_nil_r. repeat split; try done.
    induction (timers (env s)) as [|x xs IHx]; [done|].
    rewrite filter_cons_True; [by f_equal|]. apply not_elem_of_nil.
  - destruct (IH (fire s t)) as (-> & -> & -> & -> & -> & ->).
    destruct (fire_effects s t) as (-> & -> & -> & -> & -> & ->).
    repeat split; try done.
    + rewrite list_filter_filter. apply list_filter_iff.
      intros x. rewrite not_elem_of_cons. tauto.
    + rewrite <- app_assoc. f_equal. by destruct (load_pi t).
Qed.

Lemma omap_cons_unfold {A B} (f : A -> option B) (x : A) (l : list A) :
  omap f (x :: l)
  = match f x with Some y => y :: omap f l | None => omap f l end.
Proof. reflexivity. Qed.

(** The timers of the main table's debounce among a list of timers. *)
Lemma omap_load_pi_filter (P : Timer -> Prop) `{!forall t, Decision (P t)}
    (l : list Timer) :
  omap load_pi (filter P l)
  = omap load_pi (filter P (filter (fun t => is_Some (load_pi t)) l)).
Proof.
  induction l as [|t l IH]; [done|].
  rewrite (filter_cons (fun t => is_Some (load_pi t))), (filter_cons P).
  destruct (decide (P t)) as [HP|HP], (decide (is_Some (load_pi t))) as [Hs|Hn].
  - rewrite filter_cons_True by done. by rewrite !omap_cons_unfold, IH.
  - rewrite omap_cons_unfold. destruct (load_pi t) eqn:E; [|done].
    exfalso. apply Hn. by eexists.
  - rewrite filter_cons_False by done. done.
  - done.
Qed.

Lemma NoDup_fmap_eq {A B} (f : A -> B) (l : list A) (x y : A) :
  NoDup (map f l) -> x ∈ l -> y ∈ l -> f x = f y -> x = y.
Proof.
  induction l as [|a l IH]; simpl; intros Hnd Hx Hy Hf.
  - by apply elem_of_nil in Hx.
  - apply NoDup_cons in Hnd as [Ha Hnd].
    apply elem_of_cons in Hx as [->|Hx], Hy as [->|Hy]; try done.
    + exfalso. apply Ha. rewrite Hf. by apply (list_elem_of_fmap_2 f).
    + exfalso. apply Ha. rewrite <- Hf. by apply (list_elem_of_fmap_2 f).
    + by apply IH.
Qed.

Lemma filter_none {A} (P : A -> Prop) `{!forall x, Decision (P x)} (l : list A) :
  (forall x, x ∈ l -> ~ P x) -> filter P l = [].
Proof.
  induction l as [|x l IH]; intros Hall; [done|].
  rewrite filter_cons_False; [|apply Hall; left].
  apply IH. intros y Hy. apply Hall. by right.
Qed.

Lemma filter_comm {A} (P Q : A -> Prop) `{!forall x, Decision (P x)}
    `{!forall x, Decision (Q x)} (l : list A) :
  filter P (filter Q l) = filter Q (filter P l).
Proof.
  rewrite !list_filter_filter. apply list_filter_iff. intros x. tauto.
Qed.

(** Removing timers keeps the timer invariant. *)
Lemma timers_wf_filter (s s' : State) (P : Timer -> Prop)
    `{!forall t, Decision (P t)} :
  timers (env s') = filter P (timers (env s)) ->
  next_timer (env s') = next_timer (env s) ->
  debounceTimeoutRef s' = debounceTimeoutRef s ->
  modalDebounceTimeoutRef s' = modalDebounceTimeoutRef s ->
  timers_wf s -> timers_wf s'.
Proof.
  intros Ht Hn Hr Hm (Hnd & Hlt & Href). unfold timers_wf.
  rewrite Ht, Hn, Hr, Hm. split; [|split].
  - eapply sublist_NoDup; [exact Hnd|].
    apply fmap_sublist, sublist_filter.
  - intros t [_ Hin]%list_elem_of_filter. by apply Hlt.
  - intros t [_ Hin]%list_elem_of_filter. by apply Href.
Qed.

Lemma clear_ref_timers (r : option positive) (e : Env) :
  timers (clear_ref r e) = filter (fun t => Some (tm_id t) ≠ r) (timers e)
  /\ next_timer (clear_ref r e) = next_timer e
  /\ now (clear_ref r e) = now e
  /\ log (clear_ref r e) = log e
  /\ pending (clear_ref r e) = pending e.
Proof.
  destruct r as [id|]; simpl; repeat split; try done.
  - apply list_filter_iff. intros t. split; congruence.
  - induction (timers e) as [|x xs IH]; [done|].
    rewrite filter_cons_True; [by f_equal|done].
Qed.

Lemma elapse_effects (ms : nat) (s : State) :
  let due := due_timers (now (env s) + ms) (env s) in
  settings (elapse ms s) = settings s
  /\ debounceTimeoutRef (elapse ms s) = debounceTimeoutRef s
  /\ modalDebounceTimeoutRef (elapse ms s) = modalDebounceTimeoutRef s
  /\ next_timer (env (elapse ms s)) = next_timer (env s)
  /\ now (env (elapse ms s)) = (now (env s) + ms)%nat
  /\ timers (env (elapse ms s))
     = filter (fun t' => tm_id t' ∉ map tm_id due) (timers (env s))
  /\ paged_calls (log (env (elapse ms s)))
     = paged_calls (log (env s)) ++ map (load_call (settings s)) (omap load_pi due).
Proof.
  intros due. unfold elapse. fold due.
  destruct (fires_effects due s) as (H1 & H2 & H3 & H4 & H5 & H6).
  simpl. repeat split; done.
Qed.

Lemma elem_of_due_timers (d : nat) (e : Env) (t : Timer) :
  t ∈ due_timers d e <-> (tm_due t <= d)%nat /\ t ∈ timers e.
Proof.
  unfold due_timers. rewrite merge_sort_Permutation, list_elem_of_filter. done.
Qed.

Lemma elapse_wf (ms : nat) (s : State) : timers_wf s -> timers_wf (elapse ms s).
Proof.
  destruct (elapse_effects ms s) as (_ & H2 & H3 & H4 & _ & H6 & _).
  by apply (timers_wf_filter s (elapse ms s) _ H6).
Qed.

(** Scheduling cancels whatever was armed and arms one timer, a second
    from now, for the new parameter; no call is made. *)
Lemma debouncedLoad_arms (pi : Z) (s : State) :
  timers_wf s ->
  armed (debouncedLoad pi s) pi (now (env s) + 1000)
  /\ now (env (debouncedLoad pi s)) = now (env s)
  /\ settings (debouncedLoad pi s) = settings s
  /\ log (env (debouncedLoad pi s)) = log (env s).
Proof.
  intros (Hnd & Hlt & Href).
  destruct (clear_ref_timers (debounceTimeoutRef s) (env s))
    as (Ht & Hn & Hnow & Hlog & _).
  unfold debouncedLoad, armed, timers_wf, setTimeout. simpl.
  rewrite Ht, Hn, Hnow, Hlog.
  split; [|done]. split; [split; [|split]|].
  - rewrite map_app. simpl. apply NoDup_app. split; [|split].
    + eapply sublist_NoDup; [exact Hnd|]. apply fmap_sublist, sublist_filter.
    + intros x Hx Hx'. apply list_elem_of_singleton in Hx' as ->.
      apply list_elem_of_fmap in Hx as (t & Hid & [_ Hin]%list_elem_of_filter).
      specialize (Hlt t Hin). lia.
    + apply NoDup_singleton.
  - intros t [[_ Hin]%list_elem_of_filter| ->%list_elem_of_singleton]%elem_of_app.
    + specialize (Hlt t Hin). lia.
    + simpl. lia.
  - intros t [[Hne Hin]%list_elem_of_filter| ->%list_elem_of_singleton]%elem_of_app.
    + specialize (Href t Hin). destruct (tm_cb t); [congruence|done].
    + done.
  - exists (next_timer (env s)). rewrite filter_app.
    rewrite filter_comm, (filter_none _ (filter _ _)); [done|].
    intros t [Hl Hin]%list_elem_of_filter Hne.
    specialize (Href t Hin). unfold load_pi in Hl.
    destruct (tm_cb t); [congruence|]. by destruct Hl.
Qed.

(** While the armed timer is not due, time passes without a load. *)
Lemma armed_elapse_early (s : State) (pi : Z) (due ms : nat) :
  armed s pi due ->
  (now (env s) + ms < due)%nat ->
  armed (elapse ms s) pi due
  /\ paged_calls (log (env (elapse ms s))) = paged_calls (log (env s)).
Proof.
  intros [Hwf [id Harm]] Hlt.
  destruct (elapse_effects ms s) as (_ & _ & _ & _ & _ & Ht & Hp).
  assert (Hin : mkTimer id due (CbLoad pi) ∈ timers (env s)).
  { eapply (proj1 (list_elem_of_filter _ _ _)). rewrite Harm. by left. }
  split; [split; [by apply elapse_wf|exists id]|].
  - rewrite Ht, filter_comm, Harm. rewrite filter_cons_True; [done|].
    intros (t' & Hid & Hd)%list_elem_of_fmap. simpl in Hid.
    apply elem_of_due_timers in Hd as [Hdue Hin'].
    destruct Hwf as (Hnd & _).
    assert (t' = mkTimer id due (CbLoad pi))
      by (eapply (NoDup_fmap_eq tm_id); eauto).
    subst t'. simpl in Hdue. lia.
  - rewrite Hp. unfold due_timers.
    assert (Hnone : omap load_pi (merge_sort fires_before
              (filter (fun t => (tm_due t <= now (env s) + ms)%nat) (timers (env s))))
            ≡ₚ []).
    { rewrite merge_sort_Permutation, omap_load_pi_filter, Harm.
      rewrite filter_cons_False; [done|]. simpl. lia. }
    apply Permutation_nil_r in Hnone. rewrite Hnone. simpl. by rewrite app_nil_r.
Qed.

(** Once the armed timer is due, it fires: exactly one load, with the
    parameter it was armed with. *)
Lemma armed_elapse_late (s : State) (pi : Z) (due ms : nat) :
  armed s pi due ->
  (due <= now (env s) + ms)%nat ->
  paged_calls (log (env (elapse ms s)))
  = paged_calls (log (env s)) ++ [load_call (settings s) pi].
Proof.
  intros [Hwf [id Harm]] Hle.
  destruct (elapse_effects ms s) as (_ & _ & _ & _ & _ & _ & Hp).
  rewrite Hp. unfold due_timers.
  assert (Hone : omap load_pi (merge_sort fires_before
            (filter (fun t => (tm_due t <= now (env s) + ms)%nat) (timers (env s))))
          ≡ₚ [pi]).
  { rewrite merge_sort_Permutation, omap_load_pi_filter, Harm.
    rewrite filter_cons_True; [done|]. simpl. lia. }
  apply Permutation_singleton_r in Hone. by rewrite Hone.
Qed.

Lemma last_default_cons {A} (l : list A) :
  forall a b : A, default a (last (b :: l)) = default b (last l).
Proof.
  induction l as [|x l IH]; intros a b; [done|].
  rewrite last_cons_cons, (IH a x), (IH b x). done.
Qed.

(** During a burst of triggers, each before the armed timer is due,
    nothing is loaded, and the debounce ends up armed for the last
    parameter. *)
Lemma burst_armed (more : list (nat * Z)) :
  forall (s : State) (pi : Z),
    armed s pi (now (env s) + 1000) ->
    Forall (fun gp => (gp.1 < 1000)%nat) more ->
    let s' := run s (burst more) in
    armed s' (last_pi pi more) (now (env s') + 1000)
    /\ settings s' = settings s
    /\ paged_calls (log (env s')) = paged_calls (log (env s)).
Proof.
  induction more as [|[gap pi'] more IH]; intros s pi Harm Hgaps; [done|].
  apply Forall_cons in Hgaps as [Hgap Hgaps]. simpl in Hgap.
  simpl. fold (run (debouncedLoad pi' (elapse gap s)) (burst more)).
  destruct (armed_elapse_early s pi _ gap Harm) as [[Hwf _] Hp]; [lia|].
  destruct (debouncedLoad_arms pi' (elapse gap s) Hwf) as (Harm' & Hnow & Hset & Hlog).
  rewrite <- Hnow in Harm'.
  destruct (IH _ pi' Harm' Hgaps) as (Ha & Hs & Hl).
  destruct (elapse_effects gap s) as (Hse & _).
  split; [|split].
  - replace (last_pi pi ((gap, pi') :: more)) with (last_pi pi' more); [done|].
    unfold last_pi. simpl. symmetry. apply last_default_cons.
  - by rewrite Hs, Hset, Hse.
  - by rewrite Hl, Hlog, Hp.
Qed.

(** The cleanup leaves no timer armed. *)
Lemma cleanup_clears (s : State) :
  timers_wf s -> timers (env (cleanup s)) = [].
Proof.
  intros (_ & _ & Href). unfold cleanup. simpl.
  destruct (clear_ref_timers (debounceTimeoutRef s) (env s)) as (Ht & _).
  destruct (clear_ref_timers (modalDebounceTimeoutRef s)
              (clear_ref (debounceTimeoutRef s) (env s))) as (Ht' & _).
  rewrite Ht', Ht. apply filter_none.
  intros t [Hne Hin]%list_elem_of_filter Hne'.
  specialize (Href t Hin). destruct (tm_cb t); congruence.
Qed.

Lemma cleanup_log (s : State) : log (env (cleanup s)) = log (env s).
Proof.
  unfold cleanup. simpl.
  destruct (clear_ref_timers (debounceTimeoutRef s) (env s)) as (_ & _ & _ & Hl & _).
  destruct (clear_ref_timers (modalDebounceTimeoutRef s)
              (clear_ref (debounceTimeoutRef s) (env s))) as (_ & _ & _ & Hl' & _).
  by rewrite Hl', Hl.
Qed.

(** With no timer armed, time passes without any call. *)
Lemma elapse_idle (ms : nat) (s : State) :
  timers (env s) = [] -> log (env (elapse ms s)) = log (env s).
Proof. intros H. unfold elapse, due_timers. rewrite H. reflexivity. Qed.

(** *** The timer invariant holds in every reachable state *)

Lemma timers_wf_same (s s' : State) :
  timers (env s') = timers (env s) ->
  next_timer (env s') = next_timer (env s) ->
  debounceTimeoutRef s' = debounceTimeoutRef s ->
  modalDebounceTimeoutRef s' = modalDebounceTimeoutRef s ->
  timers_wf s -> timers_wf s'.
Proof.
  intros Ht Hn Hr Hm H. unfold timers_wf. rewrite Ht, Hn, Hr, Hm. exact H.
Qed.

Lemma debouncedModalContractsLoad_wf (fs : list Sql.Filter) (off : Z)
    (ob : Httpfs.OrderBy) (s : State) :
  timers_wf s -> timers_wf (debouncedModalContractsLoad fs off ob s).
Proof.
  intros (Hnd & Hlt & Href).
  destruct (clear_ref_timers (modalDebounceTimeoutRef s) (env s))
    as (Ht & Hn & Hnow & Hlog & _).
  unfold debouncedModalContractsLoad, timers_wf, setTimeout. simpl.
  rewrite Ht, Hn. split; [|split].
  - rewrite map_app. simpl. apply NoDup_app. split; [|split].
    + eapply sublist_NoDup; [exact Hnd|]. apply fmap_sublist, sublist_filter.
    + intros x Hx Hx'. apply list_elem_of_singleton in Hx' as ->.
      apply list_elem_of_fmap in Hx as (t & Hid & [_ Hin]%list_elem_of_filter).
      specialize (Hlt t Hin). lia.
    + apply NoDup_singleton.
  - intros t [[_ Hin]%list_elem_of_filter| ->%list_elem_of_singleton]%elem_of_app.
    + specialize (Hlt t Hin). lia.
    + simpl. lia.
  - intros t [[Hne Hin]%list_elem_of_filter| ->%list_elem_of_singleton]%elem_of_app.
    + specialize (Href t Hin). destruct (tm_cb t); [done|congruence].
    + done.
Qed.

Lemma timers_wf_initial (st : Settings) : timers_wf (initial st).
Proof.
  split; [constructor|]. split; intros t Ht; by apply elem_of_nil in Ht.
Qed.

Lemma timers_wf_step (s : State) (ev : Event) :
  timers_wf s -> timers_wf (step s ev).
Proof.
  intros Hwf. destruct ev as [|v|v et| | |key| | | | |pi|ms|id o|]; simpl.
  - by apply (timers_wf_same s).
  - unfold onDrill. apply (timers_wf_same s); simpl; try done;
      by destruct (launch_timers
           (tab_loads (srcDimForDataset (dataset (settings s))) v
              [Sql.mkFilter (dim_name (srcDimForDataset (dataset (settings s)))) v]
              (getFactsUrl (settings s))) (env s)) as (? & ? & ?).
  - unfold onModalDrill. destruct (modalData s) as [m|] eqn:E; [|done].
    apply (timers_wf_same s); simpl; try done;
      by destruct (launch_timers
           (tab_loads et v (breadcrumbFilters (loading_modal et v (Some m)))
              (getFactsUrl (settings s))) (env s)) as (? & ? & ?).
  - unfold goBack. destruct (modalData s) as [m|]; [destruct (parentModal m)|];
      by apply (timers_wf_same s).
  - by apply (timers_wf_same s).
  - destruct (contracts_shown s); [|done]. unfold onSortContracts.
    destruct (modalData s); apply debouncedModalContractsLoad_wf;
      by apply (timers_wf_same s).
  - destruct (modalData s) as [m|] eqn:E; [|done].
    destruct (contracts_shown s && negb (prev_disabled m)); [|done].
    unfold onPrevContracts. rewrite E.
    destruct (0 <? _); [|done]. by apply debouncedModalContractsLoad_wf.
  - destruct (modalData s) as [m|] eqn:E; [|done].
    destruct (contracts_shown s && negb (next_disabled m)); [|done].
    unfold onNextContracts. rewrite E.
    destruct (_ <? _); [|done]. by apply debouncedModalContractsLoad_wf.
  - destruct (main_prev_disabled s); [done|]. unfold onPrevMain.
    apply debouncedLoad_arms. by apply (timers_wf_same s).
  - destruct (main_next_disabled s); [done|]. unfold onNextMain.
    apply debouncedLoad_arms. by apply (timers_wf_same s).
  - by apply debouncedLoad_arms.
  - by apply elapse_wf.
  - unfold settle. destruct (list_find _ _) as [[i [id' h]]|]; [|done].
    by apply (timers_wf_same s).
  - unfold cleanup.
    destruct (clear_ref_timers (debounceTimeoutRef s) (env s)) as (Ht & Hn & _).
    destruct (clear_ref_timers (modalDebounceTimeoutRef s)
                (clear_ref (debounceTimeoutRef s) (env s))) as (Ht' & Hn' & _).
    eapply (timers_wf_filter s); [| | | |exact Hwf]; simpl; try done.
    + rewrite Ht', Ht, list_filter_filter. reflexivity.
    + by rewrite Hn', Hn.
Qed.

Lemma timers_wf_run (evs : list Event) (s : State) :
  timers_wf s -> timers_wf (run s evs).
Proof.
  revert s. induction evs as [|ev evs IH]; intros s H; [done|].
  simpl. apply IH. by apply timers_wf_step.
Qed.

(** After the armed timer has fired, the debounce is idle. *)
Lemma armed_elapse_late_idle (s : State) (pi : Z) (due ms : nat) :
  armed s pi due ->
  (due <= now (env s) + ms)%nat ->
  filter (fun t => is_Some (load_pi t)) (timers (env (elapse ms s))) = [].
Proof.
  intros [Hwf [id Harm]] Hle.
  destruct (elapse_effects ms s) as (_ & _ & _ & _ & _ & Ht & _).
  assert (Hin : mkTimer id due (CbLoad pi) ∈ timers (env s)).
  { eapply (proj1 (list_elem_of_filter _ _ _)). rewrite Harm. by left. }
  rewrite Ht, filter_comm, Harm. rewrite filter_cons_False; [done|].
  intros Hn. apply Hn.
  apply (list_elem_of_fmap_2 tm_id (due_timers _ _) (mkTimer id due (CbLoad pi))).
  apply elem_of_due_timers. simpl. split; [lia|done].
Qed.

(** While the debounce is idle, time passes without a load. *)
Lemma idle_elapse (s : State) (ms : nat) :
  filter (fun t => is_Some (load_pi t)) (timers (env s)) = [] ->
  paged_calls (log (env (elapse ms s))) = paged_calls (log (env s)).
Proof.
  intros Hidle.
  destruct (elapse_effects ms s) as (_ & _ & _ & _ & _ & _ & Hp).
  rewrite Hp. unfold due_timers.
  assert (Hnone : omap load_pi (merge_sort fires_before
            (filter (fun t => (tm_due t <= now (env s) + ms)%nat) (timers (env s))))
          ≡ₚ []).
  { by rewrite merge_sort_Permutation, omap_load_pi_filter, Hidle. }
  apply Permutation_nil_r in Hnone. rewrite Hnone. simpl. by rewrite app_nil_r.
Qed.

(** C5. From any state the component can be in: when [debouncedLoad] is
    called once or more, each call less than a second after the one
    before, and then a second or more passes, [load] is called exactly
    once, with the parameter of the last call, and not again however
    much more time passes; when instead the component unmounts after
    the calls, its cleanup leaves no timer armed and no call is made
    when time passes. *)
Theorem debounce_dispatches_last_once :
  forall (s : State) (pi0 : Z) (more : list (nat * Z)) (wait later : nat),
    timers_wf s ->
    Forall (fun gp => (gp.1 < 1000)%nat) more ->
    (1000 <= wait)%nat ->
    let triggers := DebouncedLoad pi0 :: burst more in
    paged_calls (log (env (run s (triggers ++ [Elapse wait]))))
    = paged_calls (log (env s)) ++ [load_call (settings s) (last_pi pi0 more)]
    /\ paged_calls (log (env (run s (triggers ++ [Elapse wait; Elapse later]))))
       = paged_calls (log (env s)) ++ [load_call (settings s) (last_pi pi0 more)]
    /\ timers (env (run s (triggers ++ [Unmount]))) = []
    /\ log (env (run s (triggers ++ [Unmount; Elapse wait])))
       = log (env (run s triggers))
    /\ paged_calls (log (env (run s (triggers ++ [Unmount; Elapse wait]))))
       = paged_calls (log (env s)).
Proof.
  intros s pi0 more wait later Hwf Hgaps Hwait triggers.
  destruct (debouncedLoad_arms pi0 s Hwf) as (Harm & Hnow & Hset & Hlog).
  rewrite <- Hnow in Harm.
  destruct (burst_armed more _ pi0 Harm Hgaps) as (Ha & Hs & Hl).
  set (s1 := run (debouncedLoad pi0 s) (burst more)) in *.
  assert (Hrun : forall evs, run s (triggers ++ evs) = run s1 evs).
  { intros evs. unfold run, triggers. rewrite foldl_app. reflexivity. }
  assert (E1 : run s triggers = s1).
  { rewrite <- (app_nil_r triggers). apply Hrun. }
  assert (Hfire : paged_calls (log (env (elapse wait s1)))
                  = paged_calls (log (env s)) ++ [load_call (settings s) (last_pi pi0 more)]).
  { rewrite (armed_elapse_late s1 _ _ wait Ha); [|lia].
    by rewrite Hl, Hlog, Hs, Hset. }
  rewrite !Hrun, E1.
  change (run s1 [Elapse wait]) with (elapse wait s1).
  change (run s1 [Elapse wait; Elapse later]) with (elapse later (elapse wait s1)).
  change (run s1 [Unmount]) with (cleanup s1).
  change (run s1 [Unmount; Elapse wait]) with (elapse wait (cleanup s1)).
  split; [exact Hfire|]. split.
  { rewrite idle_elapse; [exact Hfire|].
    apply (armed_elapse_late_idle s1 _ _ wait Ha). lia. }
  destruct Ha as [Hwf1 _].
  pose proof (cleanup_clears s1 Hwf1) as Hclear.
  split; [exact Hclear|].
  rewrite (elapse_idle wait (cleanup s1) Hclear), cleanup_log.
  split; [reflexivity|]. by rewrite Hl, Hlog.
Qed.

(** The debounce at the mounted component: three triggers within the
    quiet window load once, with the third parameter. *)
Lemma debounce_dispatches_last_once_witness :
  timers_wf (initial mounted_settings)
  /\ Forall (fun gp : nat * Z => (gp.1 < 1000)%nat) [(999%nat, 10); (500%nat, 20)]
  /\ (1000 <= 1000)%nat
  /\ paged_calls (log (env (run (initial mounted_settings)
        [DebouncedLoad 0; Elapse 999; DebouncedLoad 10; Elapse 500;
         DebouncedLoad 20; Elapse 1000])))
     = [load_call mounted_settings 20].
Proof.
  assert (Hwf : timers_wf (initial mounted_settings)) by apply timers_wf_initial.
  assert (Hg : Forall (fun gp : nat * Z => (gp.1 < 1000)%nat)
                 [(999%nat, 10); (500%nat, 20)]).
  { repeat constructor; simpl; lia. }
  assert (Hw : (1000 <= 1000)%nat) by lia.
  split; [exact Hwf|]. split; [exact Hg|]. split; [exact Hw|].
  exact (proj1 (debounce_dispatches_last_once (initial mounted_settings) 0
                  [(999%nat, 10); (500%nat, 20)] 1000 0 Hwf Hg Hw)).
Defined.

End Debounce.

(** ** The aggregation query against the engine *)

Section EngineFacts.
Import Engine Httpfs.

Lemma Qle_bool_total (p q : Q) : Qle_bool p q = true \/ Qle_bool q p = true.
Proof.
  rewrite !Qle_bool_iff. destruct (Qlt_le_dec p q) as [H|H]; [left|right]; [|done].
  by apply Qlt_le_weak.
Qed.

Lemma asc_before_total (a b : Value) :
  asc_before a b = true \/ asc_before b a = true.
Proof.
  destruct a as [|x|p|s], b as [|y|q|t]; simpl; auto;
    try apply Qle_bool_total; try apply String.leb_total.
Qed.

Lemma desc_before_total (a b : Value) :
  desc_before a b = true \/ desc_before b a = true.
Proof.
  destruct a as [|x|p|s], b as [|y|q|t]; simpl; auto;
    try apply Qle_bool_total; try apply String.leb_total.
Qed.

(** On totals that are numbers, descending order is the order of the
    integers reversed; a missing total comes after every number. *)
Lemma desc_before_ints (a b : Z) :
  desc_before (VInt a) (VInt b) = true <-> b <= a.
Proof. simpl. rewrite Qle_bool_iff, <- Zle_Qle. done. Qed.

Lemma desc_before_null (a : Value) :
  desc_before a VNull = true
  /\ (desc_before VNull a = true -> a = VNull).
Proof. by destruct a. Qed.

(** A total is an integer, or null when no fact of the entity has an
    amount. *)
Lemma total_of_int_or_null (t : Table) (srcCol v tgtCol : string) (e : Value) :
  total_of t srcCol v tgtCol e = VNull
  \/ exists n, total_of t srcCol v tgtCol e = VInt n.
Proof.
  unfold total_of, aggregate.
  destruct (column_nums _ _ _); [by left|right; by eexists].
Qed.

#[local] Instance key_before_total d : Total (key_before d).
Proof.
  intros x y. unfold key_before. destruct d; simpl.
  - apply asc_before_total.
  - apply desc_before_total.
Qed.

Lemma has_col_true cols c : c ∈ cols -> has_col cols c = true.
Proof. intros H. unfold has_col. by apply bool_decide_eq_true. Qed.

(** The rows the aggregation query keeps. *)
Lemma related_kept (t : Table) (srcCol tgtCol v : string) :
  filter (fun r => forallb (cond_holds (t_cols t) r)
                     [(CEq srcCol v, ECol srcCol); (CNotNull tgtCol, ECol tgtCol)] = true)
         (t_rows t)
  = filter (fun r => cell (t_cols t) r srcCol = VStr v
                     /\ cell (t_cols t) r tgtCol <> VNull) (t_rows t).
Proof.
  apply list_filter_iff. intros r. simpl. unfold cond_holds. simpl.
  rewrite andb_true_r, andb_true_iff, negb_true_iff,
    bool_decide_eq_true, bool_decide_eq_false. done.
Qed.

Lemma check_columns_ok (cols refs : list string) :
  Forall (fun c => c ∈ cols) refs -> check_columns cols refs = Ok tt.
Proof.
  intros H. unfold check_columns, first_missing.
  rewrite filter_none; [done|].
  intros c Hc. rewrite Forall_forall in H. rewrite (has_col_true _ _ (H c Hc)). done.
Qed.

Lemma resolve_where_col (a : bool) (cols : list string) (items : list Item) (c : string) :
  c ∈ cols -> resolve_where a cols items c = Some (ECol c).
Proof. intros H. unfold resolve_where. by rewrite has_col_true. Qed.

Lemma eval_related (c : Cfg) (t : Table) (srcCol tgtCol v : string) (limit : Z) :
  srcCol ∈ t_cols t -> tgtCol ∈ t_cols t ->
  "total_contract_amount" ∈ t_cols t -> "award_date" ∈ t_cols t ->
  0 <= limit ->
  let kept := filter (fun r => cell (t_cols t) r srcCol = VStr v
                               /\ cell (t_cols t) r tgtCol <> VNull) (t_rows t) in
  eval_select c t (related_select srcCol tgtCol v limit)
  = Ok (mkResult (map out_name (related_items tgtCol))
          (map snd (take (Z.to_nat limit)
             (order_rows DESC
                (map (fun out => (default VNull (out !! 2%nat), out))
                   (map (fun k => map (aggregate (t_cols t)
                                         (group_of (t_cols t) (ECol tgtCol) kept k))
                                      (map i_expr (related_items tgtCol)))
                        (group_keys (t_cols t) (ECol tgtCol) kept))))))).
Proof.
  intros Hs Ht Ha Hd Hl kept. unfold eval_select, related_select.
  cbn [s_items s_where s_limit s_offset s_order s_group_by_first].
  rewrite check_columns_ok by (repeat constructor; done).
  cbn [bind bind_conds cond_col].
  rewrite !resolve_where_col by done. cbn [bind check_range].
  destruct (Z.ltb_spec limit 0) as [?|_]; [lia|]. cbn [bind].
  rewrite related_kept. fold kept.
  reflexivity.
Qed.

Section Groups.
Context (t : Table) (srcCol tgtCol v : string).

Let kept := filter (fun r => cell (t_cols t) r srcCol = VStr v
                             /\ cell (t_cols t) r tgtCol <> VNull) (t_rows t).

Lemma group_of_matching (k : Value) :
  k <> VNull ->
  group_of (t_cols t) (ECol tgtCol) kept k = facts_matching t srcCol v tgtCol k.
Proof.
  intros Hk. unfold group_of, kept, facts_matching.
  rewrite list_filter_filter. apply list_filter_iff. intros r. simpl.
  split; [intros (? & ? & ?); done|]. intros [? ?]. repeat split; congruence.
Qed.

Lemma group_keys_spec (k : Value) :
  k ∈ group_keys (t_cols t) (ECol tgtCol) kept
  <-> k <> VNull
      /\ exists r, r ∈ t_rows t /\ cell (t_cols t) r srcCol = VStr v
                   /\ cell (t_cols t) r tgtCol = k.
Proof.
  unfold group_keys, kept. rewrite elem_of_remove_dups, list_elem_of_fmap. simpl.
  split.
  - intros (r & -> & [[Hs Hn] Hin]%list_elem_of_filter). split; [done|].
    by exists r.
  - intros (Hk & r & Hin & Hs & Ht). exists r. split; [done|].
    apply list_elem_of_filter. repeat split; congruence.
Qed.

Lemma group_row (k : Value) :
  k ∈ group_keys (t_cols t) (ECol tgtCol) kept ->
  map (aggregate (t_cols t) (group_of (t_cols t) (ECol tgtCol) kept k))
      (map i_expr (related_items tgtCol))
  = summary_values t srcCol v tgtCol k.
Proof.
  intros Hk. apply group_keys_spec in Hk as (Hn & r & Hin & Hs & Ht).
  rewrite group_of_matching by done.
  unfold summary_values, total_of. simpl. f_equal.
  assert (Hr : r ∈ facts_matching t srcCol v tgtCol k).
  { apply list_elem_of_filter. done. }
  destruct (facts_matching t srcCol v tgtCol k) as [|r0 g] eqn:E.
  - by apply elem_of_nil in Hr.
  - assert (H0 : r0 ∈ facts_matching t srcCol v tgtCol k) by (rewrite E; left).
    apply list_elem_of_filter in H0 as [[_ H0] _]. done.
Qed.

End Groups.

Lemma Sorted_fmap_inv {A B} (f : A -> B) (R : relation B) (l : list A) :
  Sorted R (map f l) -> Sorted (fun x y => R (f x) (f y)) l.
Proof.
  induction l as [|x l IH]; simpl; intros H; [constructor|].
  apply Sorted_inv in H as [Hs Hh]. constructor; [by apply IH|].
  destruct l; simpl in *; constructor. by apply HdRel_inv in Hh.
Qed.

Lemma map_id_on {A} (g : A -> A) (l : list A) :
  (forall x, x ∈ l -> g x = x) -> map g l = l.
Proof.
  induction l as [|x l IH]; intros H; simpl; [done|].
  rewrite H by left. f_equal. apply IH. intros y Hy. apply H. by right.
Qed.

Lemma map_ext_on {A B} (f g : A -> B) (l : list A) :
  (forall x, x ∈ l -> f x = g x) -> map f l = map g l.
Proof.
  induction l as [|x l IH]; intros H; simpl; [done|].
  rewrite H by left. f_equal. apply IH. intros y Hy. apply H. by right.
Qed.


(** Ordering keyed rows that are a function of their first column. *)
Lemma order_rows_ranked (d : Dir) (f : Value -> Keyed) (keys : list Value) :
  (forall k, default VNull ((f k).2 !! 0%nat) = k) ->
  NoDup keys ->
  exists ranked,
    order_rows d (map f keys) = map f ranked
    /\ NoDup ranked
    /\ (forall e, e ∈ ranked <-> e ∈ keys)
    /\ Sorted (fun e e' => before d (f e).1 (f e').1 = true) ranked.
Proof.
  intros Hent Hnd.
  set (ent := fun kr : Keyed => default VNull (kr.2 !! 0%nat)).
  set (rk := order_rows d (map f keys)).
  assert (Hperm : rk ≡ₚ map f keys) by apply merge_sort_Permutation.
  assert (Hfix : map f (map ent rk) = rk).
  { rewrite map_map. apply map_id_on. intros kr Hkr.
    rewrite Hperm in Hkr. apply list_elem_of_fmap in Hkr as (k & -> & _).
    unfold ent. by rewrite Hent. }
  assert (Hkeys : map ent rk ≡ₚ keys).
  { rewrite Hperm, map_map. rewrite (map_id_on (fun x => ent (f x))); [done|].
    intros k _. apply Hent. }
  exists (map ent rk). split; [done|]. split; [by rewrite Hkeys|].
  split; [intros e; by rewrite Hkeys|].
  apply (Sorted_fmap_inv f (key_before d)). rewrite Hfix.
  apply Sorted_merge_sort. apply _.
Qed.

(** The object a result row of the aggregation query is normalised to. *)
Lemma normalize_summary (c : Cfg) (t : Table) (srcCol v tgtCol : string)
    (l : list Value) :
  map (normalize (map out_name (related_items tgtCol)))
      (toArray c (mkResult (map out_name (related_items tgtCol))
                    (map (summary_values t srcCol v tgtCol) l)))
  = map (summary t srcCol v tgtCol) l.
Proof.
  unfold toArray. cbn [rs_rows rs_fields]. rewrite !map_map.
  apply map_ext. intros e. destruct (named_rows c); reflexivity.
Qed.

Lemma column_table_facts (d : EntityType) (cols : list string) :
  Forall (fun c => c ∈ cols) facts_columns -> column_table d ∈ cols.
Proof.
  intros H. rewrite Forall_forall in H. apply H.
  destruct d; simpl; set_solver.
Qed.



Example topRelated_sample :
  map brief <$> result_of (queryTopRelated (serving sample_facts (mkCfg true false))
                             contractor "ACME CORP" area 10 facts_url empty_db)
  = Some [ (Some (JV (VStr "Cebu")), Some (JV (VInt 1)), Some (JV (VInt 300)));
           (Some (JV (VStr "Metro")), Some (JV (VInt 2)), Some (JV (VInt 150))) ].
Proof. vm_compute. reflexivity. Qed.

End EngineFacts.

(** ** The listing query against the engine *)

Section Listing.
Import Engine Httpfs.

(** The select list never reads a column the probe did not find. *)
Lemma contracts_items_guarded (has : string -> bool) (i : Item) (c : string) :
  i ∈ contracts_items has -> c ∈ expr_cols (i_expr i) -> has c = true.
Proof.
  unfold contracts_items. intros Hi Hc.
  repeat (apply elem_of_cons in Hi as [->|Hi];
          [match goal with
           | H : context [if has ?x then _ else _] |- _ =>
               destruct (has x) eqn:E; simpl in H;
               [apply list_elem_of_singleton in H as ->; exact E
               |by apply elem_of_nil in H]
           end|]).
  by apply elem_of_nil in Hi.
Qed.

(** Whatever the probe found, the result has the nine expected fields. *)
Lemma contracts_items_names (has : string -> bool) :
  map out_name (contracts_items has) = contract_keys.
Proof.
  unfold contracts_items, contract_keys. simpl.
  repeat (apply (f_equal2 cons); [by destruct (has _)|]). done.
Qed.

(** The select list the engine parses is the one the text spells. *)
Lemma contracts_items_text (has : string -> bool) :
  map show_item (contracts_items has) = contracts_item_texts has.
Proof.
  unfold contracts_items, contracts_item_texts. simpl.
  repeat (apply (f_equal2 cons); [by destruct (has _)|]). done.
Qed.

(** The statements the engine is given are the ones the texts spell. *)
Lemma related_sql_clauses (srcCol v : string) (tgt : EntityType) (limit : Z) :
  related_sql srcCol (column_table tgt) v limit
  = Str.join nl
      [ EmptyString;
        "    CREATE OR REPLACE VIEW f AS SELECT * FROM parquet_scan('facts_related.parquet');";
        "    SELECT";
        "      " +:+ Str.join ("," +:+ nl +:+ "      ")
                       (map show_item (related_items (column_table tgt)));
        "    FROM f";
        "    WHERE " +:+ show_cond (CEq srcCol v);
        "      AND " +:+ show_cond (CNotNull (column_table tgt));
        "    GROUP BY 1";
        "    ORDER BY " +:+ show_order ("total_contract_value", DESC);
        "    LIMIT " +:+ pretty limit;
        "  " ].
Proof. destruct tgt; reflexivity. Qed.

Lemma contracts_order_text (orderBy : option OrderBy) :
  Sql.orderClause (show_order <$> orderBy)
  = "ORDER BY " +:+ show_order (default default_order orderBy).
Proof.
  destruct orderBy as [[c d]|]; [|reflexivity]. simpl.
  unfold show_order. simpl. destruct c; reflexivity.
Qed.
Lemma map_imap_inv {A B} (h : nat -> A -> B) (F : B -> A) (l : list A) :
  (forall i x, F (h i x) = x) -> map F (imap h l) = l.
Proof.
  revert h. induction l as [|x l IH]; intros h H; simpl; [done|].
  rewrite H. f_equal. apply IH. intros i y. apply H.
Qed.

(** The probe reads back the schema of the registered file. *)
Lemma probe_columns (c : Cfg) (t : Table) :
  map info_name (toArray c (table_info t)) = t_cols t.
Proof.
  unfold toArray, table_info. cbn [rs_rows rs_fields]. rewrite map_map.
  apply map_imap_inv. intros i x. destruct (named_rows c); reflexivity.
Qed.

Lemma probe_has (c : Cfg) (t : Table) (col : string) :
  bool_decide (col ∈ (list_to_set (map info_name (toArray c (table_info t))) : gset string))
  = has_col (t_cols t) col.
Proof.
  rewrite probe_columns. unfold has_col. apply bool_decide_ext.
  apply elem_of_list_to_set.
Qed.

Lemma contracts_items_plain (has : string -> bool) :
  existsb is_aggregate (map i_expr (contracts_items has)) = false.
Proof.
  unfold contracts_items. simpl.
  repeat match goal with
         | |- context [if has ?x then _ else _] => destruct (has x); simpl
         end; reflexivity.
Qed.

Lemma contracts_items_ext (has has' : string -> bool) :
  (forall c, has c = has' c) -> contracts_items has = contracts_items has'.
Proof. intros H. unfold contracts_items. by rewrite !H. Qed.

Lemma bind_conds_cols (c : Cfg) (cols : list string) (items : list Item)
    (conds : list Cond) :
  Forall (fun cd => cond_col cd ∈ cols) conds ->
  bind_conds c cols items conds = Ok (map (fun cd => (cd, ECol (cond_col cd))) conds).
Proof.
  induction conds as [|cd conds IH]; intros H; [done|].
  apply Forall_cons in H as [Hc H]. simpl.
  rewrite resolve_where_col by done. rewrite IH by done. done.
Qed.

Lemma index_of_elem (c : string) (cols : list string) :
  c ∈ cols -> is_Some (index_of c cols).
Proof.
  induction cols as [|x cols IH]; intros H; [by apply elem_of_nil in H|].
  simpl. destruct (String.eqb_spec c x) as [->|Hne]; [by eexists|].
  apply elem_of_cons in H as [?|H]; [done|].
  destruct (IH H) as [i ->]. by eexists.
Qed.





Lemma imap_snd (l : list string) :
  forall h : nat -> nat,
    map (fun ni : nat * string => ni.2) (imap (fun idx name => (h idx, name)) l) = l.
Proof.
  induction l as [|x l IH]; intros h; simpl; [done|].
  f_equal. apply (IH (fun i => h (S i))).
Qed.



Lemma contracts_select_ext (has has' : string -> bool) (filters : list Sql.Filter)
    (pageIndex pageSize : Z) (orderBy : option OrderBy) :
  (forall c, has c = has' c) ->
  contracts_select has filters pageIndex pageSize orderBy
  = contracts_select has' filters pageIndex pageSize orderBy.
Proof. intros H. unfold contracts_select. by rewrite (contracts_items_ext _ _ H). Qed.

Lemma query_create (c : Cfg) (db : Db) (last : ResultSet) (view file : string)
    (t : Table) :
  files db !! file = Some t ->
  exists db', query c db last [CreateView view file] = Ok (empty_result, db')
              /\ viewing db' view file t.
Proof.
  intros Hf. cbn [query exec bind]. rewrite Hf. cbn [bind]. eexists.
  split; [reflexivity|]. split; simpl; [apply lookup_insert_eq|done].
Qed.

Lemma query_table_info (c : Cfg) (db : Db) (last : ResultSet) (view file : string)
    (t : Table) :
  viewing db view file t ->
  query c db last [TableInfo view] = Ok (table_info t, db).
Proof.
  intros [Hv Hf]. cbn [query exec bind]. unfold view_table.
  by rewrite Hv, Hf.
Qed.

Lemma query_select (c : Cfg) (db : Db) (last : ResultSet) (file : string)
    (t : Table) (q : Select) (r : ResultSet) :
  viewing db (s_from q) file t ->
  eval_select c t q = Ok r ->
  query c db last [Sel q] = Ok (r, db).
Proof.
  intros [Hv Hf] He. cbn [query exec bind]. unfold view_table.
  rewrite Hv, Hf. cbn [bind]. by rewrite He.
Qed.


End Listing.

(** C4 (the code departs from it). Against a facts file that lacks the
    contractor name, the listing query filtered on a contractor fails
    with a binder error on [contractor_name], whether or not the engine
    lets a WHERE clause use a select alias and however it presents its
    rows: only the select list is guarded by the column probe, the
    WHERE clause of the data query and of the count query is not. On a
    file with the current layout the same call succeeds. *)
Theorem listing_fails_on_absent_filter_column :
  forall alias named : bool,
    let cfg := Engine.mkCfg alias named in
    let filters := [Sql.mkFilter "contractor" "ACME CORP"] in
    Httpfs.queryContractsByEntity (Httpfs.serving Httpfs.drifted_facts cfg)
      filters 0 20 (Some ("award_date", Engine.DESC)) Httpfs.facts_url Engine.empty_db
    = Engine.Err (Engine.BinderError "contractor_name")
    /\ Httpfs.totalCount
         <$> Httpfs.result_of
               (Httpfs.queryContractsByEntity (Httpfs.serving Httpfs.sample_facts cfg)
                  filters 0 20 (Some ("award_date", Engine.DESC))
                  Httpfs.facts_url Engine.empty_db)
       = Some 4
    /\ Sql.contracts_count_sql filters
       = "SELECT COUNT(" +:+ "*) AS c FROM facts_v WHERE contractor_name = 'ACME CORP'".
Proof.
  intros [] []; repeat split; vm_compute; reflexivity.
Qed.

(** ** Offsets of the contracts tab *)

Section Alignment.
Import Explorer.

Lemma Forall_filtered {A} (P Q : A -> Prop) `{!forall x, Decision (Q x)} (l : list A) :
  Forall P l -> Forall P (filter Q l).
Proof.
  rewrite !Forall_forall. intros Hall x [_ Hx]%list_elem_of_filter. by apply Hall.
Qed.

Lemma launch_aligned (calls : list (Request * Handler)) (e : Env) :
  Forall (fun rh => handler_aligned (0%nat, rh.2)) calls ->
  Forall handler_aligned (pending e) ->
  Forall handler_aligned (pending (launch calls e)).
Proof.
  revert e. induction calls as [|c calls IH]; intros e Hc He; [done|].
  apply Forall_cons in Hc as [Hc Hcs]. unfold launch in *. simpl.
  apply IH; [done|]. simpl. apply Forall_app. split; [done|].
  by constructor.
Qed.

Lemma tab_loads_aligned (d : EntityType) (v : string) (fs : list Sql.Filter)
    (url : string) :
  Forall (fun rh => handler_aligned (0%nat, rh.2)) (tab_loads d v fs url).
Proof.
  unfold tab_loads. apply Forall_app. split.
  - apply Forall_fmap, Forall_forall. intros et _. exact I.
  - by repeat constructor.
Qed.

Lemma debouncedModalContractsLoad_aligned (fs : list Sql.Filter) (off : Z)
    (ob : Httpfs.OrderBy) (s : State) :
  off mod 20 = 0 -> aligned s -> aligned (debouncedModalContractsLoad fs off ob s).
Proof.
  intros Hoff (Hm & Ht & Hp).
  destruct (clear_ref_timers (modalDebounceTimeoutRef s) (env s))
    as (Htm & _ & _ & _ & Hpe).
  unfold debouncedModalContractsLoad, aligned, setTimeout. simpl.
  rewrite Htm, Hpe. split; [done|]. split; [|done].
  apply Forall_app. split; [by apply Forall_filtered|]. by repeat constructor.
Qed.

Lemma debouncedLoad_aligned (pi : Z) (s : State) :
  aligned s -> aligned (debouncedLoad pi s).
Proof.
  intros (Hm & Ht & Hp).
  destruct (clear_ref_timers (debounceTimeoutRef s) (env s))
    as (Htm & _ & _ & _ & Hpe).
  unfold debouncedLoad, aligned, setTimeout. simpl.
  rewrite Htm, Hpe. split; [done|]. split; [|done].
  apply Forall_app. split; [by apply Forall_filtered|]. by repeat constructor.
Qed.

Lemma fire_aligned (s : State) (t : Timer) :
  timer_aligned t -> aligned s -> aligned (fire s t).
Proof.
  intros Ht (Hm & Hts & Hp). unfold fire, aligned, timer_aligned in *.
  destruct (tm_cb t) as [pi|fs off ob]; simpl.
  - split; [done|]. split; [by apply Forall_filtered|].
    apply Forall_app. split; [done|]. by repeat constructor.
  - split; [by destruct (modalData s) as [[d v t' c p]|]|].
    split; [by apply Forall_filtered|].
    apply Forall_app. split; [done|]. by repeat constructor.
Qed.

Lemma fires_aligned (l : list Timer) (s : State) :
  Forall timer_aligned l -> aligned s -> aligned (foldl fire s l).
Proof.
  revert s. induction l as [|t l IH]; intros s Hl Hs; [done|].
  apply Forall_cons in Hl as [Ht Hl]. simpl. apply IH; [done|].
  by apply fire_aligned.
Qed.

Lemma shift_aligned (x k : Z) : x mod 20 = 0 -> (x + k * 20) mod 20 = 0.
Proof. intros H. by rewrite Z_mod_plus_full. Qed.

Lemma aligned_step (s : State) (ev : Event) : aligned s -> aligned (step s ev).
Proof.
  intros Hs. pose proof Hs as (Hm & Ht & Hp).
  destruct ev as [|v|v et| | |key| | | | |pi|ms|id o|]; simpl.
  - unfold load, aligned. simpl. split; [done|]. split; [done|].
    apply Forall_app. split; [done|]. by repeat constructor.
  - unfold onDrill, aligned. simpl.
    destruct (launch_timers
      (tab_loads (srcDimForDataset (dataset (settings s))) v
         [Sql.mkFilter (dim_name (srcDimForDataset (dataset (settings s)))) v]
         (getFactsUrl (settings s))) (env s)) as (-> & _).
    split; [done|]. split; [done|].
    apply launch_aligned; [apply tab_loads_aligned|done].
  - unfold onModalDrill. destruct (modalData s) as [m|] eqn:E; [|done].
    unfold aligned. simpl.
    destruct (launch_timers
      (tab_loads et v (breadcrumbFilters (loading_modal et v (Some m)))
         (getFactsUrl (settings s))) (env s)) as (-> & _).
    split; [done|]. split; [done|].
    apply launch_aligned; [apply tab_loads_aligned|done].
  - unfold goBack, aligned.
    destruct (modalData s) as [m|]; [|done].
    destruct m as [d v' t c [p|]]; simpl in *; [|done]. by destruct Hm.
  - done.
  - destruct (contracts_shown s); [|done]. unfold onSortContracts.
    destruct (modalData s) eqn:E; by apply debouncedModalContractsLoad_aligned.
  - destruct (modalData s) as [m|] eqn:E; [|done].
    destruct (contracts_shown s && negb (prev_disabled m)); [|done].
    unfold onPrevContracts. rewrite E. destruct (0 <? _); [|done].
    apply debouncedModalContractsLoad_aligned; [|done].
    destruct m; simpl in *. destruct Hm as [Hm _].
    by apply (shift_aligned _ (-1)).
  - destruct (modalData s) as [m|] eqn:E; [|done].
    destruct (contracts_shown s && negb (next_disabled m)); [|done].
    unfold onNextContracts. rewrite E. destruct (_ <? _); [|done].
    apply debouncedModalContractsLoad_aligned; [|done].
    destruct m; simpl in *. destruct Hm as [Hm _].
    by apply (shift_aligned _ 1).
  - destruct (main_prev_disabled s); [done|]. by apply debouncedLoad_aligned.
  - destruct (main_next_disabled s); [done|]. by apply debouncedLoad_aligned.
  - by apply debouncedLoad_aligned.
  - unfold elapse.
    assert (Hd : Forall timer_aligned (due_timers (now (env s) + ms) (env s))).
    { apply Forall_forall. intros t [_ Hin]%elem_of_due_timers.
      rewrite Forall_forall in Ht. by apply Ht. }
    destruct (fires_aligned _ s Hd Hs) as (Hm' & Ht' & Hp'). done.
  - unfold settle. destruct (list_find _ _) as [[i [id' h]]|] eqn:Ef; [|done].
    apply list_find_Some in Ef as (Hl & _ & _).
    assert (Hh : handler_aligned (id', h)).
    { rewrite Forall_forall in Hp. apply Hp. by eapply list_elem_of_lookup_2. }
    unfold aligned. simpl. split; [|split; [done|by apply Forall_filtered]].
    destruct (modalData s) as [m|]; [|by destruct h, o].
    destruct m as [d v' t c p]; simpl in *.
    destruct h, o; simpl; try done; by destruct Hm.
  - unfold cleanup, aligned. simpl.
    destruct (clear_ref_timers (debounceTimeoutRef s) (env s)) as (H1 & _ & _ & _ & P1).
    destruct (clear_ref_timers (modalDebounceTimeoutRef s)
                (clear_ref (debounceTimeoutRef s) (env s))) as (H2 & _ & _ & _ & P2).
    rewrite H2, H1, P2, P1. split; [done|]. split; [|done].
    by apply Forall_filtered, Forall_filtered.
Qed.

(** In every state the component reaches, the offset of the contracts
    tab is a multiple of 20. *)
Lemma reachable_offsets_aligned (st : Settings) (evs : list Event) (m : DrillModalData) :
  modalData (run (initial st) evs) = Some m ->
  pageIndex (contracts m) mod 20 = 0.
Proof.
  assert (H : forall evs s, aligned s -> aligned (run s evs)).
  { clear. intros evs. induction evs as [|ev evs IH]; intros s Hs; [done|].
    simpl. apply IH. by apply aligned_step. }
  intros Hm. destruct (H evs (initial st)) as (Ha & _).
  { unfold aligned. simpl. done. }
  rewrite Hm in Ha. destruct m; simpl in *. by destruct Ha.
Qed.
End Alignment.

(** ** The engine singleton *)

Section SingletonFacts.
Import Singleton.

Lemma filter_awaiting_insert (l : list Call) (i : nat) (st : Stage) (c : Call) :
  l !! i = Some (Awaiting st) ->
  (length (filter awaiting (<[i := c]> l)) <= length (filter awaiting l))%nat.
Proof.
  revert i. induction l as [|x l IH]; intros [|i] H; try done.
  - injection H as ->. change (<[0%nat := c]> (Awaiting st :: l)) with (c :: l).
    rewrite (filter_cons_True awaiting (Awaiting st)) by done.
    destruct (decide (awaiting c)).
    + rewrite filter_cons_True by done. done.
    + rewrite filter_cons_False by done. simpl. lia.
  - change (<[S i := c]> (x :: l)) with (x :: <[i := c]> l).
    specialize (IH i H). destruct (decide (awaiting x)).
    + rewrite !filter_cons_True by done. simpl. lia.
    + rewrite !filter_cons_False by done. done.
Qed.

Lemma filter_awaiting_snoc (l : list Call) (c : Call) :
  length (filter awaiting (l ++ [c]))
  = (length (filter awaiting l) + if decide (awaiting c) then 1 else 0)%nat.
Proof.
  rewrite filter_app, length_app. f_equal.
  destruct (decide (awaiting c)).
  - by rewrite filter_cons_True.
  - by rewrite filter_cons_False.
Qed.

Lemma filter_awaiting_thrown (l : list Call) :
  Forall (fun c => c = Thrown) l -> filter awaiting l = [].
Proof.
  induction 1 as [|c l -> _ IH]; [done|].
  rewrite filter_cons_False; [done|]. simpl. tauto.
Qed.

Lemma page_wf_getDb (w : bool) (p : Page) : page_wf p -> page_wf (getDb w p).
Proof.
  unfold page_wf, getDb. destruct (db p) as [ref|] eqn:Hdb.
  - cbn [db heap calls]. intros (-> & Hh & Hc & Hr).
    split; [done|]. split; [done|]. split.
    + rewrite filter_awaiting_snoc. destruct (decide _) as [[]|]. lia.
    + apply Forall_app. split; [done|]. constructor; [|done]. by intros r [= <-].
  - intros [Hh Hc]. destruct w; cbn [db heap calls].
    + rewrite ?Hdb. split; [done|]. apply Forall_app. split; [done|]. by constructor.
    + rewrite Hh. split; [done|]. split; [done|]. split.
      * rewrite filter_awaiting_snoc, filter_awaiting_thrown by done.
        destruct (decide _); simpl; lia.
      * apply Forall_app. split.
        -- eapply Forall_impl; [exact Hc|]. by intros c -> r.
        -- constructor; [|done]. by intros r.
Qed.

Lemma page_wf_resume (i : nat) (ok : bool) (p : Page) :
  page_wf p -> page_wf (resume i ok p).
Proof.
  unfold page_wf, resume.
  destruct (calls p !! i) as [[st|r|]|] eqn:Hi; try done.
  destruct (db p) as [ref|] eqn:Hdb; [|by rewrite Hdb].
  intros (-> & Hh & Hc & Hr).
  destruct ok; cbn [db heap calls]; rewrite ?Hdb.
  - split; [done|]. split; [by rewrite length_alter|]. split.
    + etrans; [by eapply filter_awaiting_insert|done].
    + apply Forall_insert; [done|]. destruct st; simpl; try done. by intros r [= <-].
  - split; [done|]. split; [done|]. split.
    + etrans; [by eapply filter_awaiting_insert|done].
    + apply Forall_insert; [done|]. done.
Qed.

Lemma page_wf_step (p : Page) (ev : Event) : page_wf p -> page_wf (step p ev).
Proof.
  destruct ev; [apply page_wf_getDb | apply page_wf_resume].
Qed.

Lemma page_wf_run (evs : list Event) (p : Page) : page_wf p -> page_wf (run p evs).
Proof.
  revert p. induction evs as [|ev evs IH]; intros p H; [done|].
  simpl. apply IH. by apply page_wf_step.
Qed.

Lemma page_wf_initial : page_wf initial.
Proof. split; [done|]. constructor. Qed.

Lemma awaiting_unique (l : list Call) (i j : nat) (x y : Call) :
  (length (filter awaiting l) <= 1)%nat ->
  l !! i = Some x -> awaiting x -> l !! j = Some y -> awaiting y -> i = j.
Proof.
  revert i j. induction l as [|c l IH]; intros i j Hlen Hi Hx Hj Hy; [done|].
  destruct (decide (awaiting c)) as [Hc|Hc].
  - rewrite filter_cons_True in Hlen by done. cbn [length] in Hlen.
    assert (filter awaiting l = []) as Hnil.
    { destruct (filter awaiting l); [done|]. simpl in Hlen. lia. }
    assert (forall k z, l !! k = Some z -> awaiting z -> False) as Hno.
    { intros k z Hk Hz.
      assert (z ∈ filter awaiting l) as Hin.
      { apply list_elem_of_filter. split; [done|]. by eapply list_elem_of_lookup_2. }
      rewrite Hnil in Hin. by apply elem_of_nil in Hin. }
    destruct i as [|i], j as [|j]; try done.
    + exfalso. by eapply (Hno j y).
    + exfalso. by eapply (Hno i x).
    + exfalso. by eapply (Hno j y).
  - rewrite filter_cons_False in Hlen by done.
    destruct i as [|i], j as [|j]; simplify_eq/=; try done.
    f_equal. by eapply IH.
Qed.

Lemma stage_wf_getDb (w : bool) (p : Page) :
  page_wf p -> stage_wf p -> stage_wf (getDb w p).
Proof.
  unfold stage_wf, getDb, page_wf. intros Hwf Hst i st.
  destruct (db p) as [ref|] eqn:Hdb; cbn [db heap calls].
  - intros Hi. apply lookup_app_Some in Hi as [Hi|[_ Hi]]; [by eapply Hst|].
    by destruct (i - length (calls p))%nat as [|[|]].
  - destruct Hwf as [Hh Hc]. destruct w; cbn [db heap calls]; intros Hi.
    + apply lookup_app_Some in Hi as [Hi|[_ Hi]]; [by eapply Hst|].
      by destruct (i - length (calls p))%nat as [|[|]].
    + apply lookup_app_Some in Hi as [Hi|[_ Hi]].
      * rewrite Forall_lookup in Hc. by specialize (Hc _ _ Hi).
      * rewrite Hh. destruct (i - length (calls p))%nat as [|[|]]; by simplify_eq/=.
Qed.

Lemma stage_wf_resume (i : nat) (ok : bool) (p : Page) :
  page_wf p -> stage_wf p -> stage_wf (resume i ok p).
Proof.
  unfold stage_wf, resume, page_wf. intros Hwf Hst j st'.
  destruct (calls p !! i) as [[st|r|]|] eqn:Hi; try by apply Hst.
  destruct (db p) as [ref|] eqn:Hdb; [|by apply Hst].
  destruct Hwf as (-> & Hh & Hc & Hr).
  pose proof (Hst _ _ Hi) as Hheap.
  assert (forall c, <[i := c]> (calls p) !! j = Some (Awaiting st') ->
                    c = Awaiting st') as Hsame.
  { intros c Hj. destruct (decide (i = j)) as [->|Hne].
    - rewrite list_lookup_insert_eq in Hj by (by eapply lookup_lt_Some). congruence.
    - rewrite list_lookup_insert_ne in Hj by done.
      exfalso. apply Hne. by eapply (awaiting_unique (calls p)). }
  destruct ok; cbn [db heap calls]; intros Hj; apply Hsame in Hj.
  - rewrite Hheap. by destruct st; simplify_eq/=.
  - done.
Qed.

Lemma wf_run (evs : list Event) (p : Page) :
  page_wf p -> stage_wf p -> page_wf (run p evs) /\ stage_wf (run p evs).
Proof.
  revert p. induction evs as [|ev evs IH]; intros p H1 H2; [done|].
  simpl. apply IH.
  - by apply page_wf_step.
  - destruct ev; [by apply stage_wf_getDb | by apply stage_wf_resume].
Qed.

Lemma wf_reachable (evs : list Event) :
  page_wf (run initial evs) /\ stage_wf (run initial evs).
Proof. apply wf_run; [apply page_wf_initial|]. by intros i st. Qed.

(** X1. However calls of [getDb] and the settling of their awaited
    operations interleave, at most one engine is ever constructed, at
    most one call is initialising it, and every call that has returned
    has returned that engine, the one [db] refers to. *)
Theorem getDb_constructs_one_engine :
  forall evs : list Singleton.Event,
    let p := Singleton.run Singleton.initial evs in
    (length (Singleton.heap p) <= 1)%nat
    /\ (length (filter Singleton.awaiting (Singleton.calls p)) <= 1)%nat
    /\ (forall ref, Singleton.Returned ref ∈ Singleton.calls p ->
          Singleton.db p = Some ref /\ is_Some (Singleton.heap p !! ref)).
Proof.
  intros evs p. destruct (wf_reachable evs) as [Hwf _]. fold p in Hwf.
  unfold page_wf in Hwf. destruct (db p) as [ref|] eqn:Hdb.
  - destruct Hwf as (-> & Hh & Hc & Hr). split; [lia|]. split; [done|].
    intros r Hin. rewrite Forall_forall in Hr. rewrite (Hr _ Hin r eq_refl).
    split; [done|]. apply lookup_lt_is_Some. lia.
  - destruct Hwf as [Hh Hc]. rewrite Hh. split; [simpl; lia|]. split.
    + rewrite filter_awaiting_thrown by done. simpl. lia.
    + intros r Hin. rewrite Forall_forall in Hc. by specialize (Hc _ Hin).
Qed.

Lemma settled_step (p : Page) (ev : Event) (ref : nat) :
  db p = Some ref -> filter awaiting (calls p) = [] ->
  db (step p ev) = Some ref /\ heap (step p ev) = heap p
  /\ filter awaiting (calls (step p ev)) = []
  /\ exists later, calls (step p ev) = calls p ++ later
                   /\ Forall (fun c => c = Returned ref) later.
Proof.
  intros Hdb Hnone. destruct ev as [w|i ok]; cbn [step].
  - unfold getDb. rewrite Hdb. cbn [db heap calls]. repeat split; try done.
    + rewrite filter_app, Hnone. by rewrite filter_cons_False by (simpl; tauto).
    + exists [Returned ref]. split; [done|]. by constructor.
  - unfold resume.
    destruct (calls p !! i) as [[st|r|]|] eqn:Hi;
      try (repeat split; try done; exists []; split; [by rewrite app_nil_r|done]).
    exfalso. assert (Awaiting st ∈ filter awaiting (calls p)) as Hin.
    { apply list_elem_of_filter. split; [done|]. by eapply list_elem_of_lookup_2. }
    rewrite Hnone in Hin. by apply elem_of_nil in Hin.
Qed.

(** X2. Once an engine has been constructed and no call is initialising
    it any more, nothing [getDb] does changes it again: every later
    call returns it at once as it is, so an initialisation that failed
    is never tried again. *)
Theorem getDb_never_retries :
  forall (evs evs' : list Singleton.Event) (o : Singleton.AsyncDuckDB),
    let p := Singleton.run Singleton.initial evs in
    let p' := Singleton.run p evs' in
    Singleton.heap p = [o] ->
    filter Singleton.awaiting (Singleton.calls p) = [] ->
    Singleton.heap p' = [o]
    /\ Singleton.db p' = Some 0%nat
    /\ exists later,
         Singleton.calls p' = Singleton.calls p ++ later
         /\ Forall (fun c => c = Singleton.Returned 0) later.
Proof.
  intros evs evs' o p p' Hheap Hnone.
  assert (db p = Some 0%nat) as Hdb.
  { destruct (wf_reachable evs) as [Hwf _]. fold p in Hwf. unfold page_wf in Hwf.
    destruct (db p); [by destruct Hwf as [-> _]|].
    destruct Hwf as [Hh _]. by rewrite Hh in Hheap. }
  subst p'. clearbody p. clear evs. revert p Hheap Hnone Hdb.
  induction evs' as [|ev evs' IH]; intros p Hheap Hnone Hdb.
  - repeat split; try done. exists []. by rewrite app_nil_r.
  - destruct (settled_step p ev 0 Hdb Hnone) as (Hdb1 & Hh1 & Hn1 & l1 & Hc1 & Hl1).
    destruct (IH (step p ev)) as (Hh2 & Hdb2 & l2 & Hc2 & Hl2); try done.
    { by rewrite Hh1. }
    cbn [run foldl] in *. repeat split; try done.
    exists (l1 ++ l2). split.
    + unfold run in Hc2. by rewrite Hc2, Hc1, <- app_assoc.
    + by apply Forall_app.
Qed.

Lemma getDb_never_retries_witness :
  let p := Singleton.run Singleton.initial
             [Singleton.GetDb false; Singleton.Settle 0 false] in
  let p' := Singleton.run p [Singleton.GetDb false; Singleton.GetDb true] in
  Singleton.heap p = [Singleton.mkAsync false 0]
  /\ filter Singleton.awaiting (Singleton.calls p) = []
  /\ Singleton.heap p' = [Singleton.mkAsync false 0]
  /\ Singleton.calls p'
     = [Singleton.Thrown; Singleton.Returned 0; Singleton.Returned 0].
Proof.
  split; [reflexivity|]. split; [reflexivity|].
  destruct (getDb_never_retries
              [Singleton.GetDb false; Singleton.Settle 0 false]
              [Singleton.GetDb false; Singleton.GetDb true]
              (Singleton.mkAsync false 0) eq_refl eq_refl) as (H & _ & _).
  split; [exact H|reflexivity].
Defined.

(** X3. A call of [getDb] made while another call is still waiting for
    [instantiate] returns at once, with the engine that has not been
    instantiated yet. *)
Theorem getDb_returns_engine_not_ready :
  forall (evs : list Singleton.Event) (i : nat) (w : bool),
    let p := Singleton.run Singleton.initial evs in
    Singleton.calls p !! i = Some (Singleton.Awaiting Singleton.Instantiate) ->
    exists ref,
      Singleton.calls (Singleton.getDb w p)
      = Singleton.calls p ++ [Singleton.Returned ref]
      /\ Singleton.held (Singleton.getDb w p) (Singleton.Returned ref)
         = Some (Singleton.mkAsync false 0).
Proof.
  intros evs i w p Hi. destruct (wf_reachable evs) as [Hwf Hst]. fold p in Hwf, Hst.
  pose proof (Hst _ _ Hi) as Hheap. unfold page_wf in Hwf. unfold getDb.
  destruct (db p) as [ref|] eqn:Hdb.
  - destruct Hwf as (-> & _). exists 0%nat. cbn [calls held heap]. split; [done|].
    by rewrite Hheap.
  - destruct Hwf as [Hh _]. by rewrite Hh in Hheap.
Qed.

Lemma getDb_returns_engine_not_ready_witness :
  let p := Singleton.run Singleton.initial [Singleton.GetDb false] in
  Singleton.calls p !! 0%nat = Some (Singleton.Awaiting Singleton.Instantiate)
  /\ exists ref,
       Singleton.calls (Singleton.getDb false p)
       = Singleton.calls p ++ [Singleton.Returned ref]
       /\ Singleton.held (Singleton.getDb false p) (Singleton.Returned ref)
          = Some (Singleton.mkAsync false 0).
Proof.
  split; [reflexivity|].
  exact (getDb_returns_engine_not_ready [Singleton.GetDb false] 0 false eq_refl).
Defined.

End SingletonFacts.

(** ** Row shapes *)

Section RowShape.
Import Engine Httpfs.

Lemma foldl_insert_other {X} (key : X -> string) (val : X -> JsVal) (l : list X) :
  forall (m : gmap string JsVal) (k : string),
    k ∉ map key l ->
    foldl (fun obj x => <[key x := val x]> obj) m l !! k = m !! k.
Proof.
  induction l as [|y l IH]; intros m k Hk; [done|].
  cbn [foldl]. rewrite IH.
  - apply lookup_insert_ne. intros <-. apply Hk. simpl. by left.
  - intros Hin. apply Hk. simpl. by right.
Qed.

Lemma foldl_insert_elem {X} (key : X -> string) (val : X -> JsVal) (l : list X) :
  forall (m : gmap string JsVal) (x : X),
    NoDup (map key l) -> x ∈ l ->
    foldl (fun obj x => <[key x := val x]> obj) m l !! key x = Some (val x).
Proof.
  induction l as [|y l IH]; intros m x Hnd Hx; [by apply elem_of_nil in Hx|].
  cbn [map] in Hnd. apply NoDup_cons in Hnd as [Hy Hnd].
  cbn [foldl]. apply elem_of_cons in Hx as [->|Hx].
  - rewrite foldl_insert_other by done. apply lookup_insert_eq.
  - by apply IH.
Qed.

Lemma list_to_map_zip (fields : list string) :
  forall (a : list Value) (idx : nat) (k : string),
    NoDup fields -> fields !! idx = Some k ->
    (list_to_map (zip fields a) : gmap string Value) !! k = a !! idx.
Proof.
  induction fields as [|f fields IH]; intros a idx k Hnd Hk; [done|].
  apply NoDup_cons in Hnd as [Hf Hnd].
  destruct a as [|v a].
  - simpl. by rewrite lookup_empty, lookup_nil.
  - cbn [zip zip_with list_to_map foldr]. destruct idx as [|idx]; simplify_eq/=.
    + apply lookup_insert_eq.
    + rewrite lookup_insert_ne.
      * by apply IH.
      * intros <-. apply Hf. by eapply list_elem_of_lookup_2.
Qed.

(** A row read by name and the same row read by position normalise to
    the same object, when no two fields share a name. *)
Lemma normalize_shape (fields : list string) (a : list Value) :
  NoDup fields ->
  normalize fields (RowObj (list_to_map (zip fields a)))
  = normalize fields (RowArr a).
Proof.
  intros Hnd. apply map_eq. intros k. unfold normalize.
  destruct (decide (k ∈ fields)) as [Hin|Hin].
  - apply list_elem_of_lookup in Hin as [idx Hidx].
    rewrite (foldl_insert_elem (fun n : string => n) (js_get _) fields ∅ k);
      [|by rewrite map_id|by eapply list_elem_of_lookup_2].
    rewrite (foldl_insert_elem (fun ni : nat * string => ni.2)
               (fun ni => js_nth a ni.1) _ ∅ (idx, k)).
    + unfold js_get, js_nth. by rewrite (list_to_map_zip fields a idx k).
    + by rewrite imap_snd.
    + apply list_elem_of_lookup. exists idx. rewrite list_lookup_imap, Hidx. done.
  - rewrite (foldl_insert_other (fun n : string => n) (js_get _)) by (by rewrite map_id).
    rewrite (foldl_insert_other (fun ni : nat * string => ni.2)
               (fun ni => js_nth a ni.1)) by (by rewrite imap_snd).
    done.
Qed.

Lemma toArray_normalize (a n : bool) (r : ResultSet) :
  NoDup (rs_fields r) ->
  map (normalize (rs_fields r)) (toArray (mkCfg a n) r)
  = map (normalize (rs_fields r)) (map RowArr (rs_rows r)).
Proof.
  intros Hnd. unfold toArray. rewrite !map_map. apply map_ext. intros row.
  cbn [named_rows]. destruct n; [by apply normalize_shape|done].
Qed.

Lemma totalCount_shape (a n : bool) (r : ResultSet) :
  rs_fields r = ["c"] ->
  totalCount_of (toArray (mkCfg a n) r) = totalCount_of (map RowArr (rs_rows r)).
Proof.
  intros Hf. unfold toArray. cbn [named_rows]. destruct n; [|done].
  destruct (rs_rows r) as [|row rest]; [done|]. cbn [map totalCount_of].
  rewrite Hf. destruct row as [|v row]; [done|].
  cbn [zip zip_with list_to_map foldr]. unfold js_get, js_nth.
  by rewrite lookup_insert_eq.
Qed.

Lemma bind_conds_cfg (c c' : Cfg) (cols : list string) (items : list Item)
    (conds : list Cond) :
  alias_in_where c = alias_in_where c' ->
  bind_conds c cols items conds = bind_conds c' cols items conds.
Proof.
  intros H. induction conds as [|cd conds IH]; [done|].
  cbn [bind_conds]. by rewrite H, IH.
Qed.

Lemma eval_select_cfg (c c' : Cfg) (t : Table) (q : Select) :
  alias_in_where c = alias_in_where c' ->
  eval_select c t q = eval_select c' t q.
Proof. intros H. unfold eval_select. by rewrite (bind_conds_cfg c c'). Qed.

Lemma query_cfg (c c' : Cfg) (sts : list Statement) :
  alias_in_where c = alias_in_where c' ->
  forall db last, query c db last sts = query c' db last sts.
Proof.
  intros H. induction sts as [|st sts IH]; intros db last; [done|].
  cbn [query]. assert (exec c db st = exec c' db st) as ->.
  { destruct st; cbn [exec]; [done|done|].
    destruct (view_table db (s_from q)); [|done]. cbn [bind].
    by rewrite (eval_select_cfg c c'). }
  destruct (exec c' db st); [|done]. cbn [bind]. apply IH.
Qed.

Lemma eval_select_fields (c : Cfg) (t : Table) (q : Select) (r : ResultSet) :
  eval_select c t q = Ok r -> rs_fields r = map out_name (s_items q).
Proof.
  unfold eval_select.
  destruct (check_columns _ _); [|done]. cbn [bind].
  destruct (bind_conds _ _ _ _); [|done]. cbn [bind].
  destruct (check_range _ (s_limit q)); [|done]. cbn [bind].
  destruct (check_range _ (s_offset q)); [|done]. cbn [bind].
  destruct (s_order q) as [[oc d]|]; [|by intros [= <-]].
  destruct (index_of oc _).
  - destruct (_ || _); by intros [= <-].
  - destruct (_ || _); [done|]. destruct (has_col _ _); [|done]. by intros [= <-].
Qed.

Lemma query_sel_fields (c : Cfg) (db : Db) (last : ResultSet) (q : Select)
    (rd : ResultSet * Db) :
  query c db last [Sel q] = Ok rd -> rs_fields rd.1 = map out_name (s_items q).
Proof.
  cbn [query exec]. destruct (view_table db (s_from q)) as [t|]; [|done]. cbn [bind].
  destruct (eval_select c t q) as [r|] eqn:Hr; [|done]. cbn [bind].
  intros [= <-]. by eapply eval_select_fields.
Qed.

Lemma query_info_table (c : Cfg) (db : Db) (last : ResultSet) (v : string)
    (rd : ResultSet * Db) :
  query c db last [TableInfo v] = Ok rd -> exists t, rd.1 = table_info t.
Proof.
  cbn [query exec]. destruct (view_table db v) as [t|]; [|done]. cbn [bind].
  intros [= <-]. by exists t.
Qed.

Lemma contract_keys_NoDup : NoDup contract_keys.
Proof. by apply (bool_decide_unpack _). Qed.

Lemma contracts_shape (fetch : string -> option Table) (a n : bool)
    (filters : list Sql.Filter) (pageIndex pageSize : Z) (orderBy : option OrderBy)
    (url : string) (db : Db) :
  queryContractsByEntity (mkWorld fetch (mkCfg a n)) filters pageIndex pageSize
    orderBy url db
  = queryContractsByEntity (mkWorld fetch (mkCfg a false)) filters pageIndex pageSize
      orderBy url db.
Proof.
  unfold queryContractsByEntity, load_file. cbn [Httpfs.fetch cfg].
  destruct (fetch url) as [t0|]; [|done]. cbn [bind].
  rewrite (query_cfg (mkCfg a n) (mkCfg a false)) by done.
  destruct (query _ _ _ [CreateView _ _]) as [v|]; [|done]. cbn [bind].
  rewrite (query_cfg (mkCfg a n) (mkCfg a false)) by done.
  destruct (query _ _ _ [TableInfo _]) as [info|] eqn:Hinfo; [|done]. cbn [bind].
  destruct (query_info_table _ _ _ _ _ Hinfo) as [t Ht]. rewrite Ht.
  rewrite !probe_columns.
  rewrite (query_cfg (mkCfg a n) (mkCfg a false)) by done.
  destruct (query _ _ _ [Sel (contracts_select _ _ _ _ _)]) as [res|] eqn:Hres; [|done].
  cbn [bind].
  rewrite (query_cfg (mkCfg a n) (mkCfg a false)) by done.
  destruct (query _ _ _ [Sel (contracts_count_select _)]) as [count|] eqn:Hcount; [|done].
  cbn [bind].
  apply query_sel_fields in Hres, Hcount.
  cbn [contracts_select s_items] in Hres. rewrite contracts_items_names in Hres.
  rewrite !toArray_normalize by (rewrite Hres; apply contract_keys_NoDup).
  by rewrite !totalCount_shape.
Qed.

Lemma related_shape (fetch : string -> option Table) (a n : bool)
    (sourceDim targetDim : EntityType) (sourceValue : string) (limit : Z)
    (url : string) (db : Db) :
  queryTopRelated (mkWorld fetch (mkCfg a n)) sourceDim sourceValue targetDim
    limit url db
  = queryTopRelated (mkWorld fetch (mkCfg a false)) sourceDim sourceValue targetDim
      limit url db.
Proof.
  unfold queryTopRelated, load_file. cbn [Httpfs.fetch cfg].
  destruct (fetch url) as [t0|]; [|done]. cbn [bind].
  rewrite (query_cfg (mkCfg a n) (mkCfg a false)) by done.
  destruct (query _ _ _ _) as [rd|] eqn:Hrd; [|done]. cbn [bind].
  assert (rs_fields rd.1
          = ["entity"; "contract_count"; "total_contract_value";
             "average_contract_value"; "first_contract_date"; "last_contract_date"])
    as Hf.
  { revert Hrd. cbn [query]. destruct (exec _ _ (CreateView _ _)) as [v|]; [|done].
    cbn [bind]. intros H. apply (query_sel_fields _ _ empty_result) in H. exact H. }
  rewrite !toArray_normalize; [done| |]; rewrite Hf; by apply (bool_decide_unpack _).
Qed.

(** X4. The listing a call of [queryContractsByEntity] returns, its
    count and its failures are the same whether the engine hands rows
    over as objects with named properties or as positional arrays: the
    two branches of the column probe, of the row normalisation and of
    the count extraction agree. *)
Theorem listing_same_for_either_row_shape :
  forall (fetch : string -> option Engine.Table) (alias named named' : bool)
         (filters : list Sql.Filter) (pageIndex pageSize : Z)
         (orderBy : option Httpfs.OrderBy) (url : string) (db : Engine.Db),
    Httpfs.queryContractsByEntity
      (Httpfs.mkWorld fetch (Engine.mkCfg alias named))
      filters pageIndex pageSize orderBy url db
    = Httpfs.queryContractsByEntity
        (Httpfs.mkWorld fetch (Engine.mkCfg alias named'))
        filters pageIndex pageSize orderBy url db.
Proof.
  intros. rewrite (contracts_shape _ _ named). by rewrite (contracts_shape _ _ named').
Qed.

(** X5. The rows a call of [queryTopRelated] returns are the same
    whether the engine hands rows over as objects with named properties
    or as positional arrays. *)
Theorem related_same_for_either_row_shape :
  forall (fetch : string -> option Engine.Table) (alias named named' : bool)
         (sourceDim targetDim : EntityType) (sourceValue : string) (limit : Z)
         (url : string) (db : Engine.Db),
    Httpfs.queryTopRelated
      (Httpfs.mkWorld fetch (Engine.mkCfg alias named))
      sourceDim sourceValue targetDim limit url db
    = Httpfs.queryTopRelated
        (Httpfs.mkWorld fetch (Engine.mkCfg alias named'))
        sourceDim sourceValue targetDim limit url db.
Proof.
  intros. rewrite (related_shape _ _ named). by rewrite (related_shape _ _ named').
Qed.

End RowShape.

(** ** Pages of the listing *)

Section ListingPages.
Import Engine Httpfs.

Lemma contracts_kept (t : Table) (filters : list Sql.Filter) :
  filter (fun r => forallb (cond_holds (t_cols t) r)
                     (map (fun cd => (cd, ECol (cond_col cd)))
                          (map filter_cond filters)) = true)
         (t_rows t)
  = selected t filters.
Proof.
  unfold selected. apply list_filter_iff. intros r.
  rewrite forallb_forall, Forall_forall. split.
  - intros H f Hf. specialize (H (filter_cond f, ECol (cond_col (filter_cond f)))).
    unfold cond_holds in H. cbn in H. eapply bool_decide_eq_true_1, H.
    apply list_elem_of_In. rewrite <- list_fmap_compose.
    apply list_elem_of_fmap. by exists f.
  - intros H ce Hce. apply list_elem_of_In in Hce.
    rewrite <- list_fmap_compose in Hce.
    apply list_elem_of_fmap in Hce as (f & -> & Hf).
    unfold cond_holds. cbn. apply bool_decide_eq_true_2. by apply H.
Qed.

Lemma length_paged_ordered (d : Dir) (limit offset : Z) (l : list Keyed) :
  length (map snd (page (Some limit) (Some offset) (order_rows d l)))
  = (Z.to_nat limit `min` (length l - Z.to_nat offset))%nat.
Proof.
  rewrite length_map. unfold page. rewrite length_take, length_drop.
  unfold order_rows. by rewrite merge_sort_Permutation.
Qed.

Lemma eval_contracts_page (c : Cfg) (t : Table) (filters : list Sql.Filter)
    (pageIndex pageSize : Z) (orderBy : option OrderBy) :
  Forall (fun f => Sql.dimToCol_contracts (Sql.dim f) ∈ t_cols t) filters ->
  0 <= pageIndex -> 0 <= pageSize ->
  (default default_order orderBy).1 ∈ contract_keys
  \/ (default default_order orderBy).1 ∈ t_cols t ->
  exists out,
    eval_select c t (contracts_select (has_col (t_cols t)) filters pageIndex
                       pageSize orderBy)
    = Ok (mkResult contract_keys out)
    /\ length out
       = (Z.to_nat pageSize `min` (length (selected t filters) - Z.to_nat pageIndex))%nat.
Proof.
  intros Hf Hi Hp Ho. unfold eval_select, contracts_select.
  cbn [s_items s_where s_limit s_offset s_order s_group_by_first].
  rewrite contracts_items_names, contracts_items_plain.
  rewrite check_columns_ok.
  2:{ apply Forall_forall. intros col Hc.
      apply list_elem_of_In, in_flat_map in Hc as (i & Hi' & Hc).
      apply list_elem_of_In in Hi', Hc.
      pose proof (contracts_items_guarded _ i col Hi' Hc) as Hh.
      unfold has_col in Hh. by apply bool_decide_eq_true in Hh. }
  cbn [bind]. rewrite bind_conds_cols.
  2:{ apply Forall_fmap. eapply Forall_impl; [exact Hf|]. done. }
  cbn [bind check_range]. unfold Sql.contracts_offset.
  destruct (Z.ltb_spec pageSize 0) as [?|_]; [lia|].
  destruct (Z.ltb_spec pageIndex 0) as [?|_]; [lia|]. cbn [bind orb].
  rewrite contracts_kept.
  destruct (default default_order orderBy) as [oc d] eqn:Eo. simpl in Ho.
  destruct (index_of oc contract_keys) as [i|] eqn:Ei.
  - eexists. split; [reflexivity|].
    rewrite length_paged_ordered. unfold plain_keyed. by rewrite length_map.
  - destruct Ho as [Ho|Ho].
    { apply index_of_elem in Ho as [? Ho]. congruence. }
    rewrite has_col_true by done.
    eexists. split; [reflexivity|].
    rewrite length_paged_ordered. unfold plain_keyed. by rewrite length_map.
Qed.

Lemma eval_contracts_counted (c : Cfg) (t : Table) (filters : list Sql.Filter) :
  Forall (fun f => Sql.dimToCol_contracts (Sql.dim f) ∈ t_cols t) filters ->
  eval_select c t (contracts_count_select filters)
  = Ok (mkResult ["c"] [[VInt (Z.of_nat (length (selected t filters)))]]).
Proof.
  intros Hf. unfold eval_select, contracts_count_select.
  cbn [s_items s_where s_limit s_offset s_order s_group_by_first].
  rewrite check_columns_ok by constructor.
  cbn [bind]. rewrite bind_conds_cols.
  2:{ apply Forall_fmap. eapply Forall_impl; [exact Hf|]. done. }
  cbn [bind check_range]. rewrite contracts_kept. reflexivity.
Qed.



End ListingPages.

(** ** The drill path shown *)

Section TrailFacts.
Import Explorer Trail.

Lemma crumbs_loop_chain (m : DrillModalData) (acc : list (EntityType * string)) :
  crumbs_loop m acc
  = (map (fun c => (srcDim c, srcVal c)) (rev (chain m)) ++ acc)%list.
Proof.
  revert acc. induction m as [d v t c|d v t c p IH] using modal_chain_ind;
    intros acc; simpl.
  - done.
  - rewrite IH. rewrite map_app. simpl. by rewrite <- app_assoc.
Qed.

(** X8. The drill path shown above the tabs and the filters of the
    contracts listing are built from the same levels: root first, the
    i-th entry shows the label of the dimension and the value of the
    level the i-th filter constrains; the last entry, the open
    context, is the one styled as current, and an arrow follows every
    entry but the last. *)
Theorem breadcrumb_shows_the_filtered_levels :
  forall m : Explorer.DrillModalData,
    exists crumbs,
      Trail.renderBreadcrumb (Some m) = Some crumbs
      /\ length crumbs = length (Explorer.breadcrumbFilters m)
      /\ rev (Explorer.chain m) !! (Explorer.depth m - 1)%nat = Some m
      /\ forall (i : nat) (c : Explorer.DrillModalData),
           rev (Explorer.chain m) !! i = Some c ->
           crumbs !! i
           = Some (Trail.mkCrumb
                     (Trail.getEntityTypeLabel (Explorer.srcDim c) +:+ ": "
                        +:+ Explorer.srcVal c)
                     (bool_decide (i = (Explorer.depth m - 1)%nat))
                     (bool_decide (i < Explorer.depth m - 1)%nat))
           /\ Explorer.breadcrumbFilters m !! i
              = Some (Sql.mkFilter (dim_name (Explorer.srcDim c)) (Explorer.srcVal c)).
Proof.
  intros m. eexists. split; [reflexivity|].
  unfold breadcrumbFilters. rewrite crumbs_loop_chain, breadcrumb_loop_chain, !app_nil_r.
  split; [by rewrite length_imap, !length_map|]. split.
  { unfold depth. destruct m as [d v t c' p]. cbn [chain length rev].
    rewrite lookup_app_r by (rewrite length_rev; lia).
    rewrite length_rev. by replace (S _ - 1 - _)%nat with 0%nat by lia. }
  intros i c Hi. split.
  - rewrite list_lookup_imap, list_lookup_fmap, Hi. cbn [fmap option_fmap option_map].
    rewrite length_map, length_rev. done.
  - by rewrite list_lookup_fmap, Hi.
Qed.

End TrailFacts.

(** ** The Next button of the contracts tab *)

Section ContractsNext.
Import Explorer.

Lemma ceil_div_gt (t k n : Z) : 0 < n -> (k < - ((- t) / n) <-> k * n < t).
Proof.
  intros Hn.
  pose proof (Z.div_mod (- t) n ltac:(lia)) as Hd.
  pose proof (Z.mod_pos_bound (- t) n Hn) as Hr.
  split; intros H; nia.
Qed.





End ContractsNext.

(** ** Offsets of the main table *)

Section MainOffsetsFacts.
Import Explorer MainOffsets.


Lemma launch_requests_ok (calls : list (Request * Handler)) (e : Env) :
  Forall (fun rh => request_ok rh.1) calls ->
  Forall request_ok (log e) ->
  Forall request_ok (log (launch calls e)).
Proof.
  intros Hc He. rewrite launch_log. apply Forall_app. split; [done|].
  by apply Forall_fmap.
Qed.

Lemma tab_loads_ok (d : EntityType) (v : string) (fs : list Sql.Filter) (url : string) :
  Forall (fun rh => request_ok rh.1) (tab_loads d v fs url).
Proof.
  unfold tab_loads. apply Forall_app. split.
  - apply Forall_fmap, Forall_forall. intros et _. exact I.
  - constructor; [exact I|constructor].
Qed.

Lemma debouncedModalContractsLoad_ok (fs : list Sql.Filter) (off : Z)
    (ob : Httpfs.OrderBy) (s : State) :
  offsets_ok s -> offsets_ok (debouncedModalContractsLoad fs off ob s).
Proof.
  intros (Hm & Ht & Hl).
  destruct (clear_ref_timers (modalDebounceTimeoutRef s) (env s))
    as (Htm & _ & _ & Hlog & _).
  unfold debouncedModalContractsLoad, offsets_ok, setTimeout. simpl.
  rewrite Htm, Hlog. split; [done|]. split; [|done].
  apply Forall_app. split; [by apply Forall_filtered|]. constructor; [exact I|constructor].
Qed.

Lemma debouncedLoad_ok (pi : Z) (s : State) :
  offset_ok pi -> offsets_ok s -> offsets_ok (debouncedLoad pi s).
Proof.
  intros Hpi (Hm & Ht & Hl).
  destruct (clear_ref_timers (debounceTimeoutRef s) (env s))
    as (Htm & _ & _ & Hlog & _).
  unfold debouncedLoad, offsets_ok, setTimeout. simpl.
  rewrite Htm, Hlog. split; [done|]. split; [|done].
  apply Forall_app. split; [by apply Forall_filtered|]. constructor; [exact Hpi|constructor].
Qed.

Lemma setPageIndex_ok (pi : Z) (s : State) :
  offset_ok pi -> offsets_ok s -> offsets_ok (setPageIndex pi s).
Proof. intros Hpi (Hm & Ht & Hl). by split. Qed.

Lemma fire_ok (s : State) (t : Timer) :
  timer_ok t -> offsets_ok s -> offsets_ok (fire s t).
Proof.
  intros Ht (Hm & Hts & Hl). unfold fire, offsets_ok, timer_ok in *.
  destruct (tm_cb t) as [pi|fs off ob]; simpl.
  - split; [done|]. split; [by apply Forall_filtered|].
    apply Forall_app. split; [done|]. constructor; [by split|constructor].
  - split; [done|]. split; [by apply Forall_filtered|].
    apply Forall_app. split; [done|]. constructor; [exact I|constructor].
Qed.

Lemma fires_ok (l : list Timer) (s : State) :
  Forall timer_ok l -> offsets_ok s -> offsets_ok (foldl fire s l).
Proof.
  revert s. induction l as [|t l IH]; intros s Hl Hs; [done|].
  apply Forall_cons in Hl as [Ht Hl]. simpl. apply IH; [done|].
  by apply fire_ok.
Qed.

Lemma offsets_ok_step (s : State) (ev : Event) :
  trigger_ok ev -> offsets_ok s -> offsets_ok (step s ev).
Proof.
  intros Hev Hs. pose proof Hs as (Hm & Ht & Hl).
  destruct ev as [|v|v et| | |key| | | | |pi|ms|id o|]; cbn [step].
  - unfold load, offsets_ok. simpl. split; [done|]. split; [done|].
    apply Forall_app. split; [done|]. constructor; [by split|constructor].
  - unfold onDrill, offsets_ok. simpl.
    destruct (launch_timers
      (tab_loads (srcDimForDataset (dataset (settings s))) v
         [Sql.mkFilter (dim_name (srcDimForDataset (dataset (settings s)))) v]
         (getFactsUrl (settings s))) (env s)) as (-> & _).
    split; [done|]. split; [done|].
    apply launch_requests_ok; [apply tab_loads_ok|done].
  - unfold onModalDrill. destruct (modalData s) as [m|] eqn:E; [|done].
    unfold offsets_ok. simpl.
    destruct (launch_timers
      (tab_loads et v (breadcrumbFilters (loading_modal et v (Some m)))
         (getFactsUrl (settings s))) (env s)) as (-> & _).
    split; [done|]. split; [done|].
    apply launch_requests_ok; [apply tab_loads_ok|done].
  - unfold goBack. destruct (modalData s) as [m|]; [|done].
    by destruct (parentModal m).
  - done.
  - destruct (contracts_shown s); [|done]. unfold onSortContracts.
    destruct (modalData s) eqn:E; by apply debouncedModalContractsLoad_ok.
  - destruct (modalData s) as [m|] eqn:E; [|done].
    destruct (contracts_shown s && negb (prev_disabled m)); [|done].
    unfold onPrevContracts. rewrite E. destruct (0 <? _); [|done].
    by apply debouncedModalContractsLoad_ok.
  - destruct (modalData s) as [m|] eqn:E; [|done].
    destruct (contracts_shown s && negb (next_disabled m)); [|done].
    unfold onNextContracts. rewrite E. destruct (_ <? _); [|done].
    by apply debouncedModalContractsLoad_ok.
  - destruct (main_prev_disabled s); [done|]. unfold onPrevMain.
    assert (offset_ok (Z.max 0 (main_pageIndex (main s) - pageSize))) as Hnew.
    { destruct Hm as [H0 Hmod]. unfold offset_ok, pageSize in *.
      destruct (Z.max_spec 0 (main_pageIndex (main s) - 10)) as [[Hlt ->]|[_ ->]].
      - split; [lia|]. by rewrite Zminus_mod, Hmod.
      - done. }
    apply debouncedLoad_ok; [done|]. by apply setPageIndex_ok.
  - destruct (main_next_disabled s); [done|]. unfold onNextMain.
    assert (offset_ok (main_pageIndex (main s) + pageSize)) as Hnew.
    { destruct Hm as [H0 Hmod]. unfold offset_ok, pageSize in *.
      split; [lia|]. by rewrite Z.add_mod, Hmod by lia. }
    apply debouncedLoad_ok; [done|]. by apply setPageIndex_ok.
  - by apply debouncedLoad_ok.
  - unfold elapse.
    assert (Hd : Forall timer_ok (due_timers (now (env s) + ms) (env s))).
    { apply Forall_forall. intros t [_ Hin]%elem_of_due_timers.
      rewrite Forall_forall in Ht. by apply Ht. }
    destruct (fires_ok _ s Hd Hs) as (Hm' & Ht' & Hl'). done.
  - unfold settle. destruct (list_find _ _) as [[i [id' h]]|] eqn:Ef; [|done].
    unfold offsets_ok. simpl. split; [|done].
    by destruct h, o.
  - unfold cleanup, offsets_ok. simpl.
    destruct (clear_ref_timers (debounceTimeoutRef s) (env s)) as (H1 & _ & _ & L1 & _).
    destruct (clear_ref_timers (modalDebounceTimeoutRef s)
                (clear_ref (debounceTimeoutRef s) (env s))) as (H2 & _ & _ & L2 & _).
    rewrite H2, H1, L2, L1. split; [done|]. split; [|done].
    by apply Forall_filtered, Forall_filtered.
Qed.

Lemma offsets_ok_run (evs : list Event) (s : State) :
  Forall trigger_ok evs -> offsets_ok s -> offsets_ok (run s evs).
Proof.
  revert s. induction evs as [|ev evs IH]; intros s Hevs Hs; [done|].
  apply Forall_cons in Hevs as [Hev Hevs]. simpl. apply IH; [done|].
  by apply offsets_ok_step.
Qed.

(** X10. Whatever the user does, the main table's offset stays a
    non-negative whole number of pages of 10, and every call of
    [queryParquetPaged] the component makes passes such an offset and
    the page size 10: Previous clamps at 0 and Next adds one page. *)
Theorem main_table_offsets_stay_in_order :
  forall (st : Explorer.Settings) (evs : list Explorer.Event),
    Forall MainOffsets.trigger_ok evs ->
    let s := Explorer.run (Explorer.initial st) evs in
    (0 <= Explorer.main_pageIndex (Explorer.main s)
     /\ Explorer.main_pageIndex (Explorer.main s) mod 10 = 0)
    /\ forall url pi size opts,
         Explorer.ParquetPaged url pi size opts ∈ Explorer.log (Explorer.env s) ->
         0 <= pi /\ pi mod 10 = 0 /\ size = 10.
Proof.
  intros st evs Hevs s.
  destruct (offsets_ok_run evs (initial st) Hevs) as (Hm & _ & Hl).
  { split; [by split|]. split; constructor. }
  fold s in Hm, Hl. split; [exact Hm|].
  intros url pi size opts Hin. rewrite Forall_forall in Hl.
  destruct (Hl _ Hin) as [[H0 H1] H2]. done.
Qed.

Lemma main_table_offsets_stay_in_order_witness :
  let evs := [ Explorer.Init; Explorer.Settle 0 (Explorer.Resolved [] 25);
               Explorer.PrevMain; Explorer.NextMain; Explorer.Elapse 1000;
               Explorer.Settle 1 (Explorer.Resolved [] 25);
               Explorer.PrevMain; Explorer.PrevMain; Explorer.Elapse 1000 ] in
  let s := Explorer.run (Explorer.initial Explorer.mounted_settings) evs in
  Forall MainOffsets.trigger_ok evs
  /\ Explorer.main_pageIndex (Explorer.main s) = 0
  /\ length (Explorer.log (Explorer.env s)) = 3%nat
  /\ forall url pi size opts,
       Explorer.ParquetPaged url pi size opts ∈ Explorer.log (Explorer.env s) ->
       0 <= pi /\ pi mod 10 = 0 /\ size = 10.
Proof.
  intros evs s.
  assert (Forall MainOffsets.trigger_ok evs) as Hevs by (repeat constructor).
  split; [exact Hevs|]. split; [vm_compute; reflexivity|].
  split; [vm_compute; reflexivity|].
  exact (proj2 (main_table_offsets_stay_in_order Explorer.mounted_settings evs Hevs)).
Defined.

End MainOffsetsFacts.

(** ** The name filter *)

Section NameFilter.
Import MainQuery.

Lemma append_assoc (a b c : string) : (a +:+ b) +:+ c = a +:+ (b +:+ c).
Proof.
  induction a as [|x a IH]; [done|].
  change (String x ((a +:+ b) +:+ c) = String x (a +:+ (b +:+ c))). by rewrite IH.
Qed.

Lemma esc_app (a b : string) : Str.esc (a +:+ b) = Str.esc a +:+ Str.esc b.
Proof.
  induction a as [|x a IH]; [done|].
  change (Str.esc (String x (a +:+ b)) = Str.esc (String x a) +:+ Str.esc b).
  cbn [Str.esc]. destruct (Ascii.eqb x Str.quote); rewrite IH; reflexivity.
Qed.

(** X13. The text typed into the search box cannot leave the string
    literal it is put in. With a blank filter the condition [load]
    builds is the constant one; otherwise it is a LIKE test against one
    literal, which the engine's lexer reads back as the trimmed,
    lower-cased text between two percent signs, whatever apostrophes
    the text holds, and after which the constant condition follows
    unchanged. Either way the condition is not empty, so both queries
    of [queryParquetPaged] carry it. *)
Theorem name_filter_stays_inside_literal :
  forall (trim toLowerCase : string -> string) (nameFilter : string),
    let w := MainQuery.where_ trim toLowerCase nameFilter in
    (forall sortBy sortDir,
        Sql.paged_where
          (Some (MainQuery.load_opts trim toLowerCase nameFilter sortBy sortDir))
        = "WHERE " +:+ w)
    /\ (trim nameFilter = EmptyString -> w = "contract_count > 0")
    /\ (trim nameFilter <> EmptyString ->
        exists body,
          w = "lower(entity) LIKE '" +:+ body
          /\ Str.lex_literal body
             = Some ("%" +:+ toLowerCase (trim nameFilter) +:+ "%",
                     " AND contract_count > 0")).
Proof.
  intros trim lower f w. subst w.
  assert (forall sortBy sortDir,
             Sql.paged_where (Some (load_opts trim lower f sortBy sortDir))
             = "WHERE " +:+ where_ trim lower f) as Hw.
  { intros sortBy sortDir. unfold Sql.paged_where, load_opts, where_, whereParts.
    cbn [Sql.o_where]. by destruct (String.eqb (trim f) EmptyString). }
  split; [exact Hw|]. unfold where_, whereParts.
  destruct (String.eqb_spec (trim f) EmptyString) as [He|Hne].
  - split; [done|]. by intros [].
  - split; [done|]. intros _.
    exists (Str.esc ("%" +:+ lower (trim f) +:+ "%")
            +:+ String Str.quote " AND contract_count > 0").
    split.
    + cbn [app Str.join]. rewrite !esc_app.
      change (Str.esc "%") with "%".
      rewrite !append_assoc. reflexivity.
    + apply lex_esc. done.
Qed.

Example name_filter_sample :
  MainQuery.where_ (fun s => s) (fun s => s) "o'neil"
  = "lower(entity) LIKE '%o''neil%' AND contract_count > 0".
Proof. reflexivity. Qed.

End NameFilter.

(** ** The pagers of [DuckDBDemo] *)

Section DemoFacts.
Import Demo.

Lemma demo_next_enabled (p t : Z) :
  p mod 20 = 0 -> contracts_disabled Next p t = false <-> p + 20 < t.
Proof.
  intros Ha. unfold contracts_disabled, getCurrentPage, getTotalPages.
  rewrite Z.leb_gt.
  pose proof (Z.div_mod p 20 ltac:(lia)) as Hp.
  pose proof (ceil_div_gt t (p / 20 + 1) 20 ltac:(lia)) as H.
  lia.
Qed.

Lemma demo_prev_enabled (p : Z) :
  0 <= p -> p mod 20 = 0 -> contracts_disabled Prev p 0 = false <-> 20 <= p.
Proof.
  intros H0 Ha. unfold contracts_disabled, getCurrentPage.
  rewrite Z.eqb_neq.
  pose proof (Z.div_mod p 20 ltac:(lia)) as Hp.
  pose proof (Z.div_pos p 20 H0 ltac:(lia)).
  lia.
Qed.

Lemma demo_contracts_page_ok (t p : Z) (b : Button) :
  contracts_ok t p -> contracts_ok t (contracts_page t p b).
Proof.
  intros (H0 & Ha & Hlt). unfold contracts_page.
  destruct (contracts_disabled b p t) eqn:Hd; [done|].
  destruct b; unfold contracts_click.
  - assert (20 <= p) as Hp.
    { apply (demo_prev_enabled p H0 Ha). exact Hd. }
    destruct (Z.ltb_spec 0 (getCurrentPage p)); [|done]. simpl.
    split; [lia|]. split; [by rewrite Zminus_mod, Ha|]. right. lia.
  - apply (demo_next_enabled p t Ha) in Hd.
    destruct (Z.ltb_spec (getCurrentPage p) (getTotalPages t - 1)); [|done].
    simpl. split; [lia|]. split; [by rewrite Z.add_mod, Ha by lia|].
    right. lia.
Qed.

Lemma demo_contracts_reachable (t : Z) (clicks : list Button) :
  forall p, contracts_ok t p -> contracts_ok t (foldl (contracts_page t) p clicks).
Proof.
  induction clicks as [|b clicks IH]; intros p Hp; [done|].
  simpl. apply IH. by apply demo_contracts_page_ok.
Qed.

(** X11. In the earlier component the pager of the contracts tab
    walks exactly the pages that have rows. Starting from offset 0 and
    with the count unchanged, the offset stays a non-negative whole
    number of pages of 20 and, past the first page, below the count;
    Previous is enabled exactly from the second page on and Next
    exactly while rows remain beyond the current page; and whenever a
    button is enabled its handler does send a request, for an offset
    that is not negative and has rows. *)
Theorem demo_contracts_pager_walks_the_pages :
  forall (t : Z) (clicks : list Demo.Button),
    let p := foldl (Demo.contracts_page t) 0 clicks in
    (0 <= p /\ p mod 20 = 0 /\ (p = 0 \/ p < t))
    /\ (Demo.contracts_disabled Demo.Prev p t = false <-> 20 <= p)
    /\ (Demo.contracts_disabled Demo.Next p t = false <-> p + 20 < t)
    /\ (forall b : Demo.Button,
          Demo.contracts_disabled b p t = false ->
          exists off,
            Demo.contracts_click b p t = Some off
            /\ 0 <= off < t /\ off mod 20 = 0).
Proof.
  intros t clicks p.
  assert (contracts_ok t p) as (H0 & Ha & Hlt).
  { apply demo_contracts_reachable. split; [lia|]. split; [done|]. by left. }
  split; [done|]. split; [by apply demo_prev_enabled|].
  split; [by apply demo_next_enabled|].
  intros b Hd.
  pose proof (demo_contracts_page_ok t p b (conj H0 (conj Ha Hlt))) as Hok.
  unfold contracts_page in Hok. rewrite Hd in Hok.
  destruct b; unfold contracts_click in *.
  - apply (demo_prev_enabled p H0 Ha) in Hd.
    destruct (Z.ltb_spec 0 (getCurrentPage p)) as [_|Hc].
    + eexists. split; [done|]. simpl in Hok. destruct Hok as (? & ? & ?). lia.
    + exfalso. unfold getCurrentPage in Hc.
      pose proof (Z.div_mod p 20 ltac:(lia)). lia.
  - apply (demo_next_enabled p t Ha) in Hd.
    destruct (Z.ltb_spec (getCurrentPage p) (getTotalPages t - 1)) as [_|Hc].
    + eexists. split; [done|]. simpl in Hok. destruct Hok as (? & ? & ?). lia.
    + exfalso. unfold getCurrentPage, getTotalPages in Hc.
      pose proof (Z.div_mod p 20 ltac:(lia)).
      pose proof (ceil_div_gt t (p / 20 + 1) 20 ltac:(lia)). lia.
Qed.

Lemma demo_main_page_ok (total p : Z) (b : Button) :
  0 <= p /\ (p = 0 \/ load_offset p < total) ->
  0 <= main_page total p b
  /\ (main_page total p b = 0 \/ load_offset (main_page total p b) < total).
Proof.
  unfold load_offset, Sql.paged_offset, main_page, main_disabled, main_click, pageSize.
  intros [H0 Hlt]. destruct b.
  - destruct (Z.eqb_spec p 0); [lia|]. lia.
  - destruct (Z.leb_spec total ((p + 1) * 10)); lia.
Qed.

(** X12. In the earlier component the main table counts pages, and
    [queryParquetPaged] turns the page number into a row offset by
    multiplying with the page size. Starting from page 0 and with the
    total unchanged, the page number stays non-negative and, past the
    first page, the query's offset stays below the total; Next is
    enabled exactly while the next page has rows. *)
Theorem demo_main_pager_walks_the_pages :
  forall (total : Z) (clicks : list Demo.Button),
    let p := foldl (Demo.main_page total) 0 clicks in
    0 <= p
    /\ Demo.load_offset p = p * 10
    /\ (p = 0 \/ Demo.load_offset p < total)
    /\ (Demo.main_disabled Demo.Prev p total = false <-> 0 < p)
    /\ (Demo.main_disabled Demo.Next p total = false
        <-> Demo.load_offset (p + 1) < total).
Proof.
  intros total clicks p.
  assert (0 <= p /\ (p = 0 \/ load_offset p < total)) as [H0 Hlt].
  { assert (forall q, 0 <= q /\ (q = 0 \/ load_offset q < total) ->
                      0 <= foldl (main_page total) q clicks
                      /\ (foldl (main_page total) q clicks = 0
                          \/ load_offset (foldl (main_page total) q clicks) < total)) as H.
    { induction clicks as [|b clicks IH]; intros q Hq; [done|].
      simpl. apply IH. by apply demo_main_page_ok. }
    apply (H 0). split; [lia|by left]. }
  split; [done|]. split; [done|]. split; [done|].
  unfold main_disabled, load_offset, Sql.paged_offset, pageSize.
  rewrite Z.eqb_neq, Z.leb_gt. lia.
Qed.

End DemoFacts.

(** ** The filter bar and the main table *)

Section BarFacts.
Import Bar.
Variables trim toLowerCase : string -> string.

#[local] Abbreviation render := (Bar.render).
#[local] Abbreviation step := (Bar.step trim toLowerCase).
#[local] Abbreviation run := (Bar.run trim toLowerCase).
#[local] Abbreviation load := (Bar.load trim toLowerCase).
#[local] Abbreviation fire := (Bar.fire trim toLowerCase).
#[local] Abbreviation elapse := (Bar.elapse trim toLowerCase).
#[local] Abbreviation handle := (Bar.handle trim toLowerCase).
#[local] Abbreviation load_request := (Bar.load_request trim toLowerCase).

Lemma timers_wf_kept (s : State) :
  timers_wf s ->
  match debounceTimeoutRef s with
  | Some id => filter (fun t => tm_id t ≠ id) (timers (env s))
  | None => timers (env s)
  end = [].
Proof.
  intros [_ Href]. destruct (debounceTimeoutRef s) as [id|] eqn:E.
  - apply filter_none. intros t Ht Hne. apply Hne.
    specialize (Href t Ht). congruence.
  - destruct (timers (env s)) as [|t l]; [done|].
    specialize (Href t ltac:(left)). done.
Qed.

Lemma debouncedLoad_spec (pi : Z) (s : State) :
  timers_wf s ->
  debouncedLoad pi s
  = mkState (view s)
      (mkTable (rows (table s)) (total (table s)) (error (table s))
               (pageIndex (table s)) (loading (table s))
               (dbInitializing (table s)) true)
      (memo s) (seen s) (Some (next_timer (env s)))
      (mkEnv (now (env s))
             [mkTimer (next_timer (env s)) (now (env s) + 1000) pi (memo s)]
             (Pos.succ (next_timer (env s))) (log (env s)) (pending (env s))).
Proof.
  intros Hwf. unfold debouncedLoad. by rewrite (timers_wf_kept s Hwf).
Qed.

Lemma debouncedLoad_wf (pi : Z) (s : State) :
  timers_wf s -> timers_wf (debouncedLoad pi s).
Proof.
  intros Hwf. rewrite debouncedLoad_spec by done. split; simpl.
  - apply NoDup_singleton.
  - intros t ->%list_elem_of_singleton. done.
Qed.

Lemma bar_timers_same (s s' : State) :
  timers (env s') = timers (env s) ->
  debounceTimeoutRef s' = debounceTimeoutRef s ->
  timers_wf s -> timers_wf s'.
Proof. unfold timers_wf. intros -> ->. done. Qed.

Lemma render_wf (s : State) : timers_wf s -> timers_wf (render s) /\ rendered (render s).
Proof.
  intros Hwf. unfold render.
  set (v := view s). set (db := dbInitializing (table s)).
  set (memo' := if decide (c_view (memo s) = v) then memo s else mkClosure v db).
  set (s0 := mkState v (table s) memo' (v, db) (debounceTimeoutRef s) (env s)).
  assert (c_view memo' = v) as Hmemo.
  { unfold memo'. by destruct (decide _). }
  assert (timers_wf s0 /\ rendered s0) as H0.
  { split; [by apply (bar_timers_same s)|]. split; [exact Hmemo|reflexivity]. }
  assert (forall (b : bool) (s' : State),
             timers_wf s' /\ rendered s' ->
             dbInitializing (table s') = db ->
             let s'' := if b && negb db
                        then debouncedLoad (pageIndex (table s')) s' else s' in
             (timers_wf s'' /\ rendered s'') /\ dbInitializing (table s'') = db) as Heff.
  { intros b s' [Hw Hr] Hdb. destruct (b && negb db); [|done].
    split; [split; [by apply debouncedLoad_wf|]|].
    - rewrite debouncedLoad_spec by done. destruct Hr as [Hr1 Hr2]. by split.
    - by rewrite debouncedLoad_spec. }
  destruct (Heff (negb (bool_decide
              ((timeRange (seen s).1, selectedYear (seen s).1,
                selectedQuarter (seen s).1, (seen s).2)
               = (timeRange v, selectedYear v, selectedQuarter v, db)))) s0 H0 eq_refl)
    as [H1 Hd1].
  by destruct (Heff (negb (bool_decide ((dataset (seen s).1, (seen s).2) = (dataset v, db))))
                _ H1 Hd1) as [H2 _].
Qed.

(** A render after which no effect runs. *)
Lemma render_quiet (s : State) :
  timeRange (seen s).1 = timeRange (view s) ->
  selectedYear (seen s).1 = selectedYear (view s) ->
  selectedQuarter (seen s).1 = selectedQuarter (view s) ->
  dataset (seen s).1 = dataset (view s) ->
  (seen s).2 = dbInitializing (table s) ->
  render s
  = mkState (view s) (table s)
      (if decide (c_view (memo s) = view s) then memo s
       else mkClosure (view s) (dbInitializing (table s)))
      (view s, dbInitializing (table s)) (debounceTimeoutRef s) (env s).
Proof.
  intros H1 H2 H3 H4 H5. unfold render. rewrite H1, H2, H3, H4, H5.
  rewrite !bool_decide_eq_true_2 by done. done.
Qed.

Lemma load_timers (c : Closure) (pi : Z) (s : State) :
  timers (env (load c pi s)) = timers (env s)
  /\ debounceTimeoutRef (load c pi s) = debounceTimeoutRef s.
Proof. done. Qed.

Lemma timers_wf_filtered (s s' : State) (P : Timer -> Prop)
    `{!forall t, Decision (P t)} :
  timers (env s') = filter P (timers (env s)) ->
  debounceTimeoutRef s' = debounceTimeoutRef s ->
  timers_wf s -> timers_wf s'.
Proof.
  intros Ht Hr [Hnd Href]. unfold timers_wf. rewrite Ht, Hr. split.
  - eapply sublist_NoDup; [exact Hnd|]. apply fmap_sublist, sublist_filter.
  - intros t' [_ Ht']%list_elem_of_filter. by apply Href.
Qed.

Lemma fire_wf (s : State) (t : Timer) :
  timers_wf s -> timers_wf (fire s t) /\ rendered (fire s t).
Proof.
  intros Hw. unfold Bar.fire. apply render_wf.
  by apply (timers_wf_filtered s _ (fun t' => tm_id t' ≠ tm_id t)).
Qed.

Lemma fires_wf (l : list Timer) (s : State) :
  timers_wf s -> rendered s ->
  timers_wf (foldl fire s l) /\ rendered (foldl fire s l).
Proof.
  revert s. induction l as [|t l IH]; intros s Hw Hr; [done|].
  simpl. destruct (fire_wf s t Hw). by apply IH.
Qed.

Lemma step_wf (s : State) (ev : Event) :
  timers_wf s -> rendered s ->
  timers_wf (step s ev) /\ rendered (step s ev).
Proof.
  intros Hw Hr. unfold Bar.step.
  destruct (enabled trim ev s); [|done].
  destruct ev; try (apply render_wf; cbn [Bar.handle]).
  - by apply (bar_timers_same s).
  - by apply (bar_timers_same s).
  - by apply (bar_timers_same s).
  - by apply (bar_timers_same s).
  - by apply (bar_timers_same s).
  - by apply (bar_timers_same s).
  - by apply (bar_timers_same s).
  - by apply (bar_timers_same s).
  - apply debouncedLoad_wf. by apply (bar_timers_same s).
  - apply debouncedLoad_wf. by apply (bar_timers_same s).
  - apply debouncedLoad_wf. by apply (bar_timers_same s).
  - by apply (bar_timers_same s).
  - apply debouncedLoad_wf. by apply (bar_timers_same s).
  - by apply (bar_timers_same s).
  - apply debouncedLoad_wf. by apply (bar_timers_same s).
  - apply debouncedLoad_wf. by apply (bar_timers_same s).
  - cbn [Bar.handle]. unfold Bar.elapse.
    destruct (fires_wf
      (merge_sort fires_before
         (filter (fun t => (tm_due t <= now (env s) + ms)%nat) (timers (env s))))
      s Hw Hr) as [Hw' Hr'].
    split; [by eapply bar_timers_same; [| |exact Hw']|]. exact Hr'.
  - unfold Bar.settle. destruct (list_find _ _) as [[i [id' c]]|]; [|done].
    by apply (bar_timers_same s).
Qed.

Lemma run_wf (evs : list Event) (s : State) :
  timers_wf s -> rendered s -> timers_wf (run s evs) /\ rendered (run s evs).
Proof.
  revert s. induction evs as [|ev evs IH]; intros s Hw Hr; [done|].
  simpl. destruct (step_wf s ev Hw Hr). by apply IH.
Qed.

Lemma reachable_wf (evs : list Event) :
  timers_wf (run initial evs) /\ rendered (run initial evs).
Proof.
  apply run_wf.
  - split; [constructor|]. intros t Ht. by apply elem_of_nil in Ht.
  - done.
Qed.

Lemma render_view (s : State) : view (render s) = view s.
Proof.
  unfold Bar.render. cbv zeta.
  destruct (_ && _); destruct (_ && _); reflexivity.
Qed.

Lemma render_rendered (s : State) : rendered s -> render s = s.
Proof.
  intros [Hm Hs]. rewrite render_quiet by (by rewrite Hs).
  rewrite decide_True by done. rewrite <- Hs. by destruct s.
Qed.

Lemma merge_sort_singleton (t : Timer) : merge_sort fires_before [t] = [t].
Proof.
  apply Permutation_singleton_r, merge_sort_Permutation.
Qed.

(** With one timer armed and due, the passage of time makes the call
    the timer's [load] makes, and nothing stays armed. *)
Lemma elapse_armed (ms : nat) (s : State) (t : Timer) :
  rendered s ->
  timers (env s) = [t] ->
  (tm_due t <= now (env s) + ms)%nat ->
  let s' := elapse ms s in
  view s' = view s
  /\ log (env s') = log (env s) ++ [load_request (c_view (tm_load t)) (tm_pi t)]
  /\ pending (env s') = pending (env s) ++ [(length (log (env s)), tm_load t)]
  /\ timers (env s') = []
  /\ table s'
     = mkTable (rows (table s)) (total (table s)) None (pageIndex (table s)) true
               (dbInitializing (table s)) false.
Proof.
  intros Hr Ht Hdue. unfold Bar.elapse. rewrite Ht.
  rewrite filter_cons_True by done. rewrite filter_nil, merge_sort_singleton.
  cbn [foldl]. unfold Bar.fire. rewrite render_rendered.
  - cbn. rewrite Ht. rewrite filter_cons_False by (intros H; by apply H).
    by rewrite filter_nil.
  - destruct Hr as [Hm Hs]. split; [done|]. cbn. by rewrite Hs.
Qed.

(** A handler that changes only the sort order or the search text and
    calls [debouncedLoad]: the bar shows the new values, and the timer
    holds the [load] of the values before. *)
Lemma stale_debounce (s : State) (v' : View) (pi : Z) :
  timers_wf s -> rendered s ->
  timeRange v' = timeRange (view s) ->
  selectedYear v' = selectedYear (view s) ->
  selectedQuarter v' = selectedQuarter (view s) ->
  dataset v' = dataset (view s) ->
  v' <> view s ->
  let s1 := render (debouncedLoad pi (setPageIndex pi (set_view v' s))) in
  rendered s1
  /\ view s1 = v'
  /\ log (env s1) = log (env s)
  /\ pending (env s1) = pending (env s)
  /\ now (env s1) = now (env s)
  /\ timers (env s1)
     = [mkTimer (next_timer (env s)) (now (env s) + 1000) pi (memo s)]
  /\ pageIndex (table s1) = pi.
Proof.
  intros Hw [Hm Hs] H1 H2 H3 H4 Hne s1. subst s1.
  rewrite debouncedLoad_spec by (by apply (bar_timers_same s)).
  rewrite render_quiet by (cbn; by rewrite Hs).
  cbn. rewrite Hm. rewrite decide_False by done. done.
Qed.

End BarFacts.

Section BarClaims.
Import Bar.

(** X14. A click on a column header of the main table shows the new
    sort order at once but reloads with the old one: the load it
    schedules was created before the click, so one second later
    [queryParquetPaged] is called for the first page with the column
    and direction the table was sorted by before, and nothing else is
    scheduled that would load the new order. *)
Theorem header_click_loads_previous_order :
  forall (trim toLowerCase : string -> string) (evs : list Bar.Event) (key : string),
    let s := Bar.run trim toLowerCase Bar.initial evs in
    let s1 := Bar.step trim toLowerCase s (Bar.ClickHeader key) in
    let s2 := Bar.step trim toLowerCase s1 (Bar.Elapse 1000) in
    Bar.dbInitializing (Bar.table s) = false ->
    Bar.sortBy (Bar.view s1) = key
    /\ (Bar.sortBy (Bar.view s1), Bar.sortDir (Bar.view s1))
       <> (Bar.sortBy (Bar.view s), Bar.sortDir (Bar.view s))
    /\ Bar.view s2 = Bar.view s1
    /\ Bar.log (Bar.env s1) = Bar.log (Bar.env s)
    /\ Bar.log (Bar.env s2)
       = Bar.log (Bar.env s) ++ [Bar.load_request trim toLowerCase (Bar.view s) 0]
    /\ Sql.o_orderBy
         <$> Bar.request_opts (Bar.load_request trim toLowerCase (Bar.view s) 0)
       = Some (Some (Bar.sortBy (Bar.view s) +:+ " "
                       +:+ Engine.show_dir (Bar.sortDir (Bar.view s))))
    /\ Bar.timers (Bar.env s2) = [].
Proof.
  intros trim lower evs key s s1 s2 Hdb.
  destruct (reachable_wf trim lower evs) as [Hw Hr]. fold s in Hw, Hr.
  set (newDir := if String.eqb (sortBy (view s)) key
                    && bool_decide (sortDir (view s) = Engine.DESC)
                 then Engine.ASC else Engine.DESC).
  set (v' := mkView (dataset (view s)) (nameFilter (view s)) (timeRange (view s))
               (selectedYear (view s)) (selectedQuarter (view s)) key newDir).
  assert ((key, newDir) <> (sortBy (view s), sortDir (view s))) as Hne.
  { unfold newDir. intros [= Hk Hd]. rewrite Hk, String.eqb_refl in Hd.
    destruct (sortDir (view s)); simpl in Hd; done. }
  assert (s1 = Bar.render (debouncedLoad 0 (setPageIndex 0 (set_view v' s)))) as Hs1.
  { unfold s1, Bar.step. cbn [enabled]. rewrite Hdb. reflexivity. }
  destruct (stale_debounce s v' 0 Hw Hr) as (Hr1 & Hv1 & Hl1 & _ & Hn1 & Ht1 & _);
    try done.
  { intros Hv. apply Hne. by rewrite <- Hv. }
  rewrite <- Hs1 in Hr1, Hv1, Hl1, Hn1, Ht1.
  destruct (elapse_armed trim lower 1000 s1 _ Hr1 Ht1) as (Hv2 & Hl2 & _ & Ht2 & _).
  { cbn. rewrite Hn1. lia. }
  assert (s2 = Bar.elapse trim lower 1000 s1) as -> by done.
  rewrite Hv1. split; [done|]. split; [done|]. split; [by rewrite Hv2, Hv1|].
  split; [done|]. split; [|split; [done|exact Ht2]].
  rewrite Hl2, Hl1. cbn. destruct Hr as [-> _]. done.
Qed.

Lemma header_click_loads_previous_order_witness :
  let s := Bar.run (fun x => x) (fun x => x) Bar.initial
             [ Bar.Init; Bar.Settle 0 (Explorer.Resolved [] 25) ] in
  let s1 := Bar.step (fun x => x) (fun x => x) s (Bar.ClickHeader "contract_count") in
  let s2 := Bar.step (fun x => x) (fun x => x) s1 (Bar.Elapse 1000) in
  Bar.dbInitializing (Bar.table s) = false
  /\ Bar.sortBy (Bar.view s1) = "contract_count"
  /\ Bar.log (Bar.env s2)
     = Bar.log (Bar.env s)
       ++ [Bar.load_request (fun x => x) (fun x => x) (Bar.view s) 0].
Proof.
  intros s s1 s2.
  assert (Bar.dbInitializing (Bar.table s) = false) as Hdb by reflexivity.
  split; [exact Hdb|].
  destruct (header_click_loads_previous_order (fun x => x) (fun x => x)
              [ Bar.Init; Bar.Settle 0 (Explorer.Resolved [] 25) ]
              "contract_count" Hdb) as (H1 & _ & _ & _ & H5 & _).
  split; [exact H1|exact H5].
Defined.

(** The same on a run: the first click on Contracts reloads by total
    value, the second one by contracts, descending, while the header
    shows contracts, ascending. *)
Example header_click_sample :
  let s := Bar.run (fun x => x) (fun x => x) Bar.initial
             [ Bar.Init; Bar.Settle 0 (Explorer.Resolved [] 25);
               Bar.Elapse 1000; Bar.Settle 1 (Explorer.Resolved [] 25);
               Bar.ClickHeader "contract_count"; Bar.Elapse 1000;
               Bar.Settle 2 (Explorer.Resolved [] 25);
               Bar.ClickHeader "contract_count"; Bar.Elapse 1000 ] in
  (fun o => Sql.o_orderBy o) <$> omap Bar.request_opts (Bar.log (Bar.env s))
  = [ Some "total_contract_value DESC"; Some "total_contract_value DESC";
      Some "total_contract_value DESC"; Some "contract_count DESC" ]
  /\ (Bar.sortBy (Bar.view s), Bar.sortDir (Bar.view s))
     = ("contract_count", Engine.ASC).
Proof. vm_compute. done. Qed.

(** X15. Clearing the search box does not clear the search. The
    button in the box empties the text shown and schedules a load;
    the button of the empty state empties it and loads at once; in
    both cases the [load] that runs was created before the click, and
    [queryParquetPaged] is called with the condition built from the
    text that was in the box. *)
Theorem clearing_search_loads_previous_text :
  forall (trim toLowerCase : string -> string) (evs : list Bar.Event),
    let s := Bar.run trim toLowerCase Bar.initial evs in
    let old := Bar.load_request trim toLowerCase (Bar.view s) 0 in
    Bar.dbInitializing (Bar.table s) = false ->
    Bar.nameFilter (Bar.view s) <> EmptyString ->
    (Sql.o_where <$> Bar.request_opts old
     = Some (Some (MainQuery.where_ trim toLowerCase (Bar.nameFilter (Bar.view s)))))
    /\ (let s1 := Bar.step trim toLowerCase s Bar.ClearName in
        let s2 := Bar.step trim toLowerCase s1 (Bar.Elapse 1000) in
        Bar.nameFilter (Bar.view s2) = EmptyString
        /\ Bar.log (Bar.env s2) = Bar.log (Bar.env s) ++ [old]
        /\ Bar.timers (Bar.env s2) = [])
    /\ (Bar.enabled trim Bar.ClearNoResults s = true ->
        let s1 := Bar.step trim toLowerCase s Bar.ClearNoResults in
        Bar.nameFilter (Bar.view s1) = EmptyString
        /\ Bar.log (Bar.env s1) = Bar.log (Bar.env s) ++ [old]
        /\ Bar.timers (Bar.env s1) = Bar.timers (Bar.env s)).
Proof.
  intros trim lower evs s old Hdb Hname.
  destruct (reachable_wf trim lower evs) as [Hw Hr]. fold s in Hw, Hr.
  split; [done|]. split.
  - intros s1 s2.
    set (v' := mkView (dataset (view s)) EmptyString (timeRange (view s))
                 (selectedYear (view s)) (selectedQuarter (view s))
                 (sortBy (view s)) (sortDir (view s))).
    assert (v' <> view s) as Hne.
    { intros Hv. apply Hname. by rewrite <- Hv. }
    assert (s1 = Bar.render (debouncedLoad 0 (setPageIndex 0 (set_view v' s)))) as Hs1.
    { unfold s1, Bar.step. cbn [enabled]. rewrite Hdb.
      destruct (String.eqb_spec (nameFilter (view s)) EmptyString); done. }
    destruct (stale_debounce s v' 0 Hw Hr) as (Hr1 & Hv1 & Hl1 & _ & Hn1 & Ht1 & _);
      try done.
    rewrite <- Hs1 in Hr1, Hv1, Hl1, Hn1, Ht1.
    destruct (elapse_armed trim lower 1000 s1 _ Hr1 Ht1) as (Hv2 & Hl2 & _ & Ht2 & _).
    { cbn. rewrite Hn1. lia. }
    assert (s2 = Bar.elapse trim lower 1000 s1) as -> by done.
    split; [by rewrite Hv2, Hv1|]. split; [|exact Ht2].
    rewrite Hl2, Hl1. cbn. destruct Hr as [-> _]. done.
  - intros Hen s1. unfold s1, Bar.step. rewrite Hen. cbn [Bar.handle].
    rewrite render_quiet.
    + done.
    + cbn. by destruct Hr as [_ ->].
    + cbn. by destruct Hr as [_ ->].
    + cbn. by destruct Hr as [_ ->].
    + cbn. by destruct Hr as [_ ->].
    + cbn. by destruct Hr as [_ ->].
Qed.

Lemma clearing_search_loads_previous_text_witness :
  let s := Bar.run (fun x => x) (fun x => x) Bar.initial
             [ Bar.Init; Bar.Settle 0 (Explorer.Resolved [] 25);
               Bar.TypeName "acme" ] in
  let s1 := Bar.step (fun x => x) (fun x => x) s Bar.ClearName in
  let s2 := Bar.step (fun x => x) (fun x => x) s1 (Bar.Elapse 1000) in
  Bar.dbInitializing (Bar.table s) = false
  /\ Bar.nameFilter (Bar.view s) <> EmptyString
  /\ Bar.nameFilter (Bar.view s2) = EmptyString
  /\ Bar.log (Bar.env s2)
     = Bar.log (Bar.env s)
       ++ [Bar.load_request (fun x => x) (fun x => x) (Bar.view s) 0].
Proof.
  intros s s1 s2.
  assert (Bar.dbInitializing (Bar.table s) = false) as Hdb by reflexivity.
  assert (Bar.nameFilter (Bar.view s) <> EmptyString) as Hname by (vm_compute; discriminate).
  split; [exact Hdb|]. split; [exact Hname|].
  destruct (clearing_search_loads_previous_text (fun x => x) (fun x => x)
              [ Bar.Init; Bar.Settle 0 (Explorer.Resolved [] 25); Bar.TypeName "acme" ]
              Hdb Hname) as (_ & (H1 & H2 & _) & _).
  split; [exact H1|exact H2].
Defined.

(** What a select or a quick filter leaves of the filter bar. *)
Lemma selection_view (trim toLowerCase : string -> string) (ev : Event) (s : State) :
  is_selection ev = true ->
  let h := Bar.handle trim toLowerCase ev s in
  nameFilter (view h) = nameFilter (view s)
  /\ sortBy (view h) = sortBy (view s)
  /\ sortDir (view h) = sortDir (view s)
  /\ table h = mkTable (rows (table s)) (total (table s)) (error (table s)) 0
                       (loading (table s)) (dbInitializing (table s))
                       (debouncing (table s))
  /\ memo h = memo s /\ seen h = seen s
  /\ debounceTimeoutRef h = debounceTimeoutRef s /\ env h = env s.
Proof. by destruct ev. Qed.

(** X16. Choosing another dataset or another period reloads with the
    choice. When a select or a quick filter changes the filter bar,
    the page goes back to the first, no call is made at once, and one
    second later [queryParquetPaged] is called exactly once, for the
    first page, with the URL and the options of the filter bar as it
    is after the choice. *)
Theorem selection_loads_the_new_view_once :
  forall (trim toLowerCase : string -> string) (evs : list Bar.Event) (ev : Bar.Event),
    let s := Bar.run trim toLowerCase Bar.initial evs in
    let s1 := Bar.step trim toLowerCase s ev in
    let s2 := Bar.step trim toLowerCase s1 (Bar.Elapse 1000) in
    Bar.is_selection ev = true ->
    Bar.enabled trim ev s = true ->
    Bar.view s1 <> Bar.view s ->
    Bar.pageIndex (Bar.table s1) = 0
    /\ Bar.debouncing (Bar.table s1) = true
    /\ Bar.log (Bar.env s1) = Bar.log (Bar.env s)
    /\ Bar.view s2 = Bar.view s1
    /\ Bar.log (Bar.env s2)
       = Bar.log (Bar.env s) ++ [Bar.load_request trim toLowerCase (Bar.view s1) 0]
    /\ Bar.timers (Bar.env s2) = [].
Proof.
  intros trim lower evs ev s s1 s2 Hsel Hen Hne.
  destruct (reachable_wf trim lower evs) as [Hw Hr]. fold s in Hw, Hr.
  assert (dbInitializing (table s) = false) as Hdb.
  { destruct ev; try done; cbn [enabled] in Hen;
      by destruct (dbInitializing (table s)). }
  set (h := Bar.handle trim lower ev s).
  destruct (selection_view trim lower ev s Hsel) as (Hn & Hsb & Hsd & Ht & Hm & Hsn & Href & He).
  fold h in Hn, Hsb, Hsd, Ht, Hm, Hsn, Href, He.
  assert (s1 = Bar.render h) as Hs1.
  { unfold s1, Bar.step. rewrite Hen. by destruct ev. }
  assert (view s1 = view h) as Hv1 by (rewrite Hs1; apply render_view).
  assert (timers_wf h) as Hwh by (by apply (bar_timers_same s); rewrite ?He).
  (* the view has changed in a dependency of an effect *)
  assert (negb (bool_decide
             ((timeRange (seen h).1, selectedYear (seen h).1,
               selectedQuarter (seen h).1, (seen h).2)
              = (timeRange (view h), selectedYear (view h),
                 selectedQuarter (view h), dbInitializing (table h))))
          || negb (bool_decide
               ((dataset (seen h).1, (seen h).2)
                = (dataset (view h), dbInitializing (table h)))) = true) as Hch.
  { destruct Hr as [_ Hs]. rewrite Hsn, Hs. cbn [fst snd].
    apply orb_true_iff.
    destruct (decide (dataset (view s) = dataset (view h))) as [Hd|Hd].
    - left. apply negb_true_iff, bool_decide_eq_false. intros [= H1 H2 H3 _].
      apply Hne. rewrite Hv1. destruct (view h), (view s). simpl in *. congruence.
    - right. apply negb_true_iff, bool_decide_eq_false. by intros [= H1 _]. }
  assert (exists id,
             timers (env s1) = [mkTimer id (now (env s) + 1000) 0
                                        (mkClosure (view h) false)]
             /\ now (env s1) = now (env s)
             /\ log (env s1) = log (env s)
             /\ table s1
                = mkTable (rows (table s)) (total (table s)) (error (table s)) 0
                          (loading (table s)) false true) as (id & Ht1 & Hn1 & Hl1 & Htab1).
  { rewrite Hs1. unfold Bar.render.
    assert (c_view (memo h) <> view h) as Hmv.
    { rewrite Hm. destruct Hr as [-> _]. intros Hv. apply Hne. by rewrite Hv1. }
    rewrite (decide_False _ _ Hmv).
    assert (dbInitializing (table h) = false) as Hdbh by (by rewrite Ht).
    rewrite Hdbh in Hch |- *. cbn [negb]. rewrite !andb_true_r.
    set (s0 := mkState _ _ _ _ _ _).
    assert (timers_wf s0) as Hw0 by (by apply (bar_timers_same h)).
    destruct (negb (bool_decide (_ = (timeRange _, _, _, _)))) eqn:E1.
    - pose proof (debouncedLoad_wf (pageIndex (table s0)) s0 Hw0) as Hw1.
      destruct (negb (bool_decide (_ = (dataset _, _)))).
      + rewrite (debouncedLoad_spec _ (debouncedLoad _ s0)) by done.
        rewrite (debouncedLoad_spec _ s0) by done. cbn. rewrite Ht, He. cbn. rewrite ?Hdb. by eexists.
      + rewrite (debouncedLoad_spec _ s0) by done. cbn. rewrite Ht, He. cbn. rewrite ?Hdb. by eexists.
    - cbn [orb] in Hch. rewrite Hch.
      rewrite (debouncedLoad_spec _ s0) by done. cbn. rewrite Ht, He. cbn. rewrite ?Hdb. by eexists. }
  destruct (step_wf trim lower s ev Hw Hr) as [_ Hr1]. fold s1 in Hr1.
  destruct (elapse_armed trim lower 1000 s1 _ Hr1 Ht1) as (Hv2 & Hl2 & _ & Ht2 & _).
  { cbn. rewrite Hn1. lia. }
  assert (s2 = Bar.elapse trim lower 1000 s1) as -> by done.
  rewrite Htab1. split; [done|]. split; [done|]. split; [done|].
  split; [done|]. split; [|done].
  rewrite Hl2, Hl1. cbn. by rewrite Hv1.
Qed.

Lemma selection_loads_the_new_view_once_witness :
  let s := Bar.run (fun x => x) (fun x => x) Bar.initial
             [ Bar.Init; Bar.Settle 0 (Explorer.Resolved [] 60);
               Bar.Elapse 1000; Bar.Settle 1 (Explorer.Resolved [] 60) ] in
  let s1 := Bar.step (fun x => x) (fun x => x) s (Bar.SelectDataset Explorer.areas) in
  let s2 := Bar.step (fun x => x) (fun x => x) s1 (Bar.Elapse 1000) in
  Bar.is_selection (Bar.SelectDataset Explorer.areas) = true
  /\ Bar.enabled (fun x => x) (Bar.SelectDataset Explorer.areas) s = true
  /\ Bar.view s1 <> Bar.view s
  /\ Bar.log (Bar.env s2)
     = Bar.log (Bar.env s)
       ++ [Bar.load_request (fun x => x) (fun x => x) (Bar.view s1) 0].
Proof.
  intros s s1 s2.
  assert (Bar.is_selection (Bar.SelectDataset Explorer.areas) = true)
    as Hsel by reflexivity.
  assert (Bar.enabled (fun x => x) (Bar.SelectDataset Explorer.areas) s = true)
    as Hen by (vm_compute; reflexivity).
  assert (Bar.view s1 <> Bar.view s) as Hne by (vm_compute; discriminate).
  split; [exact Hsel|]. split; [exact Hen|]. split; [exact Hne|].
  destruct (selection_loads_the_new_view_once (fun x => x) (fun x => x)
              [ Bar.Init; Bar.Settle 0 (Explorer.Resolved [] 60);
                Bar.Elapse 1000; Bar.Settle 1 (Explorer.Resolved [] 60) ]
              (Bar.SelectDataset Explorer.areas) Hsel Hen Hne)
    as (_ & _ & _ & _ & H5 & _).
  exact H5.
Defined.

End BarClaims.

Section BarStart.
Import Bar.

Variables trim toLowerCase : string -> string.

#[local] Abbreviation step := (Bar.step trim toLowerCase).
#[local] Abbreviation run := (Bar.run trim toLowerCase).
#[local] Abbreviation first_load := (Bar.load_request trim toLowerCase initial_view 0).
#[local] Abbreviation starting := (Bar.starting trim toLowerCase).

(** [dbInitializing] is never set back to [true]. *)
Lemma render_table (s : State) :
  dbInitializing (table (render s)) = dbInitializing (table s).
Proof.
  unfold Bar.render. cbv zeta.
  destruct (_ && _); destruct (_ && _); reflexivity.
Qed.

Lemma fire_ready (s : State) (t : Timer) :
  dbInitializing (table (fire trim toLowerCase s t)) = dbInitializing (table s).
Proof. unfold Bar.fire. by rewrite render_table. Qed.

Lemma fires_ready (l : list Timer) (s : State) :
  dbInitializing (table (foldl (fire trim toLowerCase) s l))
  = dbInitializing (table s).
Proof.
  revert s. induction l as [|t l IH]; intros s; [done|].
  simpl. by rewrite IH, fire_ready.
Qed.

Lemma step_ready (s : State) (ev : Event) :
  dbInitializing (table s) = false -> dbInitializing (table (step s ev)) = false.
Proof.
  intros Hdb. unfold Bar.step. destruct (enabled trim ev s); [|done].
  destruct ev; rewrite ?render_table; cbn; try done.
  - by rewrite fires_ready.
  - unfold Bar.settle. destruct (list_find _ _) as [[? [? c]]|]; [|done].
    unfold Bar.settled. by destruct (c_dbInitializing c), o.
Qed.

Lemma step_starting (s : State) (ev : Event) :
  rendered s ->
  dbInitializing (table s) = true -> starting s ->
  dbInitializing (table (step s ev)) = true -> starting (step s ev).
Proof.
  intros Hr Hdb (Hv & Hm & Ht & Hp & Hl) Hdb'. revert Hdb'. unfold Bar.step.
  destruct (enabled trim ev s) eqn:Hen; [|done].
  destruct ev; cbn [enabled] in Hen; rewrite ?Hdb in Hen; try done.
  - (* Init *)
    rewrite render_rendered.
    + intros _. repeat split; try done. cbn. apply Forall_app. split; [done|].
      by constructor.
    + destruct Hr as [Hr1 Hr2]. split; [done|]. cbn. by rewrite Hr2.
  - (* InitFailed *)
    rewrite render_table. done.
  - (* Elapse *)
    intros _. cbn [Bar.handle]. unfold Bar.elapse. rewrite Ht. simpl.
    by repeat split.
  - (* Settle *)
    cbn [Bar.handle]. unfold Bar.settle.
    destruct (list_find _ _) as [[? [? c]]|].
    + rewrite render_table. cbn. intros Hdb'.
      rewrite render_rendered.
      * repeat split; try done. cbn. by destruct o.
      * destruct Hr as [Hr1 Hr2]. split; [done|]. cbn. rewrite Hr2, Hdb.
        f_equal. destruct (c_dbInitializing c), o; cbn in *; congruence.
    + rewrite render_rendered by done. done.
Qed.

Lemma run_starting (evs : list Event) :
  dbInitializing (table (run initial evs)) = true -> starting (run initial evs).
Proof.
  induction evs as [|ev evs IH] using rev_ind.
  - intros _. by repeat split.
  - unfold Bar.run. rewrite foldl_app. cbn [foldl].
    fold (run initial evs). intros Hdb.
    destruct (dbInitializing (table (run initial evs))) eqn:E.
    + apply step_starting; try done; [apply reachable_wf|by apply IH].
    + by rewrite step_ready in Hdb.
Qed.

(** The render on which the notice goes away: both effects run, and
    the second call of [debouncedLoad] replaces the timer of the first. *)
Lemma render_started (h : State) :
  c_view (memo h) = view h ->
  seen h = (view h, true) ->
  dbInitializing (table h) = false ->
  timers (env h) = [] ->
  let s1 := render h in
  rendered s1
  /\ (exists id, timers (env s1)
                 = [mkTimer id (now (env h) + 1000) (pageIndex (table h)) (memo h)])
  /\ now (env s1) = now (env h)
  /\ log (env s1) = log (env h)
  /\ debouncing (table s1) = true
  /\ error (table s1) = error (table h).
Proof.
  intros Hm Hs Hdb Ht s1.
  assert (timers_wf h) as Hw.
  { split; rewrite Ht; [constructor|]. intros t Hin. by apply elem_of_nil in Hin. }
  split; [by apply render_wf|].
  unfold s1, Bar.render. rewrite Hs, Hdb. cbn [fst snd negb andb].
  rewrite decide_True by done.
  rewrite !bool_decide_eq_false_2 by (intros [=]). cbn [negb andb].
  set (s0 := mkState _ _ _ _ _ _).
  assert (timers_wf s0) as Hw0 by (by apply (bar_timers_same h)).
  rewrite (debouncedLoad_spec _ (debouncedLoad _ s0))
    by (by apply debouncedLoad_wf).
  rewrite (debouncedLoad_spec _ s0) by done. cbn.
  split; [by eexists|done].
Qed.

Lemma active_quick_filter (s : State) :
  Bar.handle trim toLowerCase
    (QuickFilter (timeRange (view s)) (selectedYear (view s))
                 (selectedQuarter (view s))) s
  = setPageIndex 0 s.
Proof. by destruct s as [[] ? ? ? ? ?]. Qed.

(** X17. A quick filter that is already active rewinds the pager
    without reloading. Clicking the quick filter whose period is the
    one shown sets the page back to the first, but no effect runs:
    no load is scheduled, no call is made, and the table keeps the
    rows of the page it was on. *)
Theorem active_quick_filter_rewinds_without_loading :
  forall (evs : list Bar.Event) (tr : Explorer.TimeRange) (year quarter : Z),
    let s := run Bar.initial evs in
    let s1 := step s (Bar.QuickFilter tr year quarter) in
    Bar.enabled trim (Bar.QuickFilter tr year quarter) s = true ->
    (Bar.timeRange (Bar.view s), Bar.selectedYear (Bar.view s),
     Bar.selectedQuarter (Bar.view s)) = (tr, year, quarter) ->
    Bar.pageIndex (Bar.table s1) = 0
    /\ Bar.rows (Bar.table s1) = Bar.rows (Bar.table s)
    /\ Bar.total (Bar.table s1) = Bar.total (Bar.table s)
    /\ Bar.debouncing (Bar.table s1) = false
    /\ Bar.view s1 = Bar.view s
    /\ Bar.env s1 = Bar.env s.
Proof.
  intros evs tr y q s s1 Hen [= H1 H2 H3].
  destruct (reachable_wf trim toLowerCase evs) as [Hw [Hm Hs]].
  fold s in Hw, Hm, Hs.
  assert (Bar.handle trim toLowerCase (QuickFilter tr y q) s = setPageIndex 0 s) as Hh.
  { rewrite <- H1, <- H2, <- H3. apply active_quick_filter. }
  unfold s1, Bar.step. rewrite Hen, Hh.
  rewrite render_rendered by (split; cbn; done).
  cbn [enabled] in Hen. unfold busy in Hen. cbn.
  destruct (dbInitializing (table s)), (loading (table s)),
    (debouncing (table s)); done.
Qed.

(** X18. The first page is loaded twice on start-up. While the
    notice of the initialising engine is shown the only call made is
    the first load; the event that takes the notice away (the first
    result, the first error, or a failed initialisation) makes both
    effects run, and one second later the same call is made once
    more, clearing whatever error was shown. *)
Theorem first_page_is_loaded_again_after_start :
  forall (evs : list Bar.Event) (ev : Bar.Event),
    let s := run Bar.initial evs in
    let s1 := step s ev in
    let s2 := step s1 (Bar.Elapse 1000) in
    Bar.dbInitializing (Bar.table s) = true ->
    Bar.dbInitializing (Bar.table s1) = false ->
    Forall (fun r => r = first_load) (Bar.log (Bar.env s))
    /\ Bar.log (Bar.env s1) = Bar.log (Bar.env s)
    /\ Bar.debouncing (Bar.table s1) = true
    /\ (forall message, ev = Bar.InitFailed message ->
                        Bar.error (Bar.table s1) = Some message)
    /\ Bar.log (Bar.env s2) = Bar.log (Bar.env s) ++ [first_load]
    /\ Bar.error (Bar.table s2) = None
    /\ Bar.timers (Bar.env s2) = [].
Proof.
  intros evs ev s s1 s2 Hdb Hdb1.
  destruct (reachable_wf trim toLowerCase evs) as [Hw [Hm Hs]].
  fold s in Hw, Hm, Hs.
  destruct (run_starting evs Hdb) as (Hv & Hmemo & Ht & Hp & Hl). fold s in Hv, Hmemo, Ht, Hp, Hl.
  split; [done|].
  set (h := Bar.handle trim toLowerCase ev s).
  assert (s1 = render h
          /\ c_view (memo h) = view h /\ seen h = (view h, true)
          /\ timers (env h) = [] /\ memo h = memo s /\ view h = view s
          /\ pageIndex (table h) = 0
          /\ now (env h) = now (env s) /\ log (env h) = log (env s)
          /\ (forall message, ev = InitFailed message ->
                              error (table h) = Some message))
    as (Hs1 & Hmh & Hsh & Hth & Hmm & Hvh & Hph & Hnh & Hlh & Heh).
  { revert Hdb1. unfold s1, h, Bar.step.
    destruct (enabled trim ev s) eqn:Hen; [|by rewrite Hdb].
    destruct ev; cbn [enabled] in Hen; rewrite ?Hdb in Hen; try done.
    - rewrite render_table. cbn. by rewrite Hdb.
    - intros _. cbn. rewrite Hs, Hdb. repeat split; try done.
      by intros ? [= ->].
    - cbn [Bar.handle]. unfold Bar.elapse. rewrite Ht. simpl. by rewrite Hdb.
    - cbn [Bar.handle]. unfold Bar.settle.
      destruct (list_find _ _) as [[? [? c]]|]; [|by rewrite render_table, Hdb].
      intros _. cbn. rewrite Hs, Hdb. repeat split; try done. by destruct o. }
  assert (dbInitializing (table h) = false) as Hdbh.
  { rewrite <- Hdb1, Hs1. symmetry. apply render_table. }
  destruct (render_started h Hmh Hsh Hdbh Hth)
    as (Hr1 & [id Ht1] & Hn1 & Hl1 & Hd1 & He1).
  rewrite <- Hs1 in Hr1, Ht1, Hn1, Hl1, Hd1, He1.
  destruct (elapse_armed trim toLowerCase 1000 s1 _ Hr1 Ht1)
    as (_ & Hl2 & _ & Ht2 & Htab2).
  { cbn. rewrite Hn1. lia. }
  assert (s2 = Bar.elapse trim toLowerCase 1000 s1) as -> by done.
  split; [by rewrite Hl1|]. split; [done|].
  split; [intros m Hev; rewrite He1; by apply Heh|].
  split; [|split; [by rewrite Htab2|done]].
  rewrite Hl2, Hl1, Hlh. cbn. by rewrite Hmm, Hmemo, Hph.
Qed.

End BarStart.

Lemma active_quick_filter_rewinds_without_loading_witness :
  let s := Bar.run (fun x => x) (fun x => x) Bar.initial
             [ Bar.Init; Bar.Settle 0 (Explorer.Resolved [] 60);
               Bar.Elapse 1000; Bar.Settle 1 (Explorer.Resolved [] 60);
               Bar.ClickNext; Bar.Elapse 1000;
               Bar.Settle 2 (Explorer.Resolved [] 60) ] in
  let s1 := Bar.step (fun x => x) (fun x => x) s
              (Bar.QuickFilter Explorer.all_time 2021 4) in
  Bar.pageIndex (Bar.table s) = Explorer.pageSize
  /\ Bar.pageIndex (Bar.table s1) = 0
  /\ Bar.env s1 = Bar.env s.
Proof.
  intros s s1.
  assert (Bar.enabled (fun x => x) (Bar.QuickFilter Explorer.all_time 2021 4) s = true)
    as Hen by (vm_compute; reflexivity).
  assert ((Bar.timeRange (Bar.view s), Bar.selectedYear (Bar.view s),
           Bar.selectedQuarter (Bar.view s)) = (Explorer.all_time, 2021, 4))
    as Hv by (vm_compute; reflexivity).
  split; [vm_compute; reflexivity|].
  destruct (active_quick_filter_rewinds_without_loading (fun x => x) (fun x => x)
              [ Bar.Init; Bar.Settle 0 (Explorer.Resolved [] 60);
                Bar.Elapse 1000; Bar.Settle 1 (Explorer.Resolved [] 60);
                Bar.ClickNext; Bar.Elapse 1000;
                Bar.Settle 2 (Explorer.Resolved [] 60) ]
              Explorer.all_time 2021 4 Hen Hv) as (H1 & _ & _ & _ & _ & H6).
  split; [exact H1|exact H6].
Defined.

Lemma first_page_is_loaded_again_after_start_witness :
  let s := Bar.run (fun x => x) (fun x => x) Bar.initial [ Bar.Init ] in
  let s1 := Bar.step (fun x => x) (fun x => x) s
              (Bar.Settle 0 (Explorer.Resolved [] 60)) in
  let s2 := Bar.step (fun x => x) (fun x => x) s1 (Bar.Elapse 1000) in
  Bar.dbInitializing (Bar.table s) = true
  /\ Bar.dbInitializing (Bar.table s1) = false
  /\ Bar.log (Bar.env s2)
     = [ Bar.load_request (fun x => x) (fun x => x) Bar.initial_view 0;
         Bar.load_request (fun x => x) (fun x => x) Bar.initial_view 0 ].
Proof.
  intros s s1 s2.
  assert (Bar.dbInitializing (Bar.table s) = true) as Hdb by reflexivity.
  assert (Bar.dbInitializing (Bar.table s1) = false) as Hdb1 by reflexivity.
  split; [exact Hdb|]. split; [exact Hdb1|].
  destruct (first_page_is_loaded_again_after_start (fun x => x) (fun x => x)
              [ Bar.Init ] (Bar.Settle 0 (Explorer.Resolved [] 60)) Hdb Hdb1)
    as (_ & _ & _ & _ & H5 & _).
  exact H5.
Defined.

(** ** Counts of a nested drill *)

Section DrillCounts.
Import Engine Httpfs Explorer.

(** The rows [queryTopRelated] returns are summaries of entities. *)
Lemma topRelated_rows (w : World) (db : Db) (sourceDim targetDim : EntityType)
    (v url : string) (limit : Z) (t : Table) :
  fetch w url = Some t ->
  Forall (fun c => c ∈ t_cols t) facts_columns ->
  0 <= limit ->
  exists (shown : list Value) (db' : Db),
    queryTopRelated w sourceDim v targetDim limit url db
    = Ok (map (summary t (column_table sourceDim) v (column_table targetDim)) shown,
          db').
Proof.
  intros Hfetch Hcols Hlimit.
  set (srcCol := column_table sourceDim). set (tgtCol := column_table targetDim).
  pose proof (column_table_facts sourceDim _ Hcols) as Hs.
  pose proof (column_table_facts targetDim _ Hcols) as Ht.
  assert (Ha : "total_contract_amount" ∈ t_cols t).
  { rewrite Forall_forall in Hcols. apply Hcols. set_solver. }
  assert (Hd : "award_date" ∈ t_cols t).
  { rewrite Forall_forall in Hcols. apply Hcols. set_solver. }
  set (kept := filter (fun r => cell (t_cols t) r srcCol = VStr v
                                /\ cell (t_cols t) r tgtCol <> VNull) (t_rows t)).
  set (keys := group_keys (t_cols t) (ECol tgtCol) kept).
  set (f := fun k => (total_of t srcCol v tgtCol k, summary_values t srcCol v tgtCol k)).
  destruct (order_rows_ranked DESC f keys) as (ranked & Hrk & _).
  { done. }
  { apply NoDup_remove_dups. }
  exists (take (Z.to_nat limit) ranked). eexists.
  unfold queryTopRelated, load_file. rewrite Hfetch.
  replace (Sql.dimToCol_related (dim_name sourceDim)) with srcCol
    by (by destruct sourceDim).
  replace (Sql.dimToCol_related (dim_name targetDim)) with tgtCol
    by (by destruct targetDim).
  cbn [bind query exec registerFileBuffer dropFile files views].
  rewrite lookup_insert_eq. cbn [bind snd fst]. unfold view_table.
  cbn [files views s_from related_select]. rewrite !lookup_insert_eq.
  cbn [bind]. rewrite (eval_related (cfg w) t srcCol tgtCol v limit) by done.
  cbn [bind snd fst]. fold kept. fold keys.
  rewrite map_map.
  rewrite (map_ext_on _ f keys).
  2:{ intros k Hk. pose proof (group_row t srcCol tgtCol v k Hk) as Hg.
      fold kept in Hg. rewrite Hg. reflexivity. }
  rewrite Hrk, <- fmap_take, map_map. cbn [snd f].
  rewrite <- (normalize_summary (cfg w) t srcCol v tgtCol). reflexivity.
Qed.

(** The count [queryContractsByEntity] returns for the first page of a
    drill. *)
Lemma drill_listing_total (w : World) (db : Db) (filters : list Sql.Filter)
    (url : string) (t : Table) :
  fetch w url = Some t ->
  Forall (fun c => c ∈ t_cols t) facts_columns ->
  Forall (fun f => Sql.dimToCol_contracts (Sql.dim f) ∈ t_cols t) filters ->
  exists p db',
    queryContractsByEntity w filters 0 20 (Some ("award_date", DESC)) url db
    = Ok (p, db')
    /\ Httpfs.totalCount p = Z.of_nat (length (selected t filters)).
Proof.
  intros Hfetch Hcols Hf.
  destruct (eval_contracts_page (cfg w) t filters 0 20 (Some ("award_date", DESC)) Hf)
    as (out & Hev & _); [lia|lia|left; cbn; set_solver|].
  pose proof (eval_contracts_counted (cfg w) t filters Hf) as Hcount.
  unfold queryContractsByEntity, load_file. rewrite Hfetch. cbn [bind].
  destruct (query_create (cfg w)
              (registerFileBuffer "facts_contracts.parquet" t
                 (dropFile "facts_contracts.parquet" db))
              empty_result "facts_v" "facts_contracts.parquet" t)
    as (db1 & -> & Hview); [apply lookup_insert_eq|].
  cbn [bind snd fst].
  rewrite (query_table_info _ _ _ _ _ _ Hview). cbn [bind snd fst].
  rewrite (contracts_select_ext _ (has_col (t_cols t))) by apply probe_has.
  rewrite (query_select (cfg w) db1 _ _ t
             (contracts_select (has_col (t_cols t)) filters 0 20
                (Some ("award_date", DESC)))
             _ Hview Hev).
  cbn [bind snd fst].
  rewrite (query_select (cfg w) db1 _ _ t (contracts_count_select filters)
             _ Hview Hcount).
  cbn [bind snd fst].
  eexists _, _. split; [reflexivity|]. cbn [Httpfs.totalCount].
  unfold toArray. cbn [rs_rows rs_fields map]. by destruct (named_rows (cfg w)).
Qed.

Lemma dimToCol_contracts_dim_name (d : EntityType) :
  Sql.dimToCol_contracts (dim_name d) = column_table d.
Proof. by destruct d. Qed.

(** The filters of a drill path name columns of the facts file. *)
Lemma breadcrumb_columns (cols : list string) (m : DrillModalData) :
  Forall (fun c => c ∈ cols) facts_columns ->
  Forall (fun f => Sql.dimToCol_contracts (Sql.dim f) ∈ cols) (breadcrumbFilters m).
Proof.
  intros Hcols. unfold breadcrumbFilters.
  rewrite breadcrumb_loop_chain, app_nil_r.
  apply Forall_fmap, Forall_forall. intros c _. cbn.
  rewrite dimToCol_contracts_dim_name. by apply column_table_facts.
Qed.

Lemma length_filter_impl {A} (P Q : A -> Prop) `{!forall x, Decision (P x)}
    `{!forall x, Decision (Q x)} (l : list A) :
  (forall x, P x -> Q x) -> (length (filter P l) <= length (filter Q l))%nat.
Proof.
  intros Himp. induction l as [|x l IH]; [done|].
  destruct (decide (P x)) as [Hp|Hp].
  - rewrite filter_cons_True by done.
    rewrite (filter_cons_True Q) by auto. simpl. lia.
  - rewrite filter_cons_False by done.
    destruct (decide (Q x)).
    + rewrite filter_cons_True by done. simpl. lia.
    + by rewrite filter_cons_False.
Qed.

(** The filters of the level a click opens: those of the level clicked
    in, then the row clicked. *)
Lemma breadcrumb_clicked (m : DrillModalData) (et : EntityType) (e : string) :
  breadcrumbFilters (loading_modal et e (Some m))
  = breadcrumbFilters m ++ [Sql.mkFilter (dim_name et) e].
Proof.
  unfold breadcrumbFilters. cbn. by rewrite !breadcrumb_loop_chain, !app_nil_r.
Qed.

Lemma breadcrumb_last (m : DrillModalData) :
  Sql.mkFilter (dim_name (srcDim m)) (srcVal m) ∈ breadcrumbFilters m.
Proof.
  unfold breadcrumbFilters. rewrite breadcrumb_loop_chain, app_nil_r.
  apply list_elem_of_fmap. exists m. split; [done|].
  apply list_elem_of_In. apply -> in_rev. destruct m; by left.
Qed.

(** X19. The count shown in a tab of a nested drill overstates what a
    click lists. The row of an entity in tab [et] of level [m] comes
    from [queryTopRelated] called with the dimension and value of [m]
    alone; a click on it opens a level whose listing is filtered by the
    whole drill path. The total of that listing never exceeds the
    [contract_count] of the row, and equals it when [m] is the first
    level. *)
Theorem nested_tab_count_bounds_listing :
  forall (w : World) (db1 db2 : Db) (st : Settings) (m : DrillModalData)
         (et : EntityType) (e : string) (t : Table),
    fetch w (getFactsUrl st) = Some t ->
    Forall (fun c => c ∈ t_cols t) facts_columns ->
    et <> srcDim m ->
    let clicked := loading_modal et e (Some m) in
    let shown := TopRelated (srcDim m) (srcVal m) et 10 (getFactsUrl st) in
    let listed :=
      ContractsByEntity (breadcrumbFilters clicked) 0 20 ("award_date", DESC)
                        (getFactsUrl st) in
    (shown, HEntityTab et) ∈ orchestrator_calls st m
    /\ (listed, HContractsDrill) ∈ orchestrator_calls st clicked
    /\ exists rows db1' p db2',
         queryTopRelated w (srcDim m) (srcVal m) et 10 (getFactsUrl st) db1
         = Ok (rows, db1')
         /\ queryContractsByEntity w (breadcrumbFilters clicked) 0 20
              (Some ("award_date", DESC)) (getFactsUrl st) db2
            = Ok (p, db2')
         /\ forall row,
              row ∈ rows -> row !! "entity" = Some (JV (VStr e)) ->
              exists n,
                row !! "contract_count" = Some (JV (VInt n))
                /\ Httpfs.totalCount p <= n
                /\ (parentModal m = None -> Httpfs.totalCount p = n).
Proof.
  intros w db1 db2 st m et e t Hfetch Hcols Hne clicked shown listed.
  split; [|split].
  - unfold orchestrator_calls, tab_loads. apply elem_of_app. left.
    apply list_elem_of_fmap. exists et. split; [done|].
    apply list_elem_of_filter. split; [done|]. destruct et; set_solver.
  - unfold orchestrator_calls, tab_loads. apply elem_of_app. right.
    by apply list_elem_of_singleton.
  - destruct (topRelated_rows w db1 (srcDim m) et (srcVal m) _ 10 t Hfetch Hcols)
      as (ents & db1' & Hq1); [lia|].
    destruct (drill_listing_total w db2 (breadcrumbFilters clicked) _ t Hfetch Hcols)
      as (p & db2' & Hq2 & Htot); [by apply breadcrumb_columns|].
    eexists _, db1', p, db2'. split; [exact Hq1|]. split; [exact Hq2|].
    intros row Hrow Hent.
    apply list_elem_of_fmap in Hrow as (k & -> & _).
    unfold summary in Hent |- *.
    rewrite !lookup_insert_ne in Hent by done. rewrite lookup_insert_eq in Hent.
    injection Hent as ->.
    eexists. split.
    { rewrite !lookup_insert_ne by done. by rewrite lookup_insert_eq. }
    rewrite Htot. unfold clicked. rewrite breadcrumb_clicked.
    unfold selected, facts_matching. split.
    + apply inj_le, length_filter_impl. intros r Hr.
      rewrite Forall_app, Forall_singleton in Hr. destruct Hr as [Hr He].
      rewrite Forall_forall in Hr. specialize (Hr _ (breadcrumb_last m)).
      cbn in Hr, He. rewrite dimToCol_contracts_dim_name in Hr, He. done.
    + intros Hroot. f_equal. f_equal. apply list_filter_iff. intros r.
      assert (breadcrumbFilters m = [Sql.mkFilter (dim_name (srcDim m)) (srcVal m)])
        as -> by (destruct m; cbn in *; by subst).
      cbn. rewrite !Forall_cons, Forall_nil. cbn.
      rewrite !dimToCol_contracts_dim_name. tauto.
Qed.

Lemma nested_tab_count_bounds_listing_witness :
  let w := serving sample_facts (mkCfg true false) in
  let st := mounted_settings in
  let m := loading_modal contractor "ACME CORP" None in
  fetch w (getFactsUrl st) = Some sample_facts
  /\ Forall (fun c => c ∈ t_cols sample_facts) facts_columns
  /\ area <> srcDim m
  /\ exists rows db1' p db2',
       queryTopRelated w contractor "ACME CORP" area 10 (getFactsUrl st) empty_db
       = Ok (rows, db1')
       /\ queryContractsByEntity w
            (breadcrumbFilters (loading_modal area "Cebu" (Some m))) 0 20
            (Some ("award_date", DESC)) (getFactsUrl st) empty_db
          = Ok (p, db2').
Proof.
  intros w st m.
  assert (Hf : fetch w (getFactsUrl st) = Some sample_facts) by reflexivity.
  assert (Hc : Forall (fun c => c ∈ t_cols sample_facts) facts_columns).
  { repeat constructor; simpl; set_solver. }
  assert (Hne : area <> srcDim m) by discriminate.
  split; [exact Hf|]. split; [exact Hc|]. split; [exact Hne|].
  destruct (nested_tab_count_bounds_listing w empty_db empty_db st m area "Cebu"
              sample_facts Hf Hc Hne)
    as (_ & _ & rows & db1' & p & db2' & Hq1 & Hq2 & _).
  exists rows, db1', p, db2'. split; [exact Hq1|exact Hq2].
Defined.

(** On the sample file, two levels down: under ACME CORP, then DOH,
    the area tab shows two contracts for Metro, one of them of another
    contractor; a click on Metro lists one. *)
Example nested_tab_count_sample :
  let w := serving sample_facts (mkCfg true false) in
  let m := loading_modal organization "DOH"
             (Some (loading_modal contractor "ACME CORP" None)) in
  map brief
    <$> result_of (queryTopRelated w organization "DOH" area 10 facts_url empty_db)
  = Some [ (Some (JV (VStr "Metro")), Some (JV (VInt 2)), Some (JV (VInt 120))) ]
  /\ Httpfs.totalCount
       <$> result_of (queryContractsByEntity w
                        (breadcrumbFilters (loading_modal area "Metro" (Some m)))
                        0 20 (Some ("award_date", DESC)) facts_url empty_db)
     = Some 1.
Proof. split; vm_compute; reflexivity. Qed.

End DrillCounts.

(** ** Sorting a related tab *)

Section RelatedSort.
Import Bar.

(** X20. Sorting a related tab of the drill modal re-sorts the main
    table. A click on a column header of a related tab sets [sortBy]
    and [sortDir] of the main table: nothing is loaded and the rows of
    the main table stay, but its header shows the new order, and the
    next search loads the first page in that order. *)
Theorem related_sort_reorders_main_table :
  forall (trim toLowerCase : string -> string) (evs : list Bar.Event) (key : string),
    let s := Bar.run trim toLowerCase Bar.initial evs in
    let s1 := Bar.step trim toLowerCase s (Bar.SortRelated key) in
    let s2 := Bar.step trim toLowerCase
                (Bar.step trim toLowerCase s1 Bar.PressEnter) (Bar.Elapse 1000) in
    Bar.dbInitializing (Bar.table s) = false ->
    Bar.sortBy (Bar.view s1) = key
    /\ (Bar.sortBy (Bar.view s1), Bar.sortDir (Bar.view s1))
       <> (Bar.sortBy (Bar.view s), Bar.sortDir (Bar.view s))
    /\ Bar.table s1 = Bar.table s
    /\ Bar.env s1 = Bar.env s
    /\ Bar.log (Bar.env s2)
       = Bar.log (Bar.env s) ++ [Bar.load_request trim toLowerCase (Bar.view s1) 0]
    /\ Sql.o_orderBy
         <$> Bar.request_opts (Bar.load_request trim toLowerCase (Bar.view s1) 0)
       = Some (Some (key +:+ " " +:+ Engine.show_dir (Bar.sortDir (Bar.view s1))))
    /\ Bar.timers (Bar.env s2) = [].
Proof.
  intros trim lower evs key s s1 s2 Hdb.
  destruct (reachable_wf trim lower evs) as [Hw Hr]. fold s in Hw, Hr.
  set (newDir := if String.eqb (sortBy (view s)) key
                    && bool_decide (sortDir (view s) = Engine.DESC)
                 then Engine.ASC else Engine.DESC).
  assert ((key, newDir) <> (sortBy (view s), sortDir (view s))) as Hne.
  { unfold newDir. intros [= Hk Hd]. rewrite Hk, String.eqb_refl in Hd.
    destruct (sortDir (view s)); simpl in Hd; done. }
  set (v' := mkView (dataset (view s)) (nameFilter (view s)) (timeRange (view s))
               (selectedYear (view s)) (selectedQuarter (view s)) key newDir).
  assert (s1 = mkState v' (table s) (mkClosure v' false) (v', false)
                 (debounceTimeoutRef s) (env s)) as Hs1.
  { unfold s1, Bar.step. cbn [enabled]. rewrite Hdb. cbn [negb andb Bar.handle].
    fold newDir. rewrite render_quiet by (cbn; by destruct Hr as [_ ->]).
    destruct (decide _) as [Hv|_].
    - exfalso. destruct Hr as [Hm _]. cbn in Hv. rewrite Hm in Hv.
      apply Hne. by rewrite Hv.
    - cbn. by rewrite Hdb. }
  clearbody s1. subst s1.
  set (s1 := mkState v' _ _ _ _ _) in *.
  assert (timers_wf s1) as Hw1 by (by apply (bar_timers_same s)).
  set (h := Bar.handle trim lower PressEnter s1).
  assert (Bar.step trim lower s1 PressEnter = h) as Hstep.
  { unfold Bar.step. cbn [enabled]. cbn. rewrite Hdb. cbn.
    apply render_rendered.
    rewrite debouncedLoad_spec by (by apply (bar_timers_same s1)).
    split; [done|]. cbn. by rewrite Hdb. }
  assert (rendered h /\ now (env h) = now (env s) /\ log (env h) = log (env s)
          /\ timers (env h)
             = [mkTimer (next_timer (env s)) (now (env s) + 1000) 0 (memo s1)])
    as (Hrh & Hnh & Hlh & Hth).
  { unfold h. cbn [Bar.handle].
    rewrite debouncedLoad_spec by (by apply (bar_timers_same s1)).
    cbn. repeat split; try done. cbn. by rewrite Hdb. }
  unfold s2. rewrite Hstep.
  destruct (elapse_armed trim lower 1000 h _ Hrh Hth) as (_ & Hl2 & _ & Ht2 & _).
  { rewrite Hnh. cbn. lia. }
  assert (Bar.step trim lower h (Elapse 1000) = Bar.elapse trim lower 1000 h)
    as -> by done.
  cbn [s1 v' view table env sortBy sortDir].
  split; [done|]. split; [done|]. split; [done|]. split; [done|].
  split; [|split; [done|exact Ht2]].
  rewrite Hl2, Hlh. done.
Qed.

Lemma related_sort_reorders_main_table_witness :
  let s := Bar.run (fun x => x) (fun x => x) Bar.initial
             [ Bar.Init; Bar.Settle 0 (Explorer.Resolved [] 60);
               Bar.Elapse 1000; Bar.Settle 1 (Explorer.Resolved [] 60) ] in
  let s1 := Bar.step (fun x => x) (fun x => x) s (Bar.SortRelated "contract_count") in
  let s2 := Bar.step (fun x => x) (fun x => x)
              (Bar.step (fun x => x) (fun x => x) s1 Bar.PressEnter)
              (Bar.Elapse 1000) in
  Bar.dbInitializing (Bar.table s) = false
  /\ Bar.env s1 = Bar.env s
  /\ Sql.o_orderBy
       <$> (last (Bar.log (Bar.env s2)) ≫= Bar.request_opts)
     = Some (Some "contract_count DESC").
Proof.
  intros s s1 s2.
  assert (Bar.dbInitializing (Bar.table s) = false) as Hdb by reflexivity.
  split; [exact Hdb|].
  destruct (related_sort_reorders_main_table (fun x => x) (fun x => x)
              [ Bar.Init; Bar.Settle 0 (Explorer.Resolved [] 60);
                Bar.Elapse 1000; Bar.Settle 1 (Explorer.Resolved [] 60) ]
              "contract_count" Hdb) as (_ & _ & _ & H4 & H5 & _).
  split; [exact H4|].
  unfold s2, s1, s. rewrite H5, last_snoc. vm_compute. reflexivity.
Defined.

End RelatedSort.

(** ** The pages of a fresh listing *)

Section DrillOrder.
Import Engine Explorer Calls.

Lemma settle_fields (id : nat) (o : Outcome) (s : State) :
  settings (settle id o s) = settings s
  /\ activeTab (settle id o s) = activeTab s
  /\ contractsSortBy (settle id o s) = contractsSortBy s
  /\ contractsSortDir (settle id o s) = contractsSortDir s
  /\ modalDebounceTimeoutRef (settle id o s) = modalDebounceTimeoutRef s
  /\ debounceTimeoutRef (settle id o s) = debounceTimeoutRef s.
Proof. unfold settle. by destruct (list_find _ _) as [[? [? ?]]|]. Qed.

Lemma settings_step (s : State) (ev : Event) : settings (step s ev) = settings s.
Proof.
  destruct ev; try (by destruct (elapse_effects ms s) as (? & _)); simpl; try done.
  - unfold onModalDrill. by destruct (modalData s).
  - unfold goBack. destruct (modalData s) as [m|]; [|done].
    by destruct (parentModal m).
  - destruct (contracts_shown s); [|done].
    unfold onSortContracts. by destruct (modalData s).
  - destruct (modalData s) as [m|] eqn:E; [|done].
    destruct (_ && _); [|done]. unfold onPrevContracts. rewrite E.
    by destruct (_ <? _).
  - destruct (modalData s) as [m|] eqn:E; [|done].
    destruct (_ && _); [|done]. unfold onNextContracts. rewrite E.
    by destruct (_ <? _).
  - by destruct (main_prev_disabled s).
  - by destruct (main_next_disabled s).
  - apply settle_fields.
Qed.

Lemma settings_run (evs : list Event) (s : State) : settings (run s evs) = settings s.
Proof.
  revert s. induction evs as [|ev evs IH]; intros s; [done|].
  simpl. by rewrite IH, settings_step.
Qed.

Lemma pending_logged_same (s s' : State) :
  log (env s') = log (env s) -> pending (env s') = pending (env s) ->
  pending_logged s -> pending_logged s'.
Proof. unfold pending_logged. by intros -> ->. Qed.

Lemma pending_logged_launch (calls : list (Request * Handler)) (s s' : State) :
  env s' = launch calls (env s) -> pending_logged s -> pending_logged s'.
Proof.
  unfold pending_logged. intros -> H. rewrite launch_log, launch_pending.
  rewrite length_app, length_map. apply Forall_app. split.
  - eapply Forall_impl; [exact H|]. simpl. intros. lia.
  - unfold numbered. apply Forall_forall. intros ph Hin.
    apply list_elem_of_lookup in Hin as [i Hi].
    rewrite list_lookup_imap in Hi.
    destruct (calls !! i) as [c|] eqn:E; [|done]. injection Hi as <-. simpl.
    apply lookup_lt_Some in E. lia.
Qed.

Lemma pending_logged_fire (s : State) (t : Timer) :
  pending_logged s -> pending_logged (fire s t).
Proof.
  unfold pending_logged, fire. intros H.
  destruct (tm_cb t); simpl; rewrite length_app; simpl;
    (apply Forall_app; split;
     [eapply Forall_impl; [exact H|]; simpl; intros; lia
     |constructor; [simpl; lia|constructor]]).
Qed.

Lemma pending_logged_fires (l : list Timer) (s : State) :
  pending_logged s -> pending_logged (foldl fire s l).
Proof.
  revert s. induction l as [|t l IH]; intros s H; [done|].
  simpl. by apply IH, pending_logged_fire.
Qed.

Lemma pending_logged_step (s : State) (ev : Event) :
  pending_logged s -> pending_logged (step s ev).
Proof.
  intros H. destruct ev; simpl.
  - apply (pending_logged_launch
             [(ParquetPaged (parquetUrl (settings s)) (main_pageIndex (main s))
                 pageSize (mainOpts (settings s)), HMain)] s); done.
  - by eapply pending_logged_launch.
  - unfold onModalDrill. destruct (modalData s); [|done].
    by eapply pending_logged_launch.
  - unfold goBack. destruct (modalData s) as [m|]; [|done].
    by destruct (parentModal m).
  - done.
  - destruct (contracts_shown s); [|done].
    unfold onSortContracts.
    destruct (modalData s); apply (pending_logged_same s); try done;
      unfold debouncedModalContractsLoad; simpl;
      by destruct (clear_ref_timers (modalDebounceTimeoutRef s) (env s))
        as (_ & _ & _ & ? & ?).
  - destruct (modalData s) as [m|] eqn:E; [|done].
    destruct (_ && _); [|done]. unfold onPrevContracts. rewrite E.
    destruct (_ <? _); [|done].
    apply (pending_logged_same s); try done;
      unfold debouncedModalContractsLoad; simpl;
      by destruct (clear_ref_timers (modalDebounceTimeoutRef s) (env s))
        as (_ & _ & _ & ? & ?).
  - destruct (modalData s) as [m|] eqn:E; [|done].
    destruct (_ && _); [|done]. unfold onNextContracts. rewrite E.
    destruct (_ <? _); [|done].
    apply (pending_logged_same s); try done;
      unfold debouncedModalContractsLoad; simpl;
      by destruct (clear_ref_timers (modalDebounceTimeoutRef s) (env s))
        as (_ & _ & _ & ? & ?).
  - destruct (main_prev_disabled s); [done|].
    apply (pending_logged_same s); try done;
      unfold onPrevMain, debouncedLoad; simpl;
      by destruct (clear_ref_timers (debounceTimeoutRef s) (env s))
        as (_ & _ & _ & ? & ?).
  - destruct (main_next_disabled s); [done|].
    apply (pending_logged_same s); try done;
      unfold onNextMain, debouncedLoad; simpl;
      by destruct (clear_ref_timers (debounceTimeoutRef s) (env s))
        as (_ & _ & _ & ? & ?).
  - apply (pending_logged_same s); try done;
      unfold debouncedLoad; simpl;
      by destruct (clear_ref_timers (debounceTimeoutRef s) (env s))
        as (_ & _ & _ & ? & ?).
  - unfold elapse.
    apply (pending_logged_same (foldl fire s (due_timers (now (env s) + ms) (env s))));
      try done.
    by apply pending_logged_fires.
  - unfold settle. destruct (list_find _ _) as [[? [? ?]]|]; [|done].
    unfold pending_logged in *. simpl. by apply Forall_filtered.
  - apply (pending_logged_same s); try done; unfold cleanup; simpl.
    + destruct (clear_ref_timers (modalDebounceTimeoutRef s)
                  (clear_ref (debounceTimeoutRef s) (env s))) as (_ & _ & _ & -> & _).
      by destruct (clear_ref_timers (debounceTimeoutRef s) (env s))
        as (_ & _ & _ & -> & _).
    + destruct (clear_ref_timers (modalDebounceTimeoutRef s)
                  (clear_ref (debounceTimeoutRef s) (env s))) as (_ & _ & _ & _ & ->).
      by destruct (clear_ref_timers (debounceTimeoutRef s) (env s))
        as (_ & _ & _ & _ & ->).
Qed.

Lemma pending_logged_run (evs : list Event) (s : State) :
  pending_logged s -> pending_logged (run s evs).
Proof.
  revert s. induction evs as [|ev evs IH]; intros s H; [done|].
  simpl. by apply IH, pending_logged_step.
Qed.







Lemma with_settings_env (st : Settings) (s : State) :
  env (Period.with_settings st s) = env s.
Proof. done. Qed.









End DrillOrder.

(** ** Searching by name *)

Section NameSearch.
Import Bar.

(** X23. The search box searches what was typed. After text has been
    typed into the box, Enter sets the page back to the first and, one
    second later, [queryParquetPaged] is called once, for offset 0,
    with the condition built from the text as typed and the rest of
    the filter bar as it is. *)
Theorem enter_searches_the_text_typed :
  forall (trim toLowerCase : string -> string) (evs : list Bar.Event) (text : string),
    let s := Bar.run trim toLowerCase Bar.initial evs in
    let s1 := Bar.step trim toLowerCase s (Bar.TypeName text) in
    let s2 := Bar.step trim toLowerCase s1 Bar.PressEnter in
    let s3 := Bar.step trim toLowerCase s2 (Bar.Elapse 1000) in
    Bar.dbInitializing (Bar.table s) = false ->
    Bar.nameFilter (Bar.view s1) = text
    /\ Bar.env s1 = Bar.env s
    /\ Bar.pageIndex (Bar.table s2) = 0
    /\ Bar.log (Bar.env s2) = Bar.log (Bar.env s)
    /\ Bar.view s3 = Bar.view s1
    /\ Bar.log (Bar.env s3)
       = Bar.log (Bar.env s) ++ [Bar.load_request trim toLowerCase (Bar.view s1) 0]
    /\ Sql.o_where
         <$> Bar.request_opts (Bar.load_request trim toLowerCase (Bar.view s1) 0)
       = Some (Some (MainQuery.where_ trim toLowerCase text))
    /\ Bar.timers (Bar.env s3) = [].
Proof.
  intros trim lower evs text s s1 s2 s3 Hdb.
  destruct (reachable_wf trim lower evs) as [Hw Hr]. fold s in Hw, Hr.
  set (v' := mkView (dataset (view s)) text (timeRange (view s))
               (selectedYear (view s)) (selectedQuarter (view s))
               (sortBy (view s)) (sortDir (view s))).
  assert (exists c, c_view c = v'
                    /\ s1 = mkState v' (table s) c (v', false)
                              (debounceTimeoutRef s) (env s)) as (c & Hc & Hs1).
  { unfold s1, Bar.step. cbn [enabled]. rewrite Hdb. cbn [negb andb Bar.handle].
    rewrite render_quiet by (cbn; by destruct Hr as [_ ->]).
    cbn [view table memo env debounceTimeoutRef setNameFilter set_view].
    fold v'. rewrite Hdb.
    destruct (decide _) as [Hv|_]; eexists; (split; [|reflexivity]); done. }
  clearbody s1. subst s1.
  set (s1 := mkState v' _ _ _ _ _) in *.
  assert (timers_wf s1) as Hw1 by (by apply (bar_timers_same s)).
  assert (s2 = debouncedLoad 0 (setPageIndex 0 s1)) as Hs2.
  { unfold s2, Bar.step. cbn [enabled]. cbn. rewrite Hdb. cbn.
    apply render_rendered.
    rewrite debouncedLoad_spec by (by apply (bar_timers_same s1)).
    split; [done|]. cbn. by rewrite Hdb. }
  rewrite debouncedLoad_spec in Hs2 by (by apply (bar_timers_same s1)).
  cbn in Hs2. clearbody s2. subst s2.
  set (s2 := mkState v' (mkTable _ _ _ 0 _ _ true) _ _ _ _) in *.
  assert (rendered s2) as Hr2 by (split; [done|]; cbn; by rewrite Hdb).
  destruct (elapse_armed trim lower 1000 s2 _ Hr2 eq_refl) as (Hv3 & Hl3 & _ & Ht3 & _).
  { cbn. lia. }
  assert (s3 = Bar.elapse trim lower 1000 s2) as -> by done.
  split; [done|]. split; [done|]. split; [done|]. split; [done|].
  split; [exact Hv3|]. split; [|split; [done|exact Ht3]].
  rewrite Hl3. cbn. by rewrite Hc.
Qed.

Lemma enter_searches_the_text_typed_witness :
  let s := Bar.run (fun x => x) (fun x => x) Bar.initial
             [ Bar.Init; Bar.Settle 0 (Explorer.Resolved [] 60);
               Bar.Elapse 1000; Bar.Settle 1 (Explorer.Resolved [] 60) ] in
  let s1 := Bar.step (fun x => x) (fun x => x) s (Bar.TypeName "acme") in
  let s2 := Bar.step (fun x => x) (fun x => x) s1 Bar.PressEnter in
  let s3 := Bar.step (fun x => x) (fun x => x) s2 (Bar.Elapse 1000) in
  Bar.dbInitializing (Bar.table s) = false
  /\ Sql.o_where <$> (last (Bar.log (Bar.env s3)) ≫= Bar.request_opts)
     = Some (Some "lower(entity) LIKE '%acme%' AND contract_count > 0").
Proof.
  intros s s1 s2 s3.
  assert (Bar.dbInitializing (Bar.table s) = false) as Hdb by reflexivity.
  split; [exact Hdb|].
  destruct (enter_searches_the_text_typed (fun x => x) (fun x => x)
              [ Bar.Init; Bar.Settle 0 (Explorer.Resolved [] 60);
                Bar.Elapse 1000; Bar.Settle 1 (Explorer.Resolved [] 60) ]
              "acme" Hdb) as (_ & _ & _ & _ & _ & H6 & _).
  unfold s3, s2, s1, s. rewrite H6, last_snoc. vm_compute. reflexivity.
Defined.

End NameSearch.
